(** * Viterbi decoding over a hidden Markov model (hmmlearn.py)

    A shallow embedding of [viterbi] and [validate_input].  Python dicts are
    finite maps ([gmap]) keyed by strings, tuples and lists are [list]s,
    exceptions are an error monad, and the numbers stored in the tables are
    any type carrying Python's [*], [==] and [>]: IEEE doubles, the numbers
    of the shipped example, and exact rationals and integers.
    The diagnostic [print] calls have no influence on the result and are
    left out of [viterbi]; [viterbi_io] is the program with them. *)

From Stdlib Require Import ZArith QArith Qcanon Floats String Ascii List OrderedTypeEx.
From stdpp Require Import gmap strings list fin_maps sorting.

Local Open Scope string_scope.
#[local] Set Warnings "-inexact-float".
Local Open Scope list_scope.

(** ** Exceptions and the error monad *)

Inductive exn : Type :=
  | AssertionError (msg : string)
  | KeyError (key : string)
  | IndexError
  | ValueError
  | TypeError.

Inductive result (T : Type) : Type :=
  | Ok (v : T)
  | Raise (e : exn).
Arguments Ok {T} v.
Arguments Raise {T} e.

#[export] Instance result_ret : MRet result := fun _ v => Ok v.
#[export] Instance result_bind : MBind result := fun _ _ k m =>
  match m with
  | Ok v => k v
  | Raise e => Raise e
  end.

(** [for x in xs: st = body st x], stopping at the first exception. *)
Fixpoint for_each {S X : Type} (body : S → X → result S) (st : S) (xs : list X)
  : result S :=
  match xs with
  | [] => Ok st
  | x :: xs' => st' ← body st x; for_each body st' xs'
  end.

(** A generator expression consumed to its end: [(f x for x in xs)]. *)
Fixpoint gen_list {X Y : Type} (f : X → result Y) (xs : list X) : result (list Y) :=
  match xs with
  | [] => Ok []
  | x :: xs' => y ← f x; ys ← gen_list f xs'; Ok (y :: ys)
  end.

(** [all(f x for x in xs)]: stops at the first [False] or exception. *)
Fixpoint py_all {X : Type} (f : X → result bool) (xs : list X) : result bool :=
  match xs with
  | [] => Ok true
  | x :: xs' => f x ≫= fun b : bool => if b then py_all f xs' else Ok false
  end.

(** [d[k]] on a dict and [l[i]] on a list or tuple. *)
Definition dict_get {T : Type} (d : gmap string T) (k : string) : result T :=
  match d !! k with
  | Some v => Ok v
  | None => Raise (KeyError k)
  end.

Definition seq_get {T : Type} (l : list T) (i : nat) : result T :=
  match l !! i with
  | Some v => Ok v
  | None => Raise IndexError
  end.

(** [l[-1]]. *)
Definition seq_last {T : Type} (l : list T) : result T :=
  seq_get l (length l - 1).

(** ** Python values passed for [observations] and [states] *)

Inductive pyobj : Type :=
  | PyTuple (items : list string)
  | PyList (items : list string)
  | PyInt (n : Z).

(** [isinstance(o, (list, tuple))]. *)
Definition is_list_or_tuple (o : pyobj) : bool :=
  match o with
  | PyTuple _ | PyList _ => true
  | PyInt _ => false
  end.

(** The items a [for] loop, [len] or an index sees. *)
Definition py_items (o : pyobj) : result (list string) :=
  match o with
  | PyTuple l | PyList l => Ok l
  | PyInt _ => Raise TypeError
  end.

(** [set(o)]. *)
Definition py_set (o : pyobj) : result (gset string) :=
  l ← py_items o; Ok (list_to_set l).

(** [assert c, msg]. *)
Definition py_assert (c : bool) (msg : string) : result unit :=
  if c then Ok tt else Raise (AssertionError msg).

(** ** Numbers *)

(** What the code asks of a table entry: [*], and [==] and [>] inside the
    tuple comparison made by [max]. *)
Class PyNum (A : Type) : Type := {
  num_mul : A → A → A;
  num_eqb : A → A → bool;
  num_gtb : A → A → bool;
}.

(** Python [float]. *)
#[export] Instance float_PyNum : PyNum float := {|
  num_mul := PrimFloat.mul;
  num_eqb := PrimFloat.eqb;
  num_gtb := fun x y => PrimFloat.ltb y x;
|}.

(** Python [int]. *)
#[export] Instance Z_PyNum : PyNum Z := {|
  num_mul := Z.mul;
  num_eqb := Z.eqb;
  num_gtb := Z.gtb;
|}.

(** Python [fractions.Fraction]: normalised exact rationals. *)
#[export] Instance Qc_PyNum : PyNum Qc := {|
  num_mul := Qcmult;
  num_eqb := fun x y => match (x ?= y)%Qc with Eq => true | _ => false end;
  num_gtb := fun x y => match (x ?= y)%Qc with Gt => true | _ => false end;
|}.

(** [s1 > s2] on [str]. *)
Definition str_gtb (s1 s2 : string) : bool := String.ltb s2 s1.

Section Viterbi.
Context {A : Type} `{PyNum A}.

Abbreviation dict1 := (gmap string A).
Abbreviation dict2 := (gmap string (gmap string A)).

(** [x > y] on the pairs [(probability, state)]: the first component
    that differs under [==] decides. *)
Definition pair_gtb (x y : A * string) : bool :=
  if negb (num_eqb x.1 y.1) then num_gtb x.1 y.1
  else if negb (String.eqb x.2 y.2) then str_gtb x.2 y.2
  else false.

(** [max(items)]: the first item is the running maximum and a later item
    replaces it only when it is strictly greater. *)
Fixpoint max_loop (best : A * string) (items : list (A * string)) : A * string :=
  match items with
  | [] => best
  | x :: items' => max_loop (if pair_gtb x best then x else best) items'
  end.

Definition py_max (items : list (A * string)) : result (A * string) :=
  match items with
  | [] => Raise ValueError
  | x :: items' => Ok (max_loop x items')
  end.

(** *** validate_input *)

Definition msg_observations := "Observations must be a list or tuple.".
Definition msg_states := "States must be a list or tuple.".
Definition msg_start := "Start probabilities must match states.".
Definition msg_trans := "Transition probabilities must match states.".
Definition msg_trans_rows := "Transition probabilities must be defined for all states.".
Definition msg_emit := "Emission probabilities must match states.".
Definition msg_emit_rows := "Emission probabilities must be defined for all observations.".

(** [all(set(table[s].keys()) == keys for s in states)], [keys] being
    evaluated anew for each [s]. *)
Definition rows_match (table : dict2) (keys : pyobj) (states : list string)
  : result bool :=
  py_all (fun s => row ← dict_get table s;
                   ks ← py_set keys;
                   Ok (bool_decide (dom row = ks))) states.

Definition validate_input (observations states : pyobj)
    (start_prob : dict1) (trans_prob emit_prob : dict2) : result unit :=
  _ ← py_assert (is_list_or_tuple observations) msg_observations;
  _ ← py_assert (is_list_or_tuple states) msg_states;
  ks ← py_set states;
  _ ← py_assert (bool_decide (dom start_prob = ks)) msg_start;
  ks ← py_set states;
  _ ← py_assert (bool_decide (dom trans_prob = ks)) msg_trans;
  sts ← py_items states;
  b ← rows_match trans_prob states sts;
  _ ← py_assert b msg_trans_rows;
  ks ← py_set states;
  _ ← py_assert (bool_decide (dom emit_prob = ks)) msg_emit;
  sts ← py_items states;
  b ← rows_match emit_prob observations sts;
  py_assert b msg_emit_rows.

(** *** viterbi *)

(** The trellis [V] and the table [path]. *)
Definition trellis : Type := list dict1 * gmap string (list string).

(** Body of the initialisation loop (lines 33-38). *)
Definition init_body (obs : list string) (start_prob : dict1) (emit_prob : dict2)
    (st : trellis) (state : string) : result trellis :=
  a ← dict_get start_prob state;
  row ← dict_get emit_prob state;
  o ← seq_get obs 0;
  b ← dict_get row o;
  V0 ← seq_get st.1 0;
  Ok (<[0 := <[state := num_mul a b]> V0]> st.1, <[state := [state]]> st.2).

(** One item of the generator of lines 50-53. *)
Definition candidate (V : list dict1) (t : nat) (obs : list string)
    (trans_prob emit_prob : dict2) (current_state prev_state : string)
  : result (A * string) :=
  Vp ← seq_get V (t - 1);
  v ← dict_get Vp prev_state;
  trow ← dict_get trans_prob prev_state;
  a ← dict_get trow current_state;
  erow ← dict_get emit_prob current_state;
  o ← seq_get obs t;
  b ← dict_get erow o;
  Ok (num_mul (num_mul v a) b, prev_state).

(** Lines 50-53: the best predecessor of [current_state] at step [t]. *)
Definition best_prev (V : list dict1) (t : nat) (obs states : list string)
    (trans_prob emit_prob : dict2) (current_state : string)
  : result (A * string) :=
  items ← gen_list (candidate V t obs trans_prob emit_prob current_state) states;
  py_max items.

(** Body of the loop over [current_state] (lines 48-59); the state is
    [V] and [new_path], [path] is only read. *)
Definition step_body (t : nat) (obs states : list string)
    (trans_prob emit_prob : dict2) (path : gmap string (list string))
    (st : trellis) (current_state : string) : result trellis :=
  '(max_prob, prev_st) ← best_prev st.1 t obs states trans_prob emit_prob current_state;
  Vt ← seq_get st.1 t;
  p ← dict_get path prev_st;
  Ok (<[t := <[current_state := max_prob]> Vt]> st.1,
      <[current_state := p ++ [current_state]]> st.2).

(** Body of the loop over [t] (lines 42-63). *)
Definition time_body (obs states : list string) (trans_prob emit_prob : dict2)
    (st : trellis) (t : nat) : result trellis :=
  for_each (step_body t obs states trans_prob emit_prob st.2) (st.1 ++ [∅], ∅) states.

(** One item of the generator of line 66. *)
Definition finalist (V : list (gmap string A)) (state : string)
  : result (A * string) :=
  Vl ← seq_last V; v ← dict_get Vl state; Ok (v, state).

(** Line 66: the best final state. *)
Definition best_final (V : list dict1) (states : list string) : result (A * string) :=
  items ← gen_list (finalist V) states;
  py_max items.

(** The decoder once validation has passed (lines 28-75). *)
Definition decode (observations states : pyobj)
    (start_prob : dict1) (trans_prob emit_prob : dict2)
  : result (A * list string) :=
  sts ← py_items states;
  obs ← py_items observations;
  st0 ← for_each (init_body obs start_prob emit_prob) ([∅], ∅) sts;
  st ← for_each (time_body obs sts trans_prob emit_prob) st0 (seq 1 (length obs - 1));
  '(max_prob, final_state) ← best_final st.1 sts;
  p ← dict_get st.2 final_state;
  Ok (max_prob, p).

Definition viterbi (observations states : pyobj)
    (start_prob : dict1) (trans_prob emit_prob : dict2)
  : result (A * list string) :=
  _ ← validate_input observations states start_prob trans_prob emit_prob;
  decode observations states start_prob trans_prob emit_prob.

End Viterbi.

(** ** The decoder over a store of mutable objects

    The same program with its arguments and its tables [V] and [path] held
    by reference in a store, so that sharing and in-place updates are
    visible. *)

Definition loc : Type := positive.

Inductive obj (A : Type) : Type :=
  | OSeq (o : pyobj)
  | ONums (d : gmap string A)
  | ORefs (d : gmap string loc)
  | ORows (rows : list loc).
Arguments OSeq {A} o.
Arguments ONums {A} d.
Arguments ORefs {A} d.
Arguments ORows {A} rows.

(** A computation that may read and update the store and may raise. *)
Definition prog (A T : Type) : Type :=
  gmap loc (obj A) → result T * gmap loc (obj A).

#[export] Instance prog_ret {A : Type} : MRet (prog A) := fun _ v h => (Ok v, h).
#[export] Instance prog_bind {A : Type} : MBind (prog A) := fun _ _ k m h =>
  match m h with
  | (Ok v, h') => k v h'
  | (Raise e, h') => (Raise e, h')
  end.

Section Store.
Context {A : Type} `{PyNum A}.

Definition lift {T : Type} (r : result T) : prog A T := fun h => (r, h).

Definition alloc (o : obj A) : prog A loc :=
  fun h => let l := fresh (dom h) in (Ok l, <[l := o]> h).

Definition load (l : loc) : prog A (obj A) :=
  fun h => match h !! l with
           | Some o => (Ok o, h)
           | None => (Raise TypeError, h)
           end.

Definition store (l : loc) (o : obj A) : prog A unit :=
  fun h => (Ok tt, <[l := o]> h).

Fixpoint for_each_st {S X : Type} (body : S → X → prog A S) (st : S) (xs : list X)
  : prog A S :=
  match xs with
  | [] => mret st
  | x :: xs' => st' ← body st x; for_each_st body st' xs'
  end.

Fixpoint gen_list_st {X Y : Type} (f : X → prog A Y) (xs : list X) : prog A (list Y) :=
  match xs with
  | [] => mret []
  | x :: xs' => y ← f x; ys ← gen_list_st f xs'; mret (y :: ys)
  end.

Fixpoint py_all_st {X : Type} (f : X → prog A bool) (xs : list X) : prog A bool :=
  match xs with
  | [] => mret true
  | x :: xs' => f x ≫= fun b : bool => if b then py_all_st f xs' else mret false
  end.

(** Reading an object as a sequence, a dict of numbers, a dict of
    references or a list of references. *)
Definition seq_obj (l : loc) : prog A pyobj :=
  o ← load l;
  match o with OSeq s => mret s | _ => lift (Raise TypeError) end.

Definition seq_items (l : loc) : prog A (list string) :=
  s ← seq_obj l; lift (py_items s).

Definition seq_item (l : loc) (i : nat) : prog A string :=
  xs ← seq_items l; lift (seq_get xs i).

Definition keys_of (l : loc) : prog A (gset string) :=
  o ← load l;
  match o with
  | ONums d => mret (dom d)
  | ORefs d => mret (dom d)
  | _ => lift (Raise TypeError)
  end.

Definition nums_get (l : loc) (k : string) : prog A A :=
  o ← load l;
  match o with ONums d => lift (dict_get d k) | _ => lift (Raise TypeError) end.

Definition nums_set (l : loc) (k : string) (v : A) : prog A unit :=
  o ← load l;
  match o with
  | ONums d => store l (ONums (<[k := v]> d))
  | _ => lift (Raise TypeError)
  end.

Definition refs_get (l : loc) (k : string) : prog A loc :=
  o ← load l;
  match o with ORefs d => lift (dict_get d k) | _ => lift (Raise TypeError) end.

Definition refs_set (l : loc) (k : string) (r : loc) : prog A unit :=
  o ← load l;
  match o with
  | ORefs d => store l (ORefs (<[k := r]> d))
  | _ => lift (Raise TypeError)
  end.

Definition rows_get (l : loc) (i : nat) : prog A loc :=
  o ← load l;
  match o with ORows rows => lift (seq_get rows i) | _ => lift (Raise TypeError) end.

Definition rows_last (l : loc) : prog A loc :=
  o ← load l;
  match o with ORows rows => lift (seq_last rows) | _ => lift (Raise TypeError) end.

Definition rows_append (l : loc) (r : loc) : prog A unit :=
  o ← load l;
  match o with
  | ORows rows => store l (ORows (rows ++ [r]))
  | _ => lift (Raise TypeError)
  end.

(** [validate_input] on references. *)
Definition set_of (l : loc) : prog A (gset string) :=
  s ← seq_obj l; lift (py_set s).

Definition rows_match_st (table keys : loc) (states : list string) : prog A bool :=
  py_all_st (fun s => row ← refs_get table s;
                      ks' ← keys_of row;
                      ks ← set_of keys;
                      mret (bool_decide (ks' = ks))) states.

Definition validate_input_st (observations states start_prob trans_prob emit_prob : loc)
  : prog A unit :=
  o ← seq_obj observations;
  _ ← lift (py_assert (is_list_or_tuple o) msg_observations);
  s ← seq_obj states;
  _ ← lift (py_assert (is_list_or_tuple s) msg_states);
  ks' ← keys_of start_prob;
  ks ← set_of states;
  _ ← lift (py_assert (bool_decide (ks' = ks)) msg_start);
  ks' ← keys_of trans_prob;
  ks ← set_of states;
  _ ← lift (py_assert (bool_decide (ks' = ks)) msg_trans);
  sts ← seq_items states;
  b ← rows_match_st trans_prob states sts;
  _ ← lift (py_assert b msg_trans_rows);
  ks' ← keys_of emit_prob;
  ks ← set_of states;
  _ ← lift (py_assert (bool_decide (ks' = ks)) msg_emit);
  sts ← seq_items states;
  b ← rows_match_st emit_prob observations sts;
  lift (py_assert b msg_emit_rows).

(** Lines 33-38 with [V] and [path] by reference. *)
Definition init_body_st (observations start_prob emit_prob V path : loc)
    (_ : unit) (state : string) : prog A unit :=
  a ← nums_get start_prob state;
  row ← refs_get emit_prob state;
  o ← seq_item observations 0;
  b ← nums_get row o;
  V0 ← rows_get V 0;
  _ ← nums_set V0 state (num_mul a b);
  p ← alloc (OSeq (PyList [state]));
  refs_set path state p.

Definition candidate_st (V : loc) (t : nat) (observations trans_prob emit_prob : loc)
    (current_state prev_state : string) : prog A (A * string) :=
  Vp ← rows_get V (t - 1);
  v ← nums_get Vp prev_state;
  trow ← refs_get trans_prob prev_state;
  a ← nums_get trow current_state;
  erow ← refs_get emit_prob current_state;
  o ← seq_item observations t;
  b ← nums_get erow o;
  mret (num_mul (num_mul v a) b, prev_state).

(** Lines 48-59: [path[prev_st] + [current_state]] builds a new list. *)
Definition step_body_st (t : nat) (observations states trans_prob emit_prob : loc)
    (V path new_path : loc) (_ : unit) (current_state : string) : prog A unit :=
  sts ← seq_items states;
  items ← gen_list_st
    (candidate_st V t observations trans_prob emit_prob current_state) sts;
  r ← lift (py_max items);
  Vt ← rows_get V t;
  _ ← nums_set Vt current_state r.1;
  p ← refs_get path r.2;
  old ← seq_items p;
  q ← alloc (OSeq (PyList (old ++ [current_state])));
  refs_set new_path current_state q.

(** Lines 42-63; the loop state is the object bound to [path]. *)
Definition time_body_st (observations states trans_prob emit_prob V : loc)
    (path : loc) (t : nat) : prog A loc :=
  row ← alloc (ONums ∅);
  _ ← rows_append V row;
  new_path ← alloc (ORefs ∅);
  sts ← seq_items states;
  _ ← for_each_st
    (step_body_st t observations states trans_prob emit_prob V path new_path) tt sts;
  mret new_path.

Definition finalist_st (V : loc) (state : string) : prog A (A * string) :=
  Vl ← rows_last V; v ← nums_get Vl state; mret (v, state).

(** Lines 28-75; the result is the probability and the list object
    [path[final_state]]. *)
Definition decode_st (observations states start_prob trans_prob emit_prob : loc)
  : prog A (A * loc) :=
  row ← alloc (ONums ∅);
  V ← alloc (ORows [row]);
  path ← alloc (ORefs ∅);
  sts ← seq_items states;
  _ ← for_each_st (init_body_st observations start_prob emit_prob V path) tt sts;
  obs ← seq_items observations;
  path ← for_each_st (time_body_st observations states trans_prob emit_prob V)
                     path (seq 1 (length obs - 1));
  sts ← seq_items states;
  items ← gen_list_st (finalist_st V) sts;
  r ← lift (py_max items);
  p ← refs_get path r.2;
  mret (r.1, p).

Definition viterbi_st (observations states start_prob trans_prob emit_prob : loc)
  : prog A (A * loc) :=
  _ ← validate_input_st observations states start_prob trans_prob emit_prob;
  decode_st observations states start_prob trans_prob emit_prob.

End Store.

(** ** The decoder with its console output

    The same program with its [print] calls.  An f-string is kept as the
    sequence of its literal and interpolated parts; how Python formats a
    number or a list into text is not modelled. *)

(** The line feed written as [\n] in the source. *)
Definition nl : string := String "010"%char EmptyString.

Inductive frag (A : Type) : Type :=
  | FText (s : string)
  | FStr (s : string)
  | FInt (n : nat)
  | FNum (a : A)
  | FStrs (p : list string).
Arguments FText {A} s.
Arguments FStr {A} s.
Arguments FInt {A} n.
Arguments FNum {A} a.
Arguments FStrs {A} p.

(** What one call of [print] writes. *)
Definition line (A : Type) : Type := list (frag A).

(** A computation that prints and may raise: the lines printed so far, in
    order, and how it ended. *)
Definition io (A T : Type) : Type := list (line A) * result T.

#[export] Instance io_ret {A : Type} : MRet (io A) := fun _ v => ([], Ok v).
#[export] Instance io_bind {A : Type} : MBind (io A) := fun _ _ k m =>
  match m.2 with
  | Ok v => (m.1 ++ (k v).1, (k v).2)
  | Raise e => (m.1, Raise e)
  end.

Section Output.
Context {A : Type} `{PyNum A}.

(** A computation that prints nothing. *)
Definition quiet {T : Type} (r : result T) : io A T := ([], r).

Definition print (l : line A) : io A unit := ([l], Ok tt).

Fixpoint for_each_io {S X : Type} (body : S → X → io A S) (st : S) (xs : list X)
  : io A S :=
  match xs with
  | [] => mret st
  | x :: xs' => st' ← body st x; for_each_io body st' xs'
  end.

(** The lines of the source, in the order of their [print] calls. *)
Definition line_validated : line A := [FText ("Input validation passed." +:+ nl)].
Definition line_initialization : line A := [FText "Initialization:"].
Definition line_init (state : string) (v : A) (p : list string) : line A :=
  [FText "State: "; FStr state; FText ", Probability: "; FNum v;
   FText ", Path: "; FStrs p].
Definition line_time_step (t : nat) (o : string) : line A :=
  [FText (nl +:+ "Time step "); FInt t; FText ": Observation = "; FStr o].
Definition line_current (current_state : string) (max_prob : A) (prev_st : string)
    (p : list string) : line A :=
  [FText "Current State: "; FStr current_state; FText ", Max Probability: ";
   FNum max_prob; FText ", Prev State: "; FStr prev_st; FText ", New Path: ";
   FStrs p].
Definition line_final_header : line A :=
  [FText (nl +:+ "Final probabilities at last time step:")].
Definition line_final (state : string) (v : A) : line A :=
  [FText "State: "; FStr state; FText ", Probability: "; FNum v].
Definition line_result (final_state : string) (max_prob : A) : line A :=
  [FText (nl +:+ "Most probable final state: "); FStr final_state;
   FText " with probability "; FNum max_prob].

(** [validate_input] with its last line (lines 95-103). *)
Definition validate_input_io (observations states : pyobj)
    (start_prob : gmap string A) (trans_prob emit_prob : gmap string (gmap string A))
  : io A unit :=
  _ ← quiet (validate_input observations states start_prob trans_prob emit_prob);
  print line_validated.

(** Body of the initialisation loop (lines 33-39): after the two stores,
    the line reads [V[0][state]] and [path[state]] back. *)
Definition init_body_io (obs : list string) (start_prob : gmap string A)
    (emit_prob : gmap string (gmap string A)) (st : trellis) (state : string)
  : io A trellis :=
  st' ← quiet (init_body obs start_prob emit_prob st state);
  V0 ← quiet (seq_get st'.1 0);
  v ← quiet (dict_get V0 state);
  p ← quiet (dict_get st'.2 state);
  _ ← print (line_init state v p);
  mret st'.

(** Body of the loop over [current_state] (lines 48-60). *)
Definition step_body_io (t : nat) (obs states : list string)
    (trans_prob emit_prob : gmap string (gmap string A))
    (path : gmap string (list string)) (st : trellis) (current_state : string)
  : io A trellis :=
  '(max_prob, prev_st) ← quiet (best_prev st.1 t obs states trans_prob emit_prob
                                          current_state);
  Vt ← quiet (seq_get st.1 t);
  p ← quiet (dict_get path prev_st);
  let st' := (<[t := <[current_state := max_prob]> Vt]> st.1,
              <[current_state := p ++ [current_state]]> st.2) in
  np ← quiet (dict_get st'.2 current_state);
  _ ← print (line_current current_state max_prob prev_st np);
  mret st'.

(** Body of the loop over [t] (lines 42-63). *)
Definition time_body_io (obs states : list string)
    (trans_prob emit_prob : gmap string (gmap string A)) (st : trellis) (t : nat)
  : io A trellis :=
  o ← quiet (seq_get obs t);
  _ ← print (line_time_step t o);
  for_each_io (step_body_io t obs states trans_prob emit_prob st.2)
              (st.1 ++ [∅], ∅) states.

(** Body of the loop of lines 69-70. *)
Definition final_body_io (V : list (gmap string A)) (_ : unit) (state : string)
  : io A unit :=
  Vl ← quiet (seq_last V);
  v ← quiet (dict_get Vl state);
  print (line_final state v).

(** Lines 28-75. *)
Definition decode_io (observations states : pyobj)
    (start_prob : gmap string A) (trans_prob emit_prob : gmap string (gmap string A))
  : io A (A * list string) :=
  _ ← print line_initialization;
  sts ← quiet (py_items states);
  obs ← quiet (py_items observations);
  st0 ← for_each_io (init_body_io obs start_prob emit_prob) ([∅], ∅) sts;
  st ← for_each_io (time_body_io obs sts trans_prob emit_prob) st0
                   (seq 1 (length obs - 1));
  '(max_prob, final_state) ← quiet (best_final st.1 sts);
  _ ← print line_final_header;
  _ ← for_each_io (final_body_io st.1) tt sts;
  _ ← print (line_result final_state max_prob);
  p ← quiet (dict_get st.2 final_state);
  mret (max_prob, p).

Definition viterbi_io (observations states : pyobj)
    (start_prob : gmap string A) (trans_prob emit_prob : gmap string (gmap string A))
  : io A (A * list string) :=
  _ ← validate_input_io observations states start_prob trans_prob emit_prob;
  decode_io observations states start_prob trans_prob emit_prob.

End Output.

(** ** Inputs used in the examples *)

(** The example shipped with the module (lines 107-117). *)

Module Example.
Definition observations : pyobj := PyTuple ["walk"; "shop"; "clean"].
Definition states : pyobj := PyTuple ["Rainy"; "Sunny"].
Definition start_prob : gmap string float :=
  <["Rainy" := 0.6%float]> (<["Sunny" := 0.4%float]> ∅).
Definition trans_prob : gmap string (gmap string float) :=
  <["Rainy" := <["Rainy" := 0.7%float]> (<["Sunny" := 0.3%float]> ∅)]>
  (<["Sunny" := <["Rainy" := 0.4%float]> (<["Sunny" := 0.6%float]> ∅)]> ∅).
Definition emit_prob : gmap string (gmap string float) :=
  <["Rainy" := <["walk" := 0.1%float]> (<["shop" := 0.4%float]> (<["clean" := 0.5%float]> ∅))]>
  (<["Sunny" := <["walk" := 0.6%float]> (<["shop" := 0.3%float]> (<["clean" := 0.1%float]> ∅))]> ∅).
End Example.

(** The same model in exact rationals. *)
Module ExactExample.
Definition start_prob : gmap string Qc :=
  <["Rainy" := Q2Qc (6 # 10)]> (<["Sunny" := Q2Qc (4 # 10)]> ∅).
Definition trans_prob : gmap string (gmap string Qc) :=
  <["Rainy" := <["Rainy" := Q2Qc (7 # 10)]> (<["Sunny" := Q2Qc (3 # 10)]> ∅)]>
  (<["Sunny" := <["Rainy" := Q2Qc (4 # 10)]> (<["Sunny" := Q2Qc (6 # 10)]> ∅)]> ∅).
Definition emit_prob : gmap string (gmap string Qc) :=
  <["Rainy" := <["walk" := Q2Qc (1 # 10)]> (<["shop" := Q2Qc (4 # 10)]> (<["clean" := Q2Qc (5 # 10)]> ∅))]>
  (<["Sunny" := <["walk" := Q2Qc (6 # 10)]> (<["shop" := Q2Qc (3 # 10)]> (<["clean" := Q2Qc (1 # 10)]> ∅))]> ∅).
End ExactExample.

(** A model with a negative transition entry: it passes validation, and
    the decoder misses the best sequence. *)
Module Negative.
Definition observations : pyobj := PyTuple ["x"; "x"; "x"].
Definition states : pyobj := PyTuple ["A"; "B"].
Definition start_prob : gmap string float :=
  <["A" := 1%float]> (<["B" := 0%float]> ∅).
Definition trans_prob : gmap string (gmap string float) :=
  <["A" := <["A" := (-1)%float]> (<["B" := 0%float]> ∅)]>
  (<["B" := <["A" := 0%float]> (<["B" := 0%float]> ∅)]> ∅).
Definition emit_prob : gmap string (gmap string float) :=
  <["A" := <["x" := 1%float]> ∅]> (<["B" := <["x" := 1%float]> ∅]> ∅).
End Negative.

(** Two states whose every sequence has the same probability. *)
Module Tie.
Definition observations : pyobj := PyTuple ["walk"; "walk"].
Definition states : pyobj := PyTuple ["Rainy"; "Sunny"].
Definition start_prob : gmap string float :=
  <["Rainy" := 0.5%float]> (<["Sunny" := 0.5%float]> ∅).
Definition trans_prob : gmap string (gmap string float) :=
  <["Rainy" := <["Rainy" := 0.5%float]> (<["Sunny" := 0.5%float]> ∅)]>
  (<["Sunny" := <["Rainy" := 0.5%float]> (<["Sunny" := 0.5%float]> ∅)]> ∅).
Definition emit_prob : gmap string (gmap string float) :=
  <["Rainy" := <["walk" := 0.5%float]> ∅]> (<["Sunny" := <["walk" := 0.5%float]> ∅]> ∅).
End Tie.

(** Non-negative doubles whose product overflows: the start entry of [C]
    times its emission entry is infinite, and infinity times the zero
    transition entry is nan. *)
Module Overflow.
Definition observations : pyobj := PyTuple ["x"; "y"].
Definition states : pyobj := PyTuple ["C"; "B"; "A"].
Definition start_prob : gmap string float :=
  <["A" := 0.5%float]> (<["B" := 0.5%float]> (<["C" := 1e308%float]> ∅)).
Definition row (a : float) : gmap string float :=
  <["A" := a]> (<["B" := a]> (<["C" := a]> ∅)).
Definition trans_prob : gmap string (gmap string float) :=
  <["A" := row 1%float]> (<["B" := row 1%float]> (<["C" := row 0%float]> ∅)).
Definition emit_prob : gmap string (gmap string float) :=
  <["A" := <["x" := 1%float]> (<["y" := 1%float]> ∅)]>
  (<["B" := <["x" := 1%float]> (<["y" := 1%float]> ∅)]>
  (<["C" := <["x" := 10%float]> (<["y" := 1%float]> ∅)]> ∅)).
End Overflow.

(** One state and no observation. *)
Module NoObservation.
Definition observations : pyobj := PyTuple [].
Definition states : pyobj := PyTuple ["Rainy"].
Definition start_prob : gmap string float := <["Rainy" := 1%float]> ∅.
Definition trans_prob : gmap string (gmap string float) :=
  <["Rainy" := <["Rainy" := 1%float]> ∅]> ∅.
Definition emit_prob : gmap string (gmap string float) := <["Rainy" := ∅]> ∅.
End NoObservation.

(** One malformed variant of the shipped example per condition. *)
Module Malformed.
Definition scalar : pyobj := PyInt 3.
Definition start_prob : gmap string float := delete "Sunny" Example.start_prob.
Definition trans_prob : gmap string (gmap string float) :=
  delete "Sunny" Example.trans_prob.
Definition trans_rows : gmap string (gmap string float) :=
  <["Sunny" := <["Rainy" := 0.4%float]> ∅]> Example.trans_prob.
Definition emit_prob : gmap string (gmap string float) :=
  delete "Sunny" Example.emit_prob.
Definition emit_rows : gmap string (gmap string float) :=
  <["Sunny" := <["walk" := 0.6%float]> (<["shop" := 0.3%float]> ∅)]> Example.emit_prob.
End Malformed.

(** The shipped example laid out in a store. *)
Module StoreExample.
Definition observations : loc := 1%positive.
Definition states : loc := 2%positive.
Definition start_prob : loc := 3%positive.
Definition trans_prob : loc := 4%positive.
Definition emit_prob : loc := 5%positive.
Definition row (table : gmap string (gmap string float)) (s : string) : obj float :=
  ONums (default ∅ (table !! s)).
Definition heap : gmap loc (obj float) :=
  list_to_map
    [(observations, OSeq Example.observations);
     (states, OSeq Example.states);
     (start_prob, ONums Example.start_prob);
     (trans_prob, ORefs (<["Rainy" := 6%positive]> (<["Sunny" := 7%positive]> ∅)));
     (emit_prob, ORefs (<["Rainy" := 8%positive]> (<["Sunny" := 9%positive]> ∅)));
     (6%positive, row Example.trans_prob "Rainy");
     (7%positive, row Example.trans_prob "Sunny");
     (8%positive, row Example.emit_prob "Rainy");
     (9%positive, row Example.emit_prob "Sunny")].
End StoreExample.

(** Three observations and no state. *)
Module NoState.
Definition states : pyobj := PyTuple [].
Definition start_prob : gmap string float := ∅.
Definition trans_prob : gmap string (gmap string float) := ∅.
Definition emit_prob : gmap string (gmap string float) := ∅.
End NoState.

(** The script at the end of the file (lines 107-126). *)
Definition script : io float unit :=
  _ ← print [FText ("Running Viterbi algorithm..." +:+ nl)];
  r ← viterbi_io Example.observations Example.states
                 Example.start_prob Example.trans_prob Example.emit_prob;
  _ ← print [FText (nl +:+ "Final Results:")];
  _ ← print [FText "Maximum Probability: "; FNum r.1];
  print [FText "Best Path: "; FStrs r.2].

(** * Specification vocabulary *)

(** ** Ordered numbers

    The order facts of exact arithmetic ([int], [Fraction]): [>] is a
    strict weak order whose incomparability is [==], and multiplying on the
    right by a non-negative number is monotone.  Doubles do not satisfy
    them, nan being incomparable even with itself; what holds of doubles as
    well is stated by [PyNumCmp], [PyNumMono] and [PyNumUnit] below. *)

Class PyNumOrd (A : Type) `{PyNum A} : Type := {
  num_zero : A;
  num_one : A;
  num_gtb_asym : ∀ x y, num_gtb x y = true → num_gtb y x = false;
  num_le_trans : ∀ x y z,
    num_gtb x y = false → num_gtb y z = false → num_gtb x z = false;
  num_eqb_spec : ∀ x y, num_eqb x y = negb (num_gtb x y) && negb (num_gtb y x);
  num_mul_mono : ∀ x y a,
    num_gtb num_zero a = false → num_gtb x y = false →
    num_gtb (num_mul x a) (num_mul y a) = false;
  num_mul_nonneg : ∀ x y,
    num_gtb num_zero x = false → num_gtb num_zero y = false →
    num_gtb num_zero (num_mul x y) = false;
  num_mul_one_l : ∀ a, num_mul num_one a = a;
}.

(** The items of a list or tuple; nothing for a scalar. *)
Definition items_of (o : pyobj) : list string :=
  match o with
  | PyTuple l | PyList l => l
  | PyInt _ => []
  end.

(** [table[r][c]]. *)
Definition table_at {A : Type} (table : gmap string (gmap string A)) (r c : string)
  : option A :=
  row ← table !! r; row !! c.

Section Vocabulary.
Context {A : Type} `{PyNum A}.
Implicit Types (start_prob : gmap string A) (trans_prob emit_prob : gmap string (gmap string A)).

(** [x <= y], as [not (x > y)]. *)
Definition num_le (x y : A) : Prop := num_gtb x y = false.

(** A row of [table], when there is one, has exactly the keys [keys]. *)
Definition row_keys_ok (table : gmap string (gmap string A)) (keys : gset string)
    (s : string) : Prop :=
  match table !! s with
  | Some row => dom row = keys
  | None => True
  end.

#[export] Instance row_keys_ok_dec (table : gmap string (gmap string A))
    (keys : gset string) (s : string) : Decision (row_keys_ok table keys s).
Proof. unfold row_keys_ok. destruct (table !! s); apply _. Defined.

(** Checks 5 and 7: every row of [table] for a state has exactly the keys
    [keys]. *)
Definition rows_have_keys (table : gmap string (gmap string A))
    (states : list string) (keys : gset string) : Prop :=
  Forall (row_keys_ok table keys) states.

#[export] Instance rows_have_keys_dec (table : gmap string (gmap string A))
    (states : list string) (keys : gset string) :
  Decision (rows_have_keys table states keys).
Proof. unfold rows_have_keys. apply _. Defined.

(** The seven conditions of [validate_input], in the order asserted. *)
Definition check_observations (observations : pyobj) : Prop :=
  is_list_or_tuple observations = true.
Definition check_states (states : pyobj) : Prop :=
  is_list_or_tuple states = true.
Definition check_start (states : pyobj) start_prob : Prop :=
  dom start_prob = list_to_set (items_of states).
Definition check_trans (states : pyobj) trans_prob : Prop :=
  dom trans_prob = list_to_set (items_of states).
Definition check_trans_rows (states : pyobj) trans_prob : Prop :=
  rows_have_keys trans_prob (items_of states) (list_to_set (items_of states)).
Definition check_emit (states : pyobj) emit_prob : Prop :=
  dom emit_prob = list_to_set (items_of states).
Definition check_emit_rows (observations states : pyobj) emit_prob : Prop :=
  rows_have_keys emit_prob (items_of states) (list_to_set (items_of observations)).

#[export] Instance check_observations_dec (observations : pyobj) :
  Decision (check_observations observations).
Proof. unfold check_observations. apply _. Defined.
#[export] Instance check_states_dec (states : pyobj) : Decision (check_states states).
Proof. unfold check_states. apply _. Defined.
#[export] Instance check_start_dec (states : pyobj) start_prob :
  Decision (check_start states start_prob).
Proof. unfold check_start. apply _. Defined.
#[export] Instance check_trans_dec (states : pyobj) trans_prob :
  Decision (check_trans states trans_prob).
Proof. unfold check_trans. apply _. Defined.
#[export] Instance check_trans_rows_dec (states : pyobj) trans_prob :
  Decision (check_trans_rows states trans_prob).
Proof. unfold check_trans_rows. apply _. Defined.
#[export] Instance check_emit_dec (states : pyobj) emit_prob :
  Decision (check_emit states emit_prob).
Proof. unfold check_emit. apply _. Defined.
#[export] Instance check_emit_rows_dec (observations states : pyobj) emit_prob :
  Decision (check_emit_rows observations states emit_prob).
Proof. unfold check_emit_rows. apply _. Defined.

(** The seven conditions together. *)
Definition accepted (observations states : pyobj)
    start_prob trans_prob emit_prob : Prop :=
  check_observations observations ∧ check_states states ∧
  check_start states start_prob ∧ check_trans states trans_prob ∧
  check_trans_rows states trans_prob ∧ check_emit states emit_prob ∧
  check_emit_rows observations states emit_prob.

#[export] Instance accepted_dec (observations states : pyobj)
    start_prob trans_prob emit_prob :
  Decision (accepted observations states start_prob trans_prob emit_prob).
Proof. unfold accepted. apply _. Defined.

(** Every entry the decoder reads exists. *)
Definition tables_defined (obs sts : list string)
    start_prob trans_prob emit_prob : Prop :=
  (∀ s, s ∈ sts → is_Some (start_prob !! s)) ∧
  (∀ p c, p ∈ sts → c ∈ sts → is_Some (table_at trans_prob p c)) ∧
  (∀ s o, s ∈ sts → o ∈ obs → is_Some (table_at emit_prob s o)).

(** Layer [t]: each state has a probability and a path related by [I]. *)
Definition layer (sts : list string) (I : nat → string → A → list string → Prop)
    (t : nat) (row : gmap string A) (pm : gmap string (list string)) : Prop :=
  ∀ s, s ∈ sts → ∃ v p, row !! s = Some v ∧ pm !! s = Some p ∧ I t s v p.

(** The items of the generator of lines 50-53 over the layer [row]. *)
Definition candidates (sts : list string) trans_prob emit_prob
    (row : gmap string A) (o c : string) (items : list (A * string)) : Prop :=
  Forall2 (λ p item, ∃ v a b,
             row !! p = Some v ∧ table_at trans_prob p c = Some a ∧
             table_at emit_prob c o = Some b ∧
             item = (num_mul (num_mul v a) b, p)) sts items.

(** The items of the generator of line 66. *)
Definition finalists (sts : list string) (row : gmap string A)
    (items : list (A * string)) : Prop :=
  Forall2 (λ s item, ∃ v, row !! s = Some v ∧ item = (v, s)) sts items.

(** The state sequences of length [n] over [sts]. *)
Definition state_seqs (sts : list string) (n : nat) (q : list string) : Prop :=
  length q = n ∧ Forall (λ s, s ∈ sts) q.

(** The states listed from the greatest label down. *)
Definition decreasing_labels (sts : list string) : Prop :=
  StronglySorted (λ a b, str_gtb a b = true) sts.

#[export] Instance decreasing_labels_dec (sts : list string) :
  Decision (decreasing_labels sts).
Proof. unfold decreasing_labels. apply _. Defined.

End Vocabulary.

(** ** The probability of a state sequence *)

Section SeqProb.
Context {A : Type} `{PyNum A}.
Variables (start_prob : gmap string A) (trans_prob emit_prob : gmap string (gmap string A)).

(** The factors [trans_prob[s(t-1)][s(t)] * emit_prob[s(t)][o(t)]] for
    [t > 0], multiplied onto [acc] from left to right. *)
Fixpoint chain_prob (acc : A) (prev : string) (path obs : list string) : option A :=
  match path, obs with
  | [], [] => Some acc
  | s :: path', o :: obs' =>
      a ← table_at trans_prob prev s;
      b ← table_at emit_prob s o;
      chain_prob (num_mul (num_mul acc a) b) s path' obs'
  | _, _ => None
  end.

(** [start_prob[s0] * emit_prob[s0][o0] * ...]; undefined when the two
    sequences differ in length, are empty, or leave the tables. *)
Definition seq_prob (path obs : list string) : option A :=
  match path, obs with
  | s0 :: path', o0 :: obs' =>
      a ← start_prob !! s0;
      b ← table_at emit_prob s0 o0;
      chain_prob (num_mul a b) s0 path' obs'
  | _, _ => None
  end.

(** At step [t] the entry of state [s] is the probability of its stored
    path, and no sequence of [t+1] states ending in [s] does better. *)
Definition best_at (obs sts : list string) (t : nat) (s : string) (v : A)
    (p : list string) : Prop :=
  state_seqs sts (S t) p ∧ last p = Some s ∧
  seq_prob p (take (S t) obs) = Some v ∧
  ∀ q, state_seqs sts (S t) q → last q = Some s →
       ∃ w, seq_prob q (take (S t) obs) = Some w ∧ num_le w v.

(** The recurrence of lines 35 and 50-53, as a relation: at step [t] the
    entry of state [s] is [v] and its stored path is [p].  It mentions the
    states only through membership. *)
Fixpoint trellis_entry (obs sts : list string) (t : nat) (s : string) (v : A)
    (p : list string) : Prop :=
  match t with
  | 0 =>
      s ∈ sts ∧
      ∃ o a b, obs !! 0 = Some o ∧ start_prob !! s = Some a ∧
               table_at emit_prob s o = Some b ∧
               v = num_mul a b ∧ p = [s]
  | S t' =>
      s ∈ sts ∧
      ∃ o prev v0 p0 a b,
        obs !! S t' = Some o ∧ prev ∈ sts ∧ trellis_entry obs sts t' prev v0 p0 ∧
        table_at trans_prob prev s = Some a ∧ table_at emit_prob s o = Some b ∧
        v = num_mul (num_mul v0 a) b ∧ p = p0 ++ [s] ∧
        ∀ p' v' q' a',
          p' ∈ sts → trellis_entry obs sts t' p' v' q' →
          table_at trans_prob p' s = Some a' →
          pair_gtb (num_mul (num_mul v' a') b, p') (v, prev) = false
  end.

End SeqProb.

(** ** Doubles

    Python's [float] is the primitive [float] of Rocq, whose operations the
    Standard Library specifies by those of [SpecFloat] on binary64 with
    rounding to nearest, ties to even.  To reason about order and products
    a double is read as an integer number of units of [2^-1074], the least
    positive double. *)

Section FloatValue.
Local Open Scope Z_scope.

(** A non-negative finite double counted in units of [2^-1074], the least
    positive double. *)
Definition fval (f : spec_float) : Z :=
  match f with
  | S754_finite false m e => Zpos m * 2 ^ (e + 1074)
  | _ => 0
  end.

(** Zero of either sign or a positive finite double. *)
Definition fnonneg (f : spec_float) : Prop :=
  match f with
  | S754_zero _ | S754_finite false _ _ => True
  | _ => False
  end.

(** [w / 2^k] rounded to the nearest integer, ties to even. *)
Definition rne (w k : Z) : Z :=
  w / 2 ^ k
  + (if (2 ^ (k - 1) <? w mod 2 ^ k)
        || ((w mod 2 ^ k =? 2 ^ (k - 1)) && Z.odd (w / 2 ^ k))
     then 1 else 0).

(** The binary64 rounding of [w * 2^-2148], in units of [2^-1074]: 53
    significant bits, and no bit below [2^-1074]. *)
Definition round64 (w : Z) : Z :=
  let k := Z.max (Z.log2 w + 1 - 53) 1074 in
  rne w k * 2 ^ (k - 1074).

(** A double other than nan on one integer scale: finite doubles in units
    of [2^-1074], the infinities beyond every finite one. *)
Definition fkey (f : spec_float) : Z :=
  match f with
  | S754_zero _ | S754_nan => 0
  | S754_infinity s => if s then - 2 ^ 3200 else 2 ^ 3200
  | S754_finite s m e =>
      if s then - (Zpos m * 2 ^ (e + 1074)) else Zpos m * 2 ^ (e + 1074)
  end.

(** The value of a product on that scale: the rounding of the exact
    product, or the place of an infinity when the rounding reaches
    [2^1024]. *)
Definition sat (v : Z) : Z := if v <? 2 ^ 2098 then v else 2 ^ 3200.
Definition mul_key (a b : Z) : Z :=
  Z.sgn (a * b) * sat (round64 (Z.abs (a * b))).

(** A zero or a finite double. *)
Definition ffinite (f : spec_float) : Prop :=
  match f with S754_zero _ | S754_finite _ _ _ => True | _ => False end.

(** Any double but nan. *)
Definition fnum (f : spec_float) : Prop :=
  match f with S754_nan => False | _ => True end.

End FloatValue.

(** [x == x] on a Python [float]: [x] is not nan. *)
Definition float_num (x : float) : Prop := PrimFloat.eqb x x = true.

(** The place of [x] on the integer scale of [fkey]. *)
Definition float_key (x : float) : Z := fkey (Prim2SF x).

(** [0 ≤ x ≤ 1] on a Python [float]. *)
Definition unit_float (x : float) : bool :=
  PrimFloat.leb 0%float x && PrimFloat.leb x 1%float.

(** ** Less than or equal *)

Section Comparison.
Context {A : Type} `{PyNum A}.

(** [x <= y]: [y > x or x == y]. *)
Definition num_leq (x y : A) : Prop := num_gtb y x = true ∨ num_eqb x y = true.

(** [lo <= a <= hi]. *)
Definition within (lo hi a : A) : Prop := num_leq lo a ∧ num_leq a hi.

#[export] Instance num_leq_dec (x y : A) : Decision (num_leq x y).
Proof. unfold num_leq. apply _. Defined.
#[export] Instance within_dec (lo hi a : A) : Decision (within lo hi a).
Proof. unfold within. apply _. Defined.

End Comparison.

(** ** Numbers that can be compared

    [max] decides between two candidates with [==] and [>].  On exact
    numbers these form a total order; on doubles they do so away from
    nan, which is neither equal to, greater than nor less than anything,
    itself included. *)

Class PyNumCmp (A : Type) `{PyNum A} : Type := {
  (** [x == x] *)
  comparable : A → bool;
  cmp_gtb_asym : ∀ x y,
    comparable x = true → comparable y = true →
    num_gtb x y = true → num_gtb y x = false;
  cmp_le_trans : ∀ x y z,
    comparable x = true → comparable y = true → comparable z = true →
    num_gtb x y = false → num_gtb y z = false → num_gtb x z = false;
  cmp_eqb_spec : ∀ x y,
    comparable x = true → comparable y = true →
    num_eqb x y = negb (num_gtb x y) && negb (num_gtb y x);
}.

(** ** Numbers whose products keep the order

    Multiplying on the right by a non-negative number is monotone as long
    as the products can be compared, and a product that can be compared
    has factors that can. *)

Class PyNumMono (A : Type) `{PyNumCmp A} : Type := {
  (** [0] *)
  mono_zero : A;
  mul_comparable : ∀ x a,
    comparable (num_mul x a) = true → comparable x = true ∧ comparable a = true;
  mul_mono : ∀ x y a,
    comparable (num_mul x a) = true → comparable (num_mul y a) = true →
    num_leq mono_zero a → num_gtb x y = false →
    num_gtb (num_mul x a) (num_mul y a) = false;
}.

(** ** Numbers with a unit interval

    [0] and [1], and the fact that the product of two numbers of [[0, 1]]
    is a number of [[0, 1]]. *)

Class PyNumUnit (A : Type) `{PyNum A} : Type := {
  unit_zero : A;
  unit_one : A;
  unit_mul_closed : ∀ a b,
    within unit_zero unit_one a → within unit_zero unit_one b →
    within unit_zero unit_one (num_mul a b);
}.

(** ** Conditions on every entry *)

Section Ranges.
Context {A : Type} `{PyNum A}.

(** Every entry of a dict, and of a two-level table, satisfies [P]. *)
Definition dict_all (P : A → Prop) (d : gmap string A) : Prop :=
  map_Forall (λ _ a, P a) d.
Definition table_all (P : A → Prop) (table : gmap string (gmap string A)) : Prop :=
  map_Forall (λ _ row, dict_all P row) table.

#[export] Instance dict_all_dec (P : A → Prop) `{∀ a, Decision (P a)} d :
  Decision (dict_all P d).
Proof. unfold dict_all. apply _. Defined.
#[export] Instance table_all_dec (P : A → Prop) `{∀ a, Decision (P a)} table :
  Decision (table_all P table).
Proof. unfold table_all. apply _. Defined.

End Ranges.

(** [0 <= a <= 1]. *)
Definition in_unit {A : Type} `{PyNumUnit A} (a : A) : Prop :=
  within unit_zero unit_one a.

#[export] Instance in_unit_dec {A : Type} `{PyNumUnit A} (a : A) : Decision (in_unit a).
Proof. unfold in_unit. apply _. Defined.

(** ** Ties *)

Section TieVocabulary.
Context {A : Type} `{PyNum A}.
Variables (start_prob : gmap string A) (trans_prob emit_prob : gmap string (gmap string A)).

(** Between two candidates of equal value, [chosen] is taken rather than
    [other]: by label, and by position in the state sequence. *)
Definition prefers_label (chosen other : string) : Prop :=
  str_gtb other chosen = false.
Definition prefers_earlier (sts : list string) (chosen other : string) : Prop :=
  ∃ i : nat, sts !! i = Some chosen ∧ ∀ j : nat, sts !! j = Some other → (i ≤ j)%nat.

(** The recurrence of lines 35 and 50-53 with its rule for ties spelled
    out: at step [t] the entry of state [s] is [v] with stored path [p];
    for [t > 0] it comes from the previous state [prev], no previous state
    gives a greater product, and [prev] is preferred to every previous
    state that gives an equal one. *)
Fixpoint tie_entry (pref : string → string → Prop) (obs sts : list string)
    (t : nat) (s : string) (v : A) (p : list string) : Prop :=
  match t with
  | 0 =>
      s ∈ sts ∧
      ∃ o a b, obs !! 0 = Some o ∧ start_prob !! s = Some a ∧
               table_at emit_prob s o = Some b ∧
               v = num_mul a b ∧ p = [s]
  | S t' =>
      s ∈ sts ∧
      ∃ o prev v0 p0 a b,
        obs !! S t' = Some o ∧ prev ∈ sts ∧ tie_entry pref obs sts t' prev v0 p0 ∧
        table_at trans_prob prev s = Some a ∧ table_at emit_prob s o = Some b ∧
        v = num_mul (num_mul v0 a) b ∧ p = p0 ++ [s] ∧
        ∀ p' v' q' a',
          p' ∈ sts → tie_entry pref obs sts t' p' v' q' →
          table_at trans_prob p' s = Some a' →
          num_le (num_mul (num_mul v' a') b) v ∧
          (num_eqb (num_mul (num_mul v' a') b) v = true → pref prev p')
  end.

(** The state selected at line 66: no entry of the last step is greater
    than that of [final_state], and [final_state] is preferred to every
    state with an equal entry. *)
Definition tie_final (pref : string → string → Prop) (obs sts : list string)
    (final_state : string) (max_prob : A) : Prop :=
  ∀ s v q, tie_entry pref obs sts (length obs - 1) s v q →
    num_le v max_prob ∧ (num_eqb v max_prob = true → pref final_state s).

End TieVocabulary.

(** ** Products that can be compared *)

Section ProductVocabulary.
Context {A : Type} `{PyNumCmp A}.

(** Every product formed along a state sequence, over any number of
    observations from the first on, can be compared: on doubles, none is
    nan. *)
Definition products_comparable (start_prob : gmap string A)
    (trans_prob emit_prob : gmap string (gmap string A))
    (obs sts : list string) : Prop :=
  ∀ n q w, state_seqs sts n q →
    seq_prob start_prob trans_prob emit_prob q (take n obs) = Some w →
    comparable w = true.

End ProductVocabulary.

(** What a call may change in the store. *)

Section FrameVocabulary.
Context {A : Type}.
Variable h0 : gmap loc (obj A).

(** [l] was allocated after the call began. *)
Definition new_loc (l : loc) : Prop := l ∉ dom h0.

(** Every object of the initial store is still there, unchanged. *)
Definition frame (h : gmap loc (obj A)) : Prop :=
  ∀ l, l ∈ dom h0 → h !! l = h0 !! l.

(** A list of references allocated by the call refers to objects allocated
    by the call. *)
Definition rows_new (o : obj A) : Prop :=
  match o with
  | ORows rows => Forall new_loc rows
  | _ => True
  end.

Definition inv (h : gmap loc (obj A)) : Prop :=
  frame h ∧ ∀ l o, new_loc l → h !! l = Some o → rows_new o.

(** [m] keeps the invariant, and a value it returns satisfies [Q]. *)
Definition keeps {T : Type} (m : prog A T) (Q : T → Prop) : Prop :=
  ∀ h, inv h → inv (m h).2 ∧ ∀ v, (m h).1 = Ok v → Q v.

End FrameVocabulary.

(** ** The store model against the value model *)

Section RefinementVocabulary.
Context {A : Type} `{PyNum A}.
Implicit Types (h hh : gmap loc (obj A)).

(** The store program [m], run from [hh], and the value program [r] end
    alike: both raise the same exception, or both return and [Q] relates
    the two values and the final store. *)
Definition sim {T T' : Type} (m : prog A T) (r : result T')
    (hh : gmap loc (obj A)) (Q : T → T' → gmap loc (obj A) → Prop) : Prop :=
  match m hh, r with
  | (Ok v, hh'), Ok v' => Q v v' hh'
  | (Raise e, _), Raise e' => e = e'
  | _, _ => False
  end.

(** Both return the same value and the store is as before. *)
Definition same {T : Type} (hh : gmap loc (obj A)) : T → T → gmap loc (obj A) → Prop :=
  λ v v' hh', v = v' ∧ hh' = hh.

(** The dict of references [d] stands for the table [t]. *)
Definition rows_of hh (d : gmap string loc) (t : gmap string (gmap string A)) : Prop :=
  ∀ k, match d !! k with
       | Some l => ∃ row, hh !! l = Some (ONums row) ∧ t !! k = Some row
       | None => t !! k = None
       end.

Definition table_in hh (l : loc) (t : gmap string (gmap string A)) : Prop :=
  ∃ d, hh !! l = Some (ORefs d) ∧ rows_of hh d t.

(** The dict of references [d] stands for the path table [pm]. *)
Definition paths_of hh (d : gmap string loc) (pm : gmap string (list string)) : Prop :=
  ∀ k, match d !! k with
       | Some l => ∃ p, hh !! l = Some (OSeq (PyList p)) ∧ pm !! k = Some p
       | None => pm !! k = None
       end.

(** The five arguments of the call. *)
Definition inputs_in hh (lo ls lsp ltp lep : loc) (o s : pyobj)
    (sp : gmap string A) (tp ep : gmap string (gmap string A)) : Prop :=
  hh !! lo = Some (OSeq o) ∧ hh !! ls = Some (OSeq s) ∧
  hh !! lsp = Some (ONums sp) ∧ table_in hh ltp tp ∧ table_in hh lep ep.

(** [hh'] keeps every object of [hh]. *)
Definition extends hh hh' : Prop := ∀ l x, hh !! l = Some x → hh' !! l = Some x.

(** The list of references [rows] stands for the trellis [V]. *)
Definition rows_in hh (rows : list loc) (V : list (gmap string A)) : Prop :=
  Forall2 (λ l row, hh !! l = Some (ONums row)) rows V.

(** The objects [lV] and [lp], allocated by the call, stand for the
    trellis [V] and the path table of the value model. *)
Definition local_in h (lV lp : loc) hh (st : trellis) : Prop :=
  frame h hh ∧ (lV ∉ dom h) ∧ (lp ∉ dom h) ∧
  ∃ rows d,
    hh !! lV = Some (ORows rows) ∧ Forall (λ l, l ∉ dom h) rows ∧ NoDup rows ∧
    rows_in hh rows st.1 ∧
    hh !! lp = Some (ORefs d) ∧ paths_of hh d st.2.

(** [hh'] keeps every object of [hh] except, possibly, the one at [w]. *)
Definition extends_off (w : loc) hh hh' : Prop :=
  ∀ l x, l ≠ w → hh !! l = Some x → hh' !! l = Some x.

(** Inside the loop over [current_state]: the new tables are being
    filled and the path table of the step before is still there. *)
Definition inner_in h (lV lnp lpath : loc) (pm_old : gmap string (list string))
    hh (st : trellis) : Prop :=
  local_in h lV lnp hh st ∧ lpath ≠ lnp ∧
  ∃ d_old, hh !! lpath = Some (ORefs d_old) ∧ paths_of hh d_old pm_old.

End RefinementVocabulary.

(** ** Results and outcomes *)

Section PathVocabulary.
Context {A : Type} `{PyNum A}.
Variables (start_prob : gmap string A) (trans_prob emit_prob : gmap string (gmap string A)).

(** At step [t] the entry of state [s] is the probability of its stored
    path, a sequence of [t+1] states ending in [s]. *)
Definition path_at (obs sts : list string) (t : nat) (s : string) (v : A)
    (p : list string) : Prop :=
  state_seqs sts (S t) p ∧ last p = Some s ∧
  seq_prob start_prob trans_prob emit_prob p (take (S t) obs) = Some v.

End PathVocabulary.

(** The messages of the seven assertions. *)
Definition validation_messages : list string :=
  [msg_observations; msg_states; msg_start; msg_trans; msg_trans_rows;
   msg_emit; msg_emit_rows].

(** ** Console output *)

Section OutputVocabulary.
Context {A : Type} `{PyNum A}.

(** The headers of the time steps [t], [t+1], ... for the observations
    [obs]. *)
Fixpoint time_headers (t : nat) (obs : list string) : list (line A) :=
  match obs with
  | [] => []
  | o :: obs' => line_time_step t o :: time_headers (S t) obs'
  end.

End OutputVocabulary.

(** ** Objects created by the call *)

Section FreshVocabulary.
Context {A : Type}.

(** The dict of references at [lp] refers only to objects that the call
    has allocated. *)
Definition refs_new (h : gmap loc (obj A)) (lp : loc) (hh : gmap loc (obj A)) : Prop :=
  ∃ d, hh !! lp = Some (ORefs d) ∧ map_Forall (λ _ l, l ∉ dom h) d.

End FreshVocabulary.

(** * Properties *)

(** ** Exact numbers are ordered numbers *)

#[export] Program Instance Z_PyNumOrd : PyNumOrd Z := {|
  num_zero := 0%Z;
  num_one := 1%Z;
|}.
Next Obligation. simpl. intros x y. rewrite !Z.gtb_ltb, Z.ltb_lt, Z.ltb_ge. lia. Qed.
Next Obligation. simpl. intros x y z. rewrite !Z.gtb_ltb, !Z.ltb_ge. lia. Qed.
Next Obligation.
  simpl. intros x y. rewrite !Z.gtb_ltb.
  destruct (Z.eqb_spec x y), (Z.ltb_spec y x), (Z.ltb_spec x y); simpl; lia.
Qed.
Next Obligation. simpl. intros x y a. rewrite !Z.gtb_ltb, !Z.ltb_ge. nia. Qed.
Next Obligation. simpl. intros x y. rewrite !Z.gtb_ltb, !Z.ltb_ge. nia. Qed.
Next Obligation. simpl. intros a. lia. Qed.

Lemma Qc_gtb_true (x y : Qc) : num_gtb x y = true ↔ (y < x)%Qc.
Proof.
  simpl. rewrite (Qcgt_alt x y). destruct (x ?= y)%Qc; intuition congruence.
Qed.

Lemma Qc_gtb_false (x y : Qc) : num_gtb x y = false ↔ (x <= y)%Qc.
Proof.
  simpl. rewrite (Qcle_alt x y). destruct (x ?= y)%Qc; intuition congruence.
Qed.

#[export] Program Instance Qc_PyNumOrd : PyNumOrd Qc := {|
  num_zero := 0%Qc;
  num_one := 1%Qc;
|}.
Next Obligation.
  intros x y Hxy. apply Qc_gtb_true in Hxy. apply Qc_gtb_false.
  by apply Qclt_le_weak.
Qed.
Next Obligation.
  intros x y z. rewrite !Qc_gtb_false. apply Qcle_trans.
Qed.
Next Obligation.
  intros x y. simpl. unfold Qccompare.
  rewrite <- (Qcompare_antisym x y). by destruct (x ?= y)%Q.
Qed.
Next Obligation.
  intros x y a. rewrite !Qc_gtb_false. intros Ha Hxy. by apply Qcmult_le_compat_r.
Qed.
Next Obligation.
  intros x y. rewrite !Qc_gtb_false. intros Hx Hy.
  rewrite <- (Qcmult_0_l y). by apply Qcmult_le_compat_r.
Qed.
Next Obligation. intros a. apply Qcmult_1_l. Qed.

(** ** The order on state labels *)

Lemma str_gtb_lt (s1 s2 : string) :
  str_gtb s1 s2 = true ↔ String_as_OT.lt s2 s1.
Proof.
  unfold str_gtb, String.ltb. rewrite <- String_as_OT.cmp_lt.
  unfold String_as_OT.cmp. destruct (String.compare s2 s1); intuition congruence.
Qed.

Lemma str_gtb_irrefl (s : string) : str_gtb s s = false.
Proof.
  destruct (str_gtb s s) eqn:E; [|done].
  apply str_gtb_lt in E. by destruct (String_as_OT.lt_not_eq _ _ E).
Qed.

Lemma str_gtb_trans (a b c : string) :
  str_gtb a b = true → str_gtb b c = true → str_gtb a c = true.
Proof.
  rewrite !str_gtb_lt. intros Hab Hbc. by eapply String_as_OT.lt_trans.
Qed.

Lemma str_gtb_total (a b : string) :
  a ≠ b → str_gtb a b = true ∨ str_gtb b a = true.
Proof.
  intros Hne. unfold str_gtb, String.ltb.
  rewrite (String.compare_antisym a b).
  destruct (String.compare b a) eqn:E; simpl; auto.
  apply String.compare_eq_iff in E. congruence.
Qed.

Lemma str_gtb_asym (a b : string) : str_gtb a b = true → str_gtb b a = false.
Proof.
  intros Hab. destruct (str_gtb b a) eqn:E; [|done].
  pose proof (str_gtb_trans _ _ _ Hab E) as Haa.
  by rewrite str_gtb_irrefl in Haa.
Qed.

Lemma str_le_trans (a b c : string) :
  str_gtb a b = false → str_gtb b c = false → str_gtb a c = false.
Proof.
  intros Hab Hbc. destruct (str_gtb a c) eqn:E; [|done].
  destruct (decide (a = b)) as [->|Hne1]; [congruence|].
  destruct (decide (b = c)) as [->|Hne2]; [congruence|].
  destruct (str_gtb_total _ _ Hne1) as [?|Hba]; [congruence|].
  destruct (str_gtb_total _ _ Hne2) as [?|Hcb]; [congruence|].
  pose proof (str_gtb_trans _ _ _ Hcb Hba) as Hca.
  apply str_gtb_asym in Hca. congruence.
Qed.

Lemma str_le_antisym (a b : string) :
  str_gtb a b = false → str_gtb b a = false → a = b.
Proof.
  intros Hab Hba. destruct (decide (a = b)) as [|Hne]; [done|].
  destruct (str_gtb_total _ _ Hne); congruence.
Qed.

(** ** The order on numbers and on (probability, state) pairs *)

Section Order.
Context {A : Type} `{PyNumOrd A}.

Lemma num_le_refl (x : A) : num_le x x.
Proof.
  unfold num_le. destruct (num_gtb x x) eqn:E; [|done].
  pose proof (num_gtb_asym _ _ E). congruence.
Qed.

Lemma num_le_total (x y : A) : num_le x y ∨ num_le y x.
Proof.
  unfold num_le. destruct (num_gtb x y) eqn:E; [|by left].
  right. by apply num_gtb_asym.
Qed.

Lemma num_gtb_trans (x y z : A) :
  num_gtb x y = true → num_gtb y z = true → num_gtb x z = true.
Proof.
  intros Hxy Hyz. destruct (num_gtb x z) eqn:E; [done|].
  apply num_gtb_asym in Hyz.
  pose proof (num_le_trans _ _ _ E Hyz). congruence.
Qed.

Lemma num_eqb_true (x y : A) :
  num_eqb x y = true ↔ num_le x y ∧ num_le y x.
Proof.
  unfold num_le. rewrite num_eqb_spec.
  destruct (num_gtb x y), (num_gtb y x); simpl; intuition congruence.
Qed.

Lemma pair_gtb_true (x y : A * string) :
  pair_gtb x y = true ↔
  num_gtb x.1 y.1 = true ∨
  (num_le x.1 y.1 ∧ num_le y.1 x.1 ∧ str_gtb x.2 y.2 = true).
Proof.
  unfold pair_gtb, num_le. rewrite num_eqb_spec.
  destruct (num_gtb x.1 y.1) eqn:E1, (num_gtb y.1 x.1) eqn:E2; simpl.
  - pose proof (num_gtb_asym _ _ E1). congruence.
  - intuition congruence.
  - intuition congruence.
  - destruct (String.eqb_spec x.2 y.2) as [->|Hne]; simpl.
    + rewrite str_gtb_irrefl. intuition congruence.
    + intuition congruence.
Qed.

Lemma pair_gtb_false (x y : A * string) :
  pair_gtb x y = false ↔
  num_le x.1 y.1 ∧ (num_le y.1 x.1 → str_gtb x.2 y.2 = false).
Proof.
  destruct (pair_gtb x y) eqn:E.
  - apply pair_gtb_true in E. unfold num_le in *.
    split; [done|]. intros [H1 H2]. destruct E as [E|(_ & E2 & E3)].
    + congruence.
    + specialize (H2 E2). congruence.
  - split; [intros _|done].
    destruct (num_gtb x.1 y.1) eqn:E1.
    { assert (pair_gtb x y = true) by (apply pair_gtb_true; auto). congruence. }
    split; [done|]. intros E2.
    destruct (str_gtb x.2 y.2) eqn:E3; [|done].
    assert (pair_gtb x y = true) by (apply pair_gtb_true; auto). congruence.
Qed.

Lemma pair_gtb_trans (x y z : A * string) :
  pair_gtb x y = true → pair_gtb y z = true → pair_gtb x z = true.
Proof.
  rewrite !pair_gtb_true. unfold num_le.
  intros [Hxy|(Hxy1 & Hxy2 & Hs1)] [Hyz|(Hyz1 & Hyz2 & Hs2)].
  - left. by eapply num_gtb_trans.
  - left. destruct (num_gtb x.1 z.1) eqn:E; [done|].
    pose proof (num_le_trans _ _ _ E Hyz2). congruence.
  - left. destruct (num_gtb x.1 z.1) eqn:E; [done|].
    pose proof (num_le_trans _ _ _ Hxy2 E). congruence.
  - right. split_and!; [by eapply num_le_trans..|by eapply str_gtb_trans].
Qed.

Lemma pair_le_trans (x y z : A * string) :
  pair_gtb x y = false → pair_gtb y z = false → pair_gtb x z = false.
Proof.
  rewrite !pair_gtb_false. unfold num_le.
  intros [Hxy Hs1] [Hyz Hs2]. split; [by eapply num_le_trans|].
  intros Hzx.
  pose proof (num_le_trans _ _ _ Hzx Hxy) as Hzy.
  pose proof (num_le_trans _ _ _ Hyz Hzx) as Hyx.
  eapply str_le_trans; eauto.
Qed.

(** [max_loop] returns one of the items, and no item is greater. *)
Lemma max_loop_spec (items : list (A * string)) (best : A * string) :
  max_loop best items ∈ best :: items ∧
  ∀ x, x ∈ best :: items → pair_gtb x (max_loop best items) = false.
Proof.
  revert best. induction items as [|y items IH]; intros best; simpl.
  - split; [set_solver|]. intros x Hx. apply list_elem_of_singleton in Hx as ->.
    apply pair_gtb_false. split; [apply num_le_refl|]. intros _. apply str_gtb_irrefl.
  - destruct (IH (if pair_gtb y best then y else best)) as [Hin Hmax].
    split.
    { destruct (pair_gtb y best); set_solver. }
    intros x Hx.
    destruct (pair_gtb y best) eqn:E.
    + apply elem_of_cons in Hx as [->|Hx]; [|by apply Hmax].
      destruct (pair_gtb best (max_loop y items)) eqn:E2; [|done].
      pose proof (pair_gtb_trans _ _ _ E E2) as E3.
      rewrite Hmax in E3 by set_solver. done.
    + apply elem_of_cons in Hx as [->|Hx]; [apply Hmax; set_solver|].
      apply elem_of_cons in Hx as [->|Hx]; [|apply Hmax; set_solver].
      eapply pair_le_trans; [exact E|]. apply Hmax. set_solver.
Qed.

End Order.

(** ** Loops and generators *)

Lemma bind_Ok {S T : Type} (m : result S) (k : S → result T) (v : T) :
  m ≫= k = Ok v ↔ ∃ x, m = Ok x ∧ k x = Ok v.
Proof.
  destruct m as [x|e]; simpl; split.
  - eauto.
  - by intros (? & [= ->] & ?).
  - done.
  - by intros (? & ? & _).
Qed.

Lemma dict_get_Some {T : Type} (d : gmap string T) (k : string) (v : T) :
  d !! k = Some v → dict_get d k = Ok v.
Proof. unfold dict_get. by intros ->. Qed.

Lemma seq_get_Some {T : Type} (l : list T) (i : nat) (v : T) :
  l !! i = Some v → seq_get l i = Ok v.
Proof. unfold seq_get. by intros ->. Qed.

Lemma seq_last_snoc {T : Type} (l : list T) (x : T) : seq_last (l ++ [x]) = Ok x.
Proof.
  unfold seq_last. apply seq_get_Some.
  rewrite length_app, lookup_app_r by (simpl; lia).
  simpl. by replace (length l + 1 - 1 - length l) with 0 by lia.
Qed.

(** A generator whose items all evaluate yields them in order. *)
Lemma gen_list_Forall2 {X Y : Type} (f : X → result Y) (R : X → Y → Prop)
    (xs : list X) :
  (∀ x, x ∈ xs → ∃ y, f x = Ok y ∧ R x y) →
  ∃ ys, gen_list f xs = Ok ys ∧ Forall2 R xs ys.
Proof.
  induction xs as [|x xs IH]; intros Hf; simpl.
  - exists []. by split; [|constructor].
  - destruct (Hf x) as (y & -> & Hy); [set_solver|].
    destruct IH as (ys & -> & Hys); [intros; apply Hf; set_solver|].
    simpl. exists (y :: ys). by split; [|constructor].
Qed.

Lemma py_max_Ok {A : Type} `{PyNum A} (items : list (A * string)) :
  items ≠ [] → ∃ r, py_max items = Ok r.
Proof. destruct items; [done|]. simpl. eauto. Qed.

(** ** Validation *)

Lemma py_items_sequence (o : pyobj) :
  is_list_or_tuple o = true → py_items o = Ok (items_of o).
Proof. by destruct o. Qed.

Lemma py_set_sequence (o : pyobj) :
  is_list_or_tuple o = true → py_set o = Ok (list_to_set (items_of o)).
Proof. by destruct o. Qed.

Section Validation.
Context {A : Type} `{PyNum A}.
Implicit Types (start_prob : gmap string A) (trans_prob emit_prob : gmap string (gmap string A)).

Lemma rows_have_keys_spec (table : gmap string (gmap string A))
    (states : list string) (keys : gset string) :
  rows_have_keys table states keys ↔
  ∀ s row, s ∈ states → table !! s = Some row → dom row = keys.
Proof.
  unfold rows_have_keys, row_keys_ok. rewrite Forall_forall. split.
  - intros Hall s row Hs Hrow. specialize (Hall s Hs). by rewrite Hrow in Hall.
  - intros Hall s Hs. destruct (table !! s) as [row|] eqn:E; [|done]. by eapply Hall.
Qed.

Lemma rows_match_cons (table : gmap string (gmap string A)) (keys : pyobj)
    (s : string) (states : list string) (row : gmap string A) :
  is_list_or_tuple keys = true → table !! s = Some row →
  rows_match table keys (s :: states) =
  if bool_decide (dom row = list_to_set (items_of keys))
  then rows_match table keys states else Ok false.
Proof.
  intros Hk Hrow. unfold rows_match. cbn [py_all].
  rewrite (dict_get_Some _ _ _ Hrow), (py_set_sequence _ Hk). reflexivity.
Qed.

Lemma rows_match_spec (table : gmap string (gmap string A)) (keys : pyobj)
    (states : list string) :
  is_list_or_tuple keys = true →
  (∀ s, s ∈ states → is_Some (table !! s)) →
  ∃ b, rows_match table keys states = Ok b ∧
       (b = true ↔ rows_have_keys table states (list_to_set (items_of keys))).
Proof.
  intros Hk. unfold rows_have_keys.
  induction states as [|s states IH]; intros Hdef.
  - exists true. split; [done|]. split; [|done]. intros _. constructor.
  - destruct (Hdef s) as [row Hrow]; [set_solver|].
    rewrite (rows_match_cons _ _ _ _ _ Hk Hrow).
    assert (Forall (row_keys_ok table (list_to_set (items_of keys))) (s :: states) ↔
            dom row = list_to_set (items_of keys) ∧
            Forall (row_keys_ok table (list_to_set (items_of keys))) states) as Hcons.
    { rewrite Forall_cons. unfold row_keys_ok at 1. by rewrite Hrow. }
    case_bool_decide as Hdom.
    + destruct IH as (b & -> & Hb); [intros; apply Hdef; set_solver|].
      exists b. split; [done|]. rewrite Hcons, Hb. tauto.
    + exists false. split; [done|]. split; [done|]. rewrite Hcons. by intros [? _].
Qed.

Lemma dom_rows_defined {T : Type} (table : gmap string T) (states : list string) :
  dom table = list_to_set states → ∀ s, s ∈ states → is_Some (table !! s).
Proof. intros Hdom s Hs. apply elem_of_dom. rewrite Hdom. set_solver. Qed.

(** The outcome of [validate_input]: the first condition that fails
    decides the message; with none failing the call returns. *)
Lemma validate_input_cases (observations states : pyobj)
    start_prob trans_prob emit_prob :
  let v := validate_input observations states start_prob trans_prob emit_prob in
  (¬ check_observations observations →
     v = Raise (AssertionError msg_observations)) ∧
  (check_observations observations → ¬ check_states states →
     v = Raise (AssertionError msg_states)) ∧
  (check_observations observations → check_states states →
   ¬ check_start states start_prob →
     v = Raise (AssertionError msg_start)) ∧
  (check_observations observations → check_states states →
   check_start states start_prob → ¬ check_trans states trans_prob →
     v = Raise (AssertionError msg_trans)) ∧
  (check_observations observations → check_states states →
   check_start states start_prob → check_trans states trans_prob →
   ¬ check_trans_rows states trans_prob →
     v = Raise (AssertionError msg_trans_rows)) ∧
  (check_observations observations → check_states states →
   check_start states start_prob → check_trans states trans_prob →
   check_trans_rows states trans_prob → ¬ check_emit states emit_prob →
     v = Raise (AssertionError msg_emit)) ∧
  (check_observations observations → check_states states →
   check_start states start_prob → check_trans states trans_prob →
   check_trans_rows states trans_prob → check_emit states emit_prob →
   ¬ check_emit_rows observations states emit_prob →
     v = Raise (AssertionError msg_emit_rows)) ∧
  (check_observations observations → check_states states →
   check_start states start_prob → check_trans states trans_prob →
   check_trans_rows states trans_prob → check_emit states emit_prob →
   check_emit_rows observations states emit_prob →
     v = Ok tt).
Proof.
  unfold check_observations, check_states, check_start, check_trans,
    check_trans_rows, check_emit, check_emit_rows, validate_input.
  simpl.
  destruct (is_list_or_tuple observations) eqn:Ho; simpl;
    [|by repeat split; intros; try done; exfalso; auto].
  destruct (is_list_or_tuple states) eqn:Hs; simpl;
    [|by repeat split; intros; try done; exfalso; auto].
  rewrite (py_set_sequence _ Hs), (py_items_sequence _ Hs). simpl.
  destruct (decide (dom start_prob = list_to_set (items_of states))) as [H3|H3];
    [rewrite (bool_decide_eq_true_2 _ H3)|rewrite (bool_decide_eq_false_2 _ H3)];
    simpl; [|by repeat split; intros; try done; exfalso; auto].
  destruct (decide (dom trans_prob = list_to_set (items_of states))) as [H4|H4];
    [rewrite (bool_decide_eq_true_2 _ H4)|rewrite (bool_decide_eq_false_2 _ H4)];
    simpl; [|by repeat split; intros; try done; exfalso; auto].
  destruct (rows_match_spec trans_prob states (items_of states) Hs
              (dom_rows_defined _ _ H4)) as (b5 & -> & Hb5). simpl.
  destruct b5; simpl; cycle 1.
  { assert (¬ rows_have_keys trans_prob (items_of states)
                (list_to_set (items_of states))) by (rewrite <- Hb5; done).
    by repeat split; intros; try done; exfalso; auto. }
  pose proof (proj1 Hb5 eq_refl) as H5.
  destruct (decide (dom emit_prob = list_to_set (items_of states))) as [H6|H6];
    [rewrite (bool_decide_eq_true_2 _ H6)|rewrite (bool_decide_eq_false_2 _ H6)];
    simpl; [|by repeat split; intros; try done; exfalso; auto].
  destruct (rows_match_spec emit_prob observations (items_of states) Ho
              (dom_rows_defined _ _ H6)) as (b7 & -> & Hb7). simpl.
  destruct b7; simpl.
  - pose proof (proj1 Hb7 eq_refl) as H7.
    by repeat split; intros; try done; exfalso; auto.
  - assert (¬ rows_have_keys emit_prob (items_of states)
                (list_to_set (items_of observations))) by (rewrite <- Hb7; done).
    by repeat split; intros; try done; exfalso; auto.
Qed.

End Validation.

(** ** The trellis, layer by layer *)

Lemma table_at_Some {T : Type} (table : gmap string (gmap string T))
    (r c : string) (v : T) :
  table_at table r c = Some v ↔ ∃ row, table !! r = Some row ∧ row !! c = Some v.
Proof.
  unfold table_at. destruct (table !! r) as [row|]; simpl.
  - split; [eauto|]. by intros (? & [= ->] & ?).
  - split; [done|]. by intros (? & ? & _).
Qed.

Section Layers.
Context {A : Type} `{PyNum A}.
Implicit Types (row : gmap string A) (pm : gmap string (list string)).

Lemma max_loop_elem (items : list (A * string)) (best : A * string) :
  max_loop best items ∈ best :: items.
Proof.
  revert best. induction items as [|y items IH]; intros best; simpl.
  - set_solver.
  - specialize (IH (if pair_gtb y best then y else best)).
    destruct (pair_gtb y best); set_solver.
Qed.

Lemma py_max_elem (items : list (A * string)) (r : A * string) :
  py_max items = Ok r → r ∈ items.
Proof.
  destruct items as [|x items]; [done|]. simpl. intros [= <-].
  apply max_loop_elem.
Qed.

(** A loop that stores one entry per key in the last layer of [V] and in
    the path table leaves, for every key, an entry written by its body. *)
Lemma fill_loop (body : trellis → string → result trellis)
    (g : string → A → list string → Prop) (Vp : list (gmap string A))
    (keys : list string) :
  (∀ row pm k, k ∈ keys →
     ∃ v p, g k v p ∧
       body (Vp ++ [row], pm) k = Ok (Vp ++ [<[k := v]> row], <[k := p]> pm)) →
  ∀ row pm, ∃ row' pm',
    for_each body (Vp ++ [row], pm) keys = Ok (Vp ++ [row'], pm') ∧
    ∀ k, (k ∈ keys → ∃ v p, row' !! k = Some v ∧ pm' !! k = Some p ∧ g k v p) ∧
         (k ∉ keys → row' !! k = row !! k ∧ pm' !! k = pm !! k).
Proof.
  induction keys as [|k0 keys IH]; intros Hbody row pm; simpl.
  - exists row, pm. split; [done|]. intros k. split; [set_solver|done].
  - destruct (Hbody row pm k0) as (v & p & Hg & ->); [set_solver|]. simpl.
    destruct (IH (λ row pm k Hk, Hbody row pm k (list_elem_of_further _ _ _ Hk))
                (<[k0 := v]> row) (<[k0 := p]> pm))
      as (row' & pm' & -> & Hfin).
    exists row', pm'. split; [done|]. intros k. split.
    + intros Hk. destruct (decide (k ∈ keys)) as [Hin|Hnin].
      * by apply Hfin.
      * assert (k = k0) as -> by set_solver.
        destruct (Hfin k0) as [_ [-> ->]]; [done|].
        rewrite !lookup_insert_eq. eauto.
    + intros Hk. destruct (Hfin k) as [_ [-> ->]]; [set_solver|].
      rewrite !lookup_insert_ne by set_solver. done.
Qed.

Variables (obs sts : list string).
Variables (start_prob : gmap string A) (trans_prob emit_prob : gmap string (gmap string A)).
Variable I : nat → string → A → list string → Prop.

Hypothesis Hdef : tables_defined obs sts start_prob trans_prob emit_prob.
Hypothesis Hsts : sts ≠ [].

Hypothesis Hinit : ∀ s o a b,
  s ∈ sts → obs !! 0 = Some o →
  start_prob !! s = Some a → table_at emit_prob s o = Some b →
  I 0 s (num_mul a b) [s].

Hypothesis Hstep : ∀ t o c row pm items max_prob prev_st p,
  obs !! S t = Some o → c ∈ sts →
  layer sts I t row pm →
  candidates sts trans_prob emit_prob row o c items →
  py_max items = Ok (max_prob, prev_st) →
  pm !! prev_st = Some p →
  I (S t) c max_prob (p ++ [c]).

Lemma init_loop (o : string) :
  obs !! 0 = Some o →
  ∃ row pm, for_each (init_body obs start_prob emit_prob) ([∅], ∅) sts
            = Ok ([row], pm) ∧ layer sts I 0 row pm.
Proof.
  intros Ho. pose proof Hdef as (Hsp & _ & Hep).
  assert (∀ row pm k, k ∈ sts →
     ∃ v p, I 0 k v p ∧
       init_body obs start_prob emit_prob ([] ++ [row], pm) k
       = Ok ([] ++ [<[k := v]> row], <[k := p]> pm)) as Hbody; cycle 1.
  - destruct (fill_loop _ _ _ _ Hbody ∅ ∅) as (row & pm & Hrun & Hfin).
    exists row, pm. split; [exact Hrun|]. intros s Hs. by apply Hfin.
  - intros row pm k Hk.
    destruct (Hsp k Hk) as [a Ha].
    assert (o ∈ obs) as Hoin by exact (list_elem_of_lookup_2 _ _ _ Ho).
    destruct (Hep k o Hk Hoin) as [b Hb].
    exists (num_mul a b), [k]. split; [exact (Hinit k o a b Hk Ho Ha Hb)|].
    apply table_at_Some in Hb as (erow & Herow & Hb).
    unfold init_body.
    rewrite (dict_get_Some _ _ _ Ha), (dict_get_Some _ _ _ Herow). simpl.
    rewrite (seq_get_Some _ _ _ Ho). simpl.
    rewrite (dict_get_Some _ _ _ Hb). reflexivity.
Qed.

Lemma best_prev_layer (Vp : list (gmap string A)) row row' pm t o c :
  length Vp = t → obs !! S t = Some o → c ∈ sts → layer sts I t row pm →
  ∃ items max_prob prev_st p,
    best_prev ((Vp ++ [row]) ++ [row']) (S t) obs sts trans_prob emit_prob c
      = Ok (max_prob, prev_st) ∧
    candidates sts trans_prob emit_prob row o c items ∧ py_max items = Ok (max_prob, prev_st) ∧
    pm !! prev_st = Some p.
Proof.
  intros Hlen Ho Hc Hlayer. pose proof Hdef as (_ & Htp & Hep).
  assert (o ∈ obs) as Hoin by exact (list_elem_of_lookup_2 _ _ _ Ho).
  destruct (Hep c o Hc Hoin) as [b Hb].
  destruct (gen_list_Forall2
              (candidate ((Vp ++ [row]) ++ [row']) (S t) obs trans_prob emit_prob c)
              (λ p item, ∃ v a b,
                 row !! p = Some v ∧ table_at trans_prob p c = Some a ∧
                 table_at emit_prob c o = Some b ∧
                 item = (num_mul (num_mul v a) b, p)) sts)
    as (items & Hgen & Hitems).
  { intros p Hp. destruct (Hlayer p Hp) as (v & q & Hv & _ & _).
    destruct (Htp p c Hp Hc) as [a Ha].
    exists (num_mul (num_mul v a) b, p). split; [|by eauto 10].
    apply table_at_Some in Ha as (trow & Htrow & Ha).
    apply table_at_Some in Hb as (erow & Herow & Hb).
    unfold candidate.
    rewrite (seq_get_Some _ (S t - 1) row); cycle 1.
    { rewrite <- app_assoc, lookup_app_r by lia.
      by replace (S t - 1 - length Vp) with 0 by lia. }
    simpl. rewrite (dict_get_Some _ _ _ Hv). simpl.
    rewrite (dict_get_Some _ _ _ Htrow). simpl.
    rewrite (dict_get_Some _ _ _ Ha). simpl.
    rewrite (dict_get_Some _ _ _ Herow). simpl.
    rewrite (seq_get_Some _ _ _ Ho). simpl.
    by rewrite (dict_get_Some _ _ _ Hb). }
  destruct (py_max_Ok items) as [[max_prob prev_st] Hmax].
  { intros ->. apply Forall2_nil_inv_r in Hitems. done. }
  pose proof (py_max_elem _ _ Hmax) as Hin.
  apply list_elem_of_lookup in Hin as [i Hi].
  destruct (Forall2_lookup_r _ _ _ _ _ Hitems Hi) as (p & Hp & (v & a & b' & _ & _ & _ & [= -> ->])).
  apply list_elem_of_lookup_2 in Hp.
  destruct (Hlayer p Hp) as (v' & q & _ & Hq & _).
  exists items, (num_mul (num_mul v a) b'), p, q.
  split; [|done]. unfold best_prev. rewrite Hgen. simpl. exact Hmax.
Qed.

Lemma step_loop (Vp : list (gmap string A)) row pm t o :
  length Vp = t → obs !! S t = Some o → layer sts I t row pm →
  ∃ row' pm',
    time_body obs sts trans_prob emit_prob (Vp ++ [row], pm) (S t)
      = Ok ((Vp ++ [row]) ++ [row'], pm') ∧ layer sts I (S t) row' pm'.
Proof.
  intros Hlen Ho Hlayer. unfold time_body. simpl.
  assert (∀ row1 pm1 c, c ∈ sts →
     ∃ v p, I (S t) c v p ∧
       step_body (S t) obs sts trans_prob emit_prob pm ((Vp ++ [row]) ++ [row1], pm1) c
       = Ok ((Vp ++ [row]) ++ [<[c := v]> row1], <[c := p]> pm1)) as Hbody; cycle 1.
  - destruct (fill_loop _ _ _ _ Hbody ∅ ∅) as (row' & pm' & Hrun & Hfin).
    exists row', pm'. split; [exact Hrun|]. intros s Hs. by apply Hfin.
  - intros row1 pm1 c Hc.
    destruct (best_prev_layer Vp row row1 pm t o c Hlen Ho Hc Hlayer)
      as (items & max_prob & prev_st & p & Hbest & Hitems & Hmax & Hp).
    exists max_prob, (p ++ [c]). split; [by eapply Hstep|].
    unfold step_body. simpl. rewrite Hbest. simpl.
    rewrite (seq_get_Some _ (S t) row1); cycle 1.
    { rewrite lookup_app_r by (rewrite length_app; simpl; lia).
      rewrite length_app. simpl.
      by replace (S t - (length Vp + 1)) with 0 by lia. }
    simpl. rewrite (dict_get_Some _ _ _ Hp). simpl.
    do 2 f_equal.
    rewrite insert_app_r_alt by (rewrite length_app; simpl; lia).
    rewrite length_app. simpl.
    by replace (S t - (length Vp + 1)) with 0 by lia.
Qed.

Lemma time_loop (n : nat) : ∀ (Vp : list (gmap string A)) row pm t,
  length Vp = t → t + n = length obs - 1 → 0 < length obs → layer sts I t row pm →
  ∃ Vp' row' pm',
    for_each (time_body obs sts trans_prob emit_prob) (Vp ++ [row], pm)
             (seq (S t) n)
      = Ok (Vp' ++ [row'], pm') ∧ layer sts I (length obs - 1) row' pm'.
Proof.
  induction n as [|n IH]; intros Vp row pm t Hlen Hn Hobs Hlayer; simpl.
  - exists Vp, row, pm. split; [done|]. by replace (length obs - 1) with t by lia.
  - destruct (lookup_lt_is_Some_2 obs (S t)) as [o Ho]; [lia|].
    destruct (step_loop Vp row pm t o Hlen Ho Hlayer) as (row' & pm' & -> & Hl').
    simpl. apply (IH (Vp ++ [row]) row' pm' (S t)); try done.
    + rewrite length_app. simpl. lia.
    + lia.
Qed.

(** The decoder returns, and its result is the maximum of the last layer
    together with the path stored for the state that reaches it. *)
Lemma decode_layers (observations states : pyobj) :
  py_items observations = Ok obs → py_items states = Ok sts → obs ≠ [] →
  ∃ row pm items max_prob final_state p,
    decode observations states start_prob trans_prob emit_prob = Ok (max_prob, p) ∧
    layer sts I (length obs - 1) row pm ∧ finalists sts row items ∧
    py_max items = Ok (max_prob, final_state) ∧ pm !! final_state = Some p.
Proof.
  intros Hobs Hstates Hne. unfold decode. rewrite Hstates, Hobs. simpl.
  assert (0 < length obs) as Hlen.
  { destruct (decide (length obs = 0)) as [E|]; [|lia].
    by apply length_zero_iff_nil in E. }
  destruct (lookup_lt_is_Some_2 obs 0 Hlen) as [o0 Ho0].
  destruct (init_loop o0 Ho0) as (row0 & pm0 & -> & Hl0). simpl.
  assert (0 + (length obs - 1) = length obs - 1) as Hn by lia.
  destruct (time_loop (length obs - 1) [] row0 pm0 0 eq_refl Hn Hlen Hl0)
    as (Vp & row & pm & Hrun & Hl).
  simpl in Hrun. rewrite Hrun. simpl.
  destruct (gen_list_Forall2
              (finalist (Vp ++ [row]))
              (λ s item, ∃ v, row !! s = Some v ∧ item = (v, s)) sts)
    as (items & Hgen & Hitems).
  { intros s Hs. destruct (Hl s Hs) as (v & q & Hv & _ & _).
    exists (v, s). split; [|by eauto].
    unfold finalist. rewrite seq_last_snoc. simpl. by rewrite (dict_get_Some _ _ _ Hv). }
  destruct (py_max_Ok items) as [[max_prob final_state] Hmax].
  { intros ->. apply Forall2_nil_inv_r in Hitems. done. }
  pose proof (py_max_elem _ _ Hmax) as Hin.
  apply list_elem_of_lookup in Hin as [i Hi].
  destruct (Forall2_lookup_r _ _ _ _ _ Hitems Hi) as (s & Hs & (v & _ & [= -> ->])).
  apply list_elem_of_lookup_2 in Hs.
  destruct (Hl s Hs) as (v' & q & _ & Hq & _).
  exists row, pm, items, v, s, q.
  split; [|done]. unfold best_final. rewrite Hgen. simpl. rewrite Hmax. simpl.
  by rewrite (dict_get_Some _ _ _ Hq).
Qed.

End Layers.

(** ** Accepted inputs *)

Section Accepted.
Context {A : Type} `{PyNum A}.
Implicit Types (start_prob : gmap string A) (trans_prob emit_prob : gmap string (gmap string A)).

Lemma validate_input_Ok observations states start_prob trans_prob emit_prob :
  validate_input observations states start_prob trans_prob emit_prob = Ok tt ↔
  accepted observations states start_prob trans_prob emit_prob.
Proof.
  pose proof (validate_input_cases observations states start_prob trans_prob emit_prob)
    as (C1 & C2 & C3 & C4 & C5 & C6 & C7 & C8).
  cbv zeta in *. unfold accepted. split; [|by intros (? & ? & ? & ? & ? & ? & ?); auto].
  intros Hv. rewrite Hv in *.
  assert (check_observations observations) as H1.
  { unfold check_observations in *.
    destruct (is_list_or_tuple observations); [done|]. by specialize (C1 ltac:(done)). }
  assert (check_states states) as H2.
  { unfold check_states in *.
    destruct (is_list_or_tuple states); [done|]. by specialize (C2 H1 ltac:(done)). }
  assert (check_start states start_prob) as H3.
  { unfold check_start in *.
    destruct (decide (dom start_prob = list_to_set (items_of states))) as [|Hn];
      [done|]. by specialize (C3 H1 H2 Hn). }
  assert (check_trans states trans_prob) as H4.
  { unfold check_trans in *.
    destruct (decide (dom trans_prob = list_to_set (items_of states))) as [|Hn];
      [done|]. by specialize (C4 H1 H2 H3 Hn). }
  assert (check_trans_rows states trans_prob) as H5.
  { destruct (rows_have_keys_dec trans_prob (items_of states)
                (list_to_set (items_of states))) as [|Hn]; [done|].
    by specialize (C5 H1 H2 H3 H4 Hn). }
  assert (check_emit states emit_prob) as H6.
  { unfold check_emit in *.
    destruct (decide (dom emit_prob = list_to_set (items_of states))) as [|Hn];
      [done|]. by specialize (C6 H1 H2 H3 H4 H5 Hn). }
  assert (check_emit_rows observations states emit_prob) as H7.
  { destruct (rows_have_keys_dec emit_prob (items_of states)
                (list_to_set (items_of observations))) as [|Hn]; [done|].
    by specialize (C7 H1 H2 H3 H4 H5 H6 Hn). }
  done.
Qed.

(** Accepted tables hold every entry the decoder reads. *)
Lemma accepted_tables_defined observations states start_prob trans_prob emit_prob :
  accepted observations states start_prob trans_prob emit_prob →
  tables_defined (items_of observations) (items_of states)
                 start_prob trans_prob emit_prob.
Proof.
  intros (_ & _ & H3 & H4 & H5 & H6 & H7).
  unfold check_trans_rows, check_emit_rows in *.
  rewrite rows_have_keys_spec in H5, H7. split_and!.
  - by apply dom_rows_defined.
  - intros p c Hp Hc.
    destruct (dom_rows_defined _ _ H4 p Hp) as [row Hrow].
    assert (is_Some (row !! c)) as [a Ha].
    { apply elem_of_dom. rewrite (H5 p row Hp Hrow). set_solver. }
    exists a. apply table_at_Some. eauto.
  - intros s o Hs Ho.
    destruct (dom_rows_defined _ _ H6 s Hs) as [row Hrow].
    assert (is_Some (row !! o)) as [a Ha].
    { apply elem_of_dom. rewrite (H7 s row Hs Hrow). set_solver. }
    exists a. apply table_at_Some. eauto.
Qed.

Lemma viterbi_accepted observations states start_prob trans_prob emit_prob :
  accepted observations states start_prob trans_prob emit_prob →
  viterbi observations states start_prob trans_prob emit_prob
  = decode observations states start_prob trans_prob emit_prob.
Proof.
  intros Hacc. apply validate_input_Ok in Hacc. unfold viterbi. by rewrite Hacc.
Qed.

Lemma viterbi_rejected observations states start_prob trans_prob emit_prob e :
  validate_input observations states start_prob trans_prob emit_prob = Raise e →
  viterbi observations states start_prob trans_prob emit_prob = Raise e.
Proof. intros Hv. unfold viterbi. by rewrite Hv. Qed.

(** With no state, every loop body is skipped and [max] meets an empty
    generator. *)
Lemma time_loop_no_state (obs : list string) trans_prob emit_prob
    (ts : list nat) (st : trellis) :
  ∃ st', for_each (time_body obs [] trans_prob emit_prob) st ts = Ok st'.
Proof.
  revert st. induction ts as [|t ts IH]; intros st; simpl; [eauto|].
  apply IH.
Qed.

Lemma decode_no_state observations states start_prob trans_prob emit_prob :
  check_observations observations → check_states states →
  items_of states = [] →
  decode observations states start_prob trans_prob emit_prob = Raise ValueError.
Proof.
  intros Ho Hs Hnil. unfold decode.
  rewrite (py_items_sequence _ Hs), (py_items_sequence _ Ho), Hnil. simpl.
  destruct (time_loop_no_state (items_of observations) trans_prob emit_prob
              (seq 1 (length (items_of observations) - 1)) ([∅], ∅)) as [st' ->].
  reflexivity.
Qed.

(** With no observation, the first state's [observations[0]] fails. *)
Lemma decode_no_observation observations states start_prob trans_prob emit_prob :
  accepted observations states start_prob trans_prob emit_prob →
  items_of observations = [] → items_of states ≠ [] →
  decode observations states start_prob trans_prob emit_prob = Raise IndexError.
Proof.
  intros Hacc Hnil Hne.
  pose proof Hacc as (Ho & Hs & H3 & _ & _ & H6 & _).
  unfold decode.
  rewrite (py_items_sequence _ Hs), (py_items_sequence _ Ho), Hnil. simpl.
  unfold check_start, check_emit in *.
  destruct (items_of states) as [|s sts] eqn:Es; [done|]. simpl.
  destruct (dom_rows_defined _ (s :: sts) H3 s) as [a Ha]; [set_solver|].
  destruct (dom_rows_defined _ (s :: sts) H6 s) as [row Hrow]; [set_solver|].
  unfold init_body.
  rewrite (dict_get_Some _ _ _ Ha), (dict_get_Some _ _ _ Hrow). reflexivity.
Qed.

(** On accepted, non-empty inputs the decoder returns, whatever relation
    [I] the initialisation establishes and the recurrence preserves. *)
Lemma viterbi_layers (I : nat → string → A → list string → Prop)
    observations states start_prob trans_prob emit_prob :
  accepted observations states start_prob trans_prob emit_prob →
  items_of observations ≠ [] → items_of states ≠ [] →
  (∀ s o a b,
     s ∈ items_of states → items_of observations !! 0 = Some o →
     start_prob !! s = Some a → table_at emit_prob s o = Some b →
     I 0 s (num_mul a b) [s]) →
  (∀ t o c row pm items max_prob prev_st p,
     items_of observations !! S t = Some o → c ∈ items_of states →
     layer (items_of states) I t row pm →
     candidates (items_of states) trans_prob emit_prob row o c items →
     py_max items = Ok (max_prob, prev_st) →
     pm !! prev_st = Some p →
     I (S t) c max_prob (p ++ [c])) →
  ∃ row pm items max_prob final_state p,
    viterbi observations states start_prob trans_prob emit_prob = Ok (max_prob, p) ∧
    layer (items_of states) I (length (items_of observations) - 1) row pm ∧
    finalists (items_of states) row items ∧
    py_max items = Ok (max_prob, final_state) ∧ pm !! final_state = Some p.
Proof.
  intros Hacc Hobs Hsts Hinit Hstep.
  rewrite (viterbi_accepted _ _ _ _ _ Hacc).
  pose proof Hacc as (Ho & Hs & _).
  eapply decode_layers; eauto using accepted_tables_defined, py_items_sequence.
Qed.

End Accepted.

(** ** The probability of a state sequence, one state more *)

Section SeqProb.
Context {A : Type} `{PyNum A}.
Variables (start_prob : gmap string A) (trans_prob emit_prob : gmap string (gmap string A)).

Lemma chain_prob_snoc (path obs : list string) : ∀ acc prev c o,
  length path = length obs →
  chain_prob trans_prob emit_prob acc prev (path ++ [c]) (obs ++ [o]) =
  w ← chain_prob trans_prob emit_prob acc prev path obs;
  a ← table_at trans_prob (default prev (last path)) c;
  b ← table_at emit_prob c o;
  Some (num_mul (num_mul w a) b).
Proof.
  revert obs. induction path as [|s path IH]; intros [|o' obs] acc prev c o Hlen;
    simplify_eq/=.
  - destruct (table_at trans_prob prev c); simpl; [|done].
    by destruct (table_at emit_prob c o).
  - destruct (table_at trans_prob prev s); simpl; [|done].
    destruct (table_at emit_prob s o'); simpl; [|done].
    rewrite IH by done. rewrite last_cons. by destruct (last path).
Qed.

Lemma seq_prob_snoc (path obs : list string) (s c o : string) :
  length path = length obs → last path = Some s →
  seq_prob start_prob trans_prob emit_prob (path ++ [c]) (obs ++ [o]) =
  w ← seq_prob start_prob trans_prob emit_prob path obs;
  a ← table_at trans_prob s c;
  b ← table_at emit_prob c o;
  Some (num_mul (num_mul w a) b).
Proof.
  destruct path as [|s0 path], obs as [|o0 obs]; intros Hlen Hlast; simplify_eq/=.
  destruct (start_prob !! s0); simpl; [|done].
  destruct (table_at emit_prob s0 o0); simpl; [|done].
  rewrite chain_prob_snoc by done.
  rewrite last_cons in Hlast. by destruct (last path); simplify_eq/=.
Qed.

End SeqProb.

(** ** The greatest item *)

Section Correctness.
Context {A : Type} `{PyNumOrd A}.

Lemma py_max_greatest (items : list (A * string)) (r : A * string) :
  py_max items = Ok r → ∀ x, x ∈ items → pair_gtb x r = false.
Proof.
  destruct items as [|y items]; [done|]. simpl. intros [= <-] x Hx.
  by apply max_loop_spec.
Qed.

End Correctness.

(** ** Results *)

Section Results.
Context {A : Type} `{PyNum A}.
Implicit Types (start_prob : gmap string A) (trans_prob emit_prob : gmap string (gmap string A)).

(** The state selected at line 66 carries the value and path of its own
    entry in the last layer. *)
Lemma final_layer (I : nat → string → A → list string → Prop)
    (sts : list string) (t : nat) (row : gmap string A)
    (pm : gmap string (list string)) items max_prob final_state p :
  layer sts I t row pm → finalists sts row items →
  py_max items = Ok (max_prob, final_state) → pm !! final_state = Some p →
  final_state ∈ sts ∧ row !! final_state = Some max_prob ∧
  I t final_state max_prob p.
Proof.
  intros Hlayer Hitems Hmax Hp.
  pose proof (py_max_elem _ _ Hmax) as Hin.
  apply list_elem_of_lookup in Hin as [i Hi].
  destruct (Forall2_lookup_r _ _ _ _ _ Hitems Hi) as (s & Hs & (v & Hv & [= -> ->])).
  apply list_elem_of_lookup_2 in Hs.
  destruct (Hlayer s Hs) as (v' & p' & Hv' & Hp' & HI). by simplify_eq.
Qed.

(** (C7) For every input that passes validation with a non-empty
    observation sequence, a path returned by [viterbi] has exactly as
    many states as there are observations; and with at least one state
    the call does return. *)
Theorem viterbi_path_length (observations states : pyobj)
    start_prob trans_prob emit_prob :
  validate_input observations states start_prob trans_prob emit_prob = Ok tt →
  items_of observations ≠ [] →
  (∀ max_prob best_path,
     viterbi observations states start_prob trans_prob emit_prob
     = Ok (max_prob, best_path) →
     length best_path = length (items_of observations)) ∧
  (items_of states ≠ [] →
   ∃ max_prob best_path,
     viterbi observations states start_prob trans_prob emit_prob
     = Ok (max_prob, best_path)).
Proof.
  intros Hv Hobs. apply validate_input_Ok in Hv.
  destruct (decide (items_of states = [])) as [Hnil|Hsts].
  { pose proof Hv as (Ho & Hs & _).
    rewrite (viterbi_accepted _ _ _ _ _ Hv), (decode_no_state _ _ _ _ _ Ho Hs Hnil).
    split; [done|]. by intros []. }
  destruct (viterbi_layers (λ t _ _ p, length p = S t) _ _ _ _ _ Hv Hobs Hsts)
    as (row & pm & items & max_prob & final_state & p & Hrun & Hlayer & Hitems & Hmax & Hp).
  - done.
  - intros t o c row pm items max_prob prev_st p _ _ Hlayer Hitems Hmax Hp.
    pose proof (py_max_elem _ _ Hmax) as Hin.
    apply list_elem_of_lookup in Hin as [i Hi].
    destruct (Forall2_lookup_r _ _ _ _ _ Hitems Hi) as (p0 & Hp0 & (v & a & b & _ & _ & _ & [= -> ->])).
    apply list_elem_of_lookup_2 in Hp0.
    destruct (Hlayer p0 Hp0) as (v' & p' & _ & Hp' & Hlen). simplify_eq.
    rewrite length_app. simpl. lia.
  - destruct (final_layer _ _ _ _ _ _ _ _ _ Hlayer Hitems Hmax Hp) as (_ & _ & Hlen).
    assert (0 < length (items_of observations)).
    { destruct (items_of observations); [done|simpl; lia]. }
    rewrite Hrun. split; [|by eauto].
    intros ?? [= <- <-]. lia.
Qed.

(** Once validation has passed, with at least one state and one
    observation, [viterbi] returns: no lookup fails and [max] never meets
    an empty generator. *)
Theorem viterbi_returns (observations states : pyobj)
    start_prob trans_prob emit_prob :
  validate_input observations states start_prob trans_prob emit_prob = Ok tt →
  items_of observations ≠ [] → items_of states ≠ [] →
  ∃ max_prob best_path,
    viterbi observations states start_prob trans_prob emit_prob
    = Ok (max_prob, best_path).
Proof.
  intros Hv Hobs Hsts. apply validate_input_Ok in Hv.
  destruct (viterbi_layers (λ _ _ _ _, True) _ _ _ _ _ Hv Hobs Hsts)
    as (row & pm & items & max_prob & final_state & p & Hrun & _); [done..|].
  eauto.
Qed.

End Results.

(** ** Validation outcomes *)

Section ValidationResults.
Context {A : Type} `{PyNum A}.
Implicit Types (start_prob : gmap string A) (trans_prob emit_prob : gmap string (gmap string A)).

(** (C6) Each of the seven conditions of [validate_input], when it is the
    first to fail, makes [viterbi] raise the assertion error carrying that
    condition's own message, so no path is returned; the seven messages
    differ from one another; and an input meeting all seven passes
    validation. *)
Theorem validation_rejects_each_check (observations states : pyobj)
    start_prob trans_prob emit_prob :
  (¬ check_observations observations →
     viterbi observations states start_prob trans_prob emit_prob
     = Raise (AssertionError msg_observations)) ∧
  (check_observations observations → ¬ check_states states →
     viterbi observations states start_prob trans_prob emit_prob
     = Raise (AssertionError msg_states)) ∧
  (check_observations observations → check_states states →
   ¬ check_start states start_prob →
     viterbi observations states start_prob trans_prob emit_prob
     = Raise (AssertionError msg_start)) ∧
  (check_observations observations → check_states states →
   check_start states start_prob → ¬ check_trans states trans_prob →
     viterbi observations states start_prob trans_prob emit_prob
     = Raise (AssertionError msg_trans)) ∧
  (check_observations observations → check_states states →
   check_start states start_prob → check_trans states trans_prob →
   ¬ check_trans_rows states trans_prob →
     viterbi observations states start_prob trans_prob emit_prob
     = Raise (AssertionError msg_trans_rows)) ∧
  (check_observations observations → check_states states →
   check_start states start_prob → check_trans states trans_prob →
   check_trans_rows states trans_prob → ¬ check_emit states emit_prob →
     viterbi observations states start_prob trans_prob emit_prob
     = Raise (AssertionError msg_emit)) ∧
  (check_observations observations → check_states states →
   check_start states start_prob → check_trans states trans_prob →
   check_trans_rows states trans_prob → check_emit states emit_prob →
   ¬ check_emit_rows observations states emit_prob →
     viterbi observations states start_prob trans_prob emit_prob
     = Raise (AssertionError msg_emit_rows)) ∧
  (check_observations observations → check_states states →
   check_start states start_prob → check_trans states trans_prob →
   check_trans_rows states trans_prob → check_emit states emit_prob →
   check_emit_rows observations states emit_prob →
     validate_input observations states start_prob trans_prob emit_prob = Ok tt) ∧
  NoDup [msg_observations; msg_states; msg_start; msg_trans; msg_trans_rows;
         msg_emit; msg_emit_rows].
Proof.
  pose proof (validate_input_cases observations states start_prob trans_prob emit_prob)
    as (C1 & C2 & C3 & C4 & C5 & C6 & C7 & C8).
  cbv zeta in *.
  split_and!; try (intros; apply viterbi_rejected; auto; fail).
  - exact C8.
  - apply (bool_decide_unpack _). vm_compute. exact I.
Qed.

End ValidationResults.

(** ** Generators *)

Lemma gen_list_Ok_inv {X Y : Type} (f : X → result Y) (xs : list X) (ys : list Y) :
  gen_list f xs = Ok ys → Forall2 (λ x y, f x = Ok y) xs ys.
Proof.
  revert ys. induction xs as [|x xs IH]; intros ys; simpl.
  - intros [= <-]. constructor.
  - intros Hrun. apply bind_Ok in Hrun as (y & Hy & Hrun).
    apply bind_Ok in Hrun as (ys' & Hys & [= <-]).
    constructor; [done|]. by apply IH.
Qed.

Lemma finalist_label {A : Type} `{PyNum A} (V : list (gmap string A)) (s : string)
    (y : A * string) :
  finalist V s = Ok y → y.2 = s.
Proof.
  unfold finalist. intros Hrun.
  repeat (apply bind_Ok in Hrun as (? & _ & Hrun)). by injection Hrun as <-.
Qed.

(** ** The order of the state sequence *)

Section StateOrder.
Context {A : Type} `{PyNumOrd A}.
Implicit Types (start_prob : gmap string A) (trans_prob emit_prob : gmap string (gmap string A)).

Lemma pair_le_antisym (x y : A * string) :
  pair_gtb x y = false → pair_gtb y x = false → x.2 = y.2.
Proof.
  rewrite !pair_gtb_false. intros [Hxy Hs1] [Hyx Hs2].
  apply str_le_antisym; auto.
Qed.

Lemma trellis_entry_state start_prob trans_prob emit_prob obs sts t s v p :
  trellis_entry start_prob trans_prob emit_prob obs sts t s v p → s ∈ sts.
Proof. destruct t; simpl; tauto. Qed.

Lemma trellis_entry_functional start_prob trans_prob emit_prob obs sts t :
  ∀ s v p v' p',
    trellis_entry start_prob trans_prob emit_prob obs sts t s v p →
    trellis_entry start_prob trans_prob emit_prob obs sts t s v' p' →
    v = v' ∧ p = p'.
Proof.
  induction t as [|t IH]; intros s v p v' p'; simpl.
  - intros (_ & o & a & b & Ho & Ha & Hb & -> & ->)
           (_ & o' & a' & b' & Ho' & Ha' & Hb' & -> & ->).
    by simplify_eq.
  - intros (Hs & o & prev & v0 & p0 & a & b & Ho & Hprev & Hent & Ha & Hb & -> & -> & Hmax)
           (_ & o' & prev' & v0' & p0' & a' & b' & Ho' & Hprev' & Hent' & Ha' & Hb' & -> & -> & Hmax').
    simplify_eq.
    pose proof (Hmax prev' v0' p0' a' Hprev' Hent' Ha') as H1.
    pose proof (Hmax' prev v0 p0 a Hprev Hent Ha) as H2.
    pose proof (pair_le_antisym _ _ H1 H2) as Heq. simpl in Heq. subst prev'.
    destruct (IH _ _ _ _ _ Hent Hent') as [-> ->]. by simplify_eq.
Qed.

Lemma trellis_entry_same_states start_prob trans_prob emit_prob obs sts sts' :
  (∀ x, x ∈ sts ↔ x ∈ sts') →
  ∀ t s v p,
    trellis_entry start_prob trans_prob emit_prob obs sts t s v p ↔
    trellis_entry start_prob trans_prob emit_prob obs sts' t s v p.
Proof.
  intros Hsame. induction t as [|t IH]; intros s v p; simpl.
  - by rewrite Hsame.
  - split.
    + intros (Hs & o & prev & v0 & p0 & a & b & Ho & Hprev & Hent & Ha & Hb & -> & -> & Hmax).
      split; [by apply Hsame|].
      exists o, prev, v0, p0, a, b. split_and!; try done; [by apply Hsame|by apply IH|].
      intros p' v' q' a' Hp' Hent' Ha'.
      apply (Hmax p' v' q' a'); [by apply Hsame|by apply IH|done].
    + intros (Hs & o & prev & v0 & p0 & a & b & Ho & Hprev & Hent & Ha & Hb & -> & -> & Hmax).
      split; [by apply Hsame|].
      exists o, prev, v0, p0, a, b. split_and!; try done; [by apply Hsame|by apply IH|].
      intros p' v' q' a' Hp' Hent' Ha'.
      apply (Hmax p' v' q' a'); [by apply Hsame|by apply IH|done].
Qed.

Lemma trellis_entry_step start_prob trans_prob emit_prob obs sts
    t o c row pm items max_prob prev_st p :
  obs !! S t = Some o → c ∈ sts →
  layer sts (trellis_entry start_prob trans_prob emit_prob obs sts) t row pm →
  candidates sts trans_prob emit_prob row o c items →
  py_max items = Ok (max_prob, prev_st) →
  pm !! prev_st = Some p →
  trellis_entry start_prob trans_prob emit_prob obs sts (S t) c max_prob (p ++ [c]).
Proof.
  intros Ho Hc Hlayer Hitems Hmax Hp.
  pose proof (py_max_elem _ _ Hmax) as Hin.
  apply list_elem_of_lookup in Hin as [i Hi].
  destruct (Forall2_lookup_r _ _ _ _ _ Hitems Hi)
    as (p0 & Hp0 & (v & a & b & Hv & Ha & Hb & [= -> ->])).
  apply list_elem_of_lookup_2 in Hp0.
  destruct (Hlayer p0 Hp0) as (v' & p' & Hv' & Hp' & Hent). simplify_eq.
  simpl. split; [done|].
  exists o, p0, v, p, a, b. split_and!; try done.
  intros p1 v1 q1 a1 Hp1 Hent1 Ha1.
  destruct (Hlayer p1 Hp1) as (v2 & q2 & Hv2 & _ & Hent2).
  destruct (trellis_entry_functional _ _ _ _ _ _ _ _ _ _ _ Hent1 Hent2) as [-> _].
  apply list_elem_of_lookup in Hp1 as [j Hj].
  destruct (Forall2_lookup_l _ _ _ _ _ Hitems Hj)
    as (item & Hitem & (v3 & a3 & b3 & Hv3 & Ha3 & Hb3 & ->)).
  simplify_eq. apply list_elem_of_lookup_2 in Hitem.
  exact (py_max_greatest _ _ Hmax _ Hitem).
Qed.

(** On accepted, non-empty inputs [viterbi] returns the entry of the last
    step that is greatest among all states, as (probability, state) pairs. *)
Lemma viterbi_greatest_entry (observations states : pyobj)
    start_prob trans_prob emit_prob :
  accepted observations states start_prob trans_prob emit_prob →
  items_of observations ≠ [] → items_of states ≠ [] →
  ∃ max_prob final_state p,
    viterbi observations states start_prob trans_prob emit_prob = Ok (max_prob, p) ∧
    trellis_entry start_prob trans_prob emit_prob
      (items_of observations) (items_of states)
      (length (items_of observations) - 1) final_state max_prob p ∧
    ∀ s v q,
      trellis_entry start_prob trans_prob emit_prob
        (items_of observations) (items_of states)
        (length (items_of observations) - 1) s v q →
      pair_gtb (v, s) (max_prob, final_state) = false.
Proof.
  intros Hacc Hobs Hsts.
  destruct (viterbi_layers
              (trellis_entry start_prob trans_prob emit_prob
                 (items_of observations) (items_of states))
              _ _ _ _ _ Hacc Hobs Hsts)
    as (row & pm & items & max_prob & final_state & p & Hrun & Hlayer & Hitems & Hmax & Hp).
  - intros s o a b Hs Ho Ha Hb. simpl. eauto 10.
  - intros t o c row pm items max_prob prev_st p. apply trellis_entry_step.
  - exists max_prob, final_state, p. split; [done|].
    destruct (final_layer _ _ _ _ _ _ _ _ _ Hlayer Hitems Hmax Hp) as (_ & _ & Hent).
    split; [done|]. intros s v q Hs.
    pose proof (trellis_entry_state _ _ _ _ _ _ _ _ _ Hs) as Hin.
    destruct (Hlayer s Hin) as (v' & q' & Hv' & _ & Hent').
    destruct (trellis_entry_functional _ _ _ _ _ _ _ _ _ _ _ Hs Hent') as [-> _].
    apply list_elem_of_lookup in Hin as [j Hj].
    destruct (Forall2_lookup_l _ _ _ _ _ Hitems Hj) as (item & Hitem & (v3 & Hv3 & ->)).
    simplify_eq. apply list_elem_of_lookup_2 in Hitem.
    exact (py_max_greatest _ _ Hmax _ Hitem).
Qed.

Lemma rows_have_keys_perm (table : gmap string (gmap string A))
    (sts sts' : list string) (keys : gset string) :
  sts ≡ₚ sts' → rows_have_keys table sts keys ↔ rows_have_keys table sts' keys.
Proof. intros Hperm. unfold rows_have_keys. by rewrite Hperm. Qed.

Lemma validate_input_perm (observations : pyobj) (sts sts' : list string)
    start_prob trans_prob emit_prob :
  sts ≡ₚ sts' →
  validate_input observations (PyTuple sts) start_prob trans_prob emit_prob
  = validate_input observations (PyTuple sts') start_prob trans_prob emit_prob.
Proof.
  intros Hperm.
  assert (list_to_set sts' = (list_to_set sts : gset string)) as Hset
    by (by rewrite Hperm).
  unfold validate_input. simpl. rewrite Hset.
  destruct (is_list_or_tuple observations) eqn:Ho; simpl; [|done].
  destruct (decide (dom start_prob = list_to_set sts)) as [H3|H3];
    [rewrite (bool_decide_eq_true_2 _ H3)|rewrite (bool_decide_eq_false_2 _ H3)];
    simpl; [|done].
  destruct (decide (dom trans_prob = list_to_set sts)) as [H4|H4];
    [rewrite (bool_decide_eq_true_2 _ H4)|rewrite (bool_decide_eq_false_2 _ H4)];
    simpl; [|done].
  destruct (rows_match_spec trans_prob (PyTuple sts) sts eq_refl
              (dom_rows_defined _ _ H4)) as (b & -> & Hb).
  rewrite <- Hset in H4.
  destruct (rows_match_spec trans_prob (PyTuple sts') sts' eq_refl
              (dom_rows_defined _ _ H4)) as (b' & -> & Hb').
  simpl in Hb, Hb'. rewrite Hset, <- (rows_have_keys_perm _ _ _ _ Hperm) in Hb'.
  assert (b = b') as <- by (destruct b, b'; intuition congruence).
  simpl. destruct b; simpl; [|done].
  destruct (decide (dom emit_prob = list_to_set sts)) as [H6|H6];
    [rewrite (bool_decide_eq_true_2 _ H6)|rewrite (bool_decide_eq_false_2 _ H6)];
    simpl; [|done].
  destruct (rows_match_spec emit_prob observations sts Ho
              (dom_rows_defined _ _ H6)) as (b7 & -> & Hb7).
  rewrite <- Hset in H6.
  destruct (rows_match_spec emit_prob observations sts' Ho
              (dom_rows_defined _ _ H6)) as (b7' & -> & Hb7').
  rewrite <- (rows_have_keys_perm _ _ _ _ Hperm) in Hb7'.
  assert (b7 = b7') as <- by (destruct b7, b7'; intuition congruence).
  done.
Qed.

(** The result of [viterbi], a returned pair or a raised exception, is the
    same for every ordering of the state sequence. *)
Theorem viterbi_order_independent (observations : pyobj) (sts sts' : list string)
    start_prob trans_prob emit_prob :
  sts ≡ₚ sts' →
  viterbi observations (PyTuple sts) start_prob trans_prob emit_prob
  = viterbi observations (PyTuple sts') start_prob trans_prob emit_prob.
Proof.
  intros Hperm. unfold viterbi at 1 2.
  rewrite (validate_input_perm _ _ _ _ _ _ Hperm).
  destruct (validate_input observations (PyTuple sts') start_prob trans_prob emit_prob)
    as [[]|e] eqn:Hv'; [|done].
  pose proof Hv' as Hv. rewrite <- (validate_input_perm _ _ _ _ _ _ Hperm) in Hv.
  apply validate_input_Ok in Hv, Hv'. simpl.
  destruct sts as [|s0 sts0] eqn:Es.
  { apply Permutation_nil_l in Hperm. by subst. }
  rewrite <- Es in *.
  assert (sts ≠ []) as Hne by (by rewrite Es).
  assert (sts' ≠ []) as Hne'.
  { intros ->. apply Permutation_nil_r in Hperm. done. }
  destruct (decide (items_of observations = [])) as [Hnil|Hobs].
  { by rewrite (decode_no_observation _ _ _ _ _ Hv Hnil Hne),
               (decode_no_observation _ _ _ _ _ Hv' Hnil Hne'). }
  destruct (viterbi_greatest_entry _ _ _ _ _ Hv Hobs Hne)
    as (m & f & p & Hrun & Hent & Hmax).
  destruct (viterbi_greatest_entry _ _ _ _ _ Hv' Hobs Hne')
    as (m' & f' & p' & Hrun' & Hent' & Hmax').
  rewrite (viterbi_accepted _ _ _ _ _ Hv) in Hrun.
  rewrite (viterbi_accepted _ _ _ _ _ Hv') in Hrun'.
  rewrite Hrun, Hrun'. simpl in *.
  assert (∀ x, x ∈ sts ↔ x ∈ sts') as Hsame by (intros x; by rewrite Hperm).
  apply (trellis_entry_same_states _ _ _ _ _ _ Hsame) in Hent as Hent2.
  apply (trellis_entry_same_states _ _ _ _ _ _ Hsame) in Hent' as Hent2'.
  pose proof (Hmax' _ _ _ Hent2) as H1.
  pose proof (Hmax _ _ _ Hent2') as H2.
  pose proof (pair_le_antisym _ _ H1 H2) as Heq. simpl in Heq. subst f'.
  destruct (trellis_entry_functional _ _ _ _ _ _ _ _ _ _ _ Hent Hent2') as [-> ->].
  done.
Qed.

End StateOrder.

(** ** What a call may change in the store *)

Section Frame.
Context {A : Type} `{PyNum A}.
Variable h0 : gmap loc (obj A).

Lemma inv_initial : (inv h0) h0.
Proof.
  split; [done|]. intros l o Hl Ho. destruct Hl. apply elem_of_dom. eauto.
Qed.

Lemma keeps_weaken {T : Type} (m : prog A T) (Q Q' : T → Prop) :
  keeps h0 m Q → (∀ v, Q v → Q' v) → keeps h0 m Q'.
Proof.
  intros Hm HQ h Hh. destruct (Hm h Hh) as [Hinv Hv]. split; [done|]. auto.
Qed.

Lemma keeps_ret {T : Type} (v : T) (Q : T → Prop) : Q v → keeps h0 (mret v) Q.
Proof. intros HQ h Hh. split; [done|]. by intros ? [= <-]. Qed.

Lemma keeps_lift {T : Type} (r : result T) : keeps h0 (lift r) (λ _, True).
Proof. intros h Hh. by split. Qed.

Lemma keeps_bind {S T : Type} (m : prog A S) (k : S → prog A T)
    (Q : S → Prop) (R : T → Prop) :
  keeps h0 m Q → (∀ v, Q v → keeps h0 (k v) R) → keeps h0 (m ≫= k) R.
Proof.
  intros Hm Hk h Hh. destruct (Hm h Hh) as [Hinv Hv].
  unfold mbind, prog_bind. destruct (m h) as [[v|e] h'] eqn:E; simpl in *.
  - by apply Hk; [apply Hv|].
  - by split.
Qed.

Lemma keeps_load (l : loc) : keeps h0 (load l) (λ o, (new_loc h0) l → (rows_new h0) o).
Proof.
  intros h Hh. unfold load. destruct (h !! l) as [o|] eqn:E; simpl.
  - split; [done|]. intros ? [= <-] Hl. by eapply (proj2 Hh).
  - by split.
Qed.

Lemma keeps_alloc (o : obj A) : (rows_new h0) o → keeps h0 (alloc o) (new_loc h0).
Proof.
  intros Ho h [Hframe Hrows]. unfold alloc. simpl.
  assert ((new_loc h0) (fresh (dom h))) as Hnew.
  { intros Hin. apply (is_fresh (dom h)). apply elem_of_dom.
    rewrite (Hframe _ Hin). by apply elem_of_dom. }
  split; [|by intros ? [= <-]]. split.
  - intros l Hl. rewrite lookup_insert_ne; [by apply Hframe|]. by intros <-.
  - intros l o' Hl. rewrite lookup_insert. case_decide; [by intros [= <-]|].
    by apply Hrows.
Qed.

Lemma keeps_store (l : loc) (o : obj A) :
  (new_loc h0) l → (rows_new h0) o → keeps h0 (store l o) (λ _, True).
Proof.
  intros Hnew Ho h [Hframe Hrows]. unfold store. simpl. split; [|done]. split.
  - intros l' Hl'. rewrite lookup_insert_ne; [by apply Hframe|]. by intros <-.
  - intros l' o' Hl'. rewrite lookup_insert. case_decide; [by intros [= <-]|].
    by apply Hrows.
Qed.

Lemma keeps_for_each {S X : Type} (body : S → X → prog A S) (P : S → Prop)
    (xs : list X) :
  (∀ st x, P st → keeps h0 (body st x) P) →
  ∀ st, P st → keeps h0 (for_each_st body st xs) P.
Proof.
  intros Hbody. induction xs as [|x xs IH]; intros st Hst; simpl.
  - by apply keeps_ret.
  - eapply keeps_bind; [by apply Hbody|]. intros st' Hst'. by apply IH.
Qed.

Lemma keeps_gen_list {X Y : Type} (f : X → prog A Y) (xs : list X) :
  (∀ x, keeps h0 (f x) (λ _, True)) → keeps h0 (gen_list_st f xs) (λ _, True).
Proof.
  intros Hf. induction xs as [|x xs IH]; simpl.
  - by apply keeps_ret.
  - eapply keeps_bind; [apply Hf|]. intros y _.
    eapply keeps_bind; [apply IH|]. intros ys _. by apply keeps_ret.
Qed.

Lemma keeps_py_all {X : Type} (f : X → prog A bool) (xs : list X) :
  (∀ x, keeps h0 (f x) (λ _, True)) → keeps h0 (py_all_st f xs) (λ _, True).
Proof.
  intros Hf. induction xs as [|x xs IH]; simpl.
  - by apply keeps_ret.
  - eapply keeps_bind; [apply Hf|]. intros [] _; [apply IH|by apply keeps_ret].
Qed.

(** Reading never changes the store. *)
Lemma keeps_seq_obj (l : loc) : keeps h0 (seq_obj l) (λ _, True).
Proof.
  eapply keeps_bind; [apply keeps_load|].
  intros [] _; first [by apply keeps_ret|apply keeps_lift].
Qed.

Lemma keeps_seq_items (l : loc) : keeps h0 (seq_items l) (λ _, True).
Proof. eapply keeps_bind; [apply keeps_seq_obj|]. intros. apply keeps_lift. Qed.

Lemma keeps_seq_item (l : loc) (i : nat) : keeps h0 (seq_item l i) (λ _, True).
Proof. eapply keeps_bind; [apply keeps_seq_items|]. intros. apply keeps_lift. Qed.

Lemma keeps_set_of (l : loc) : keeps h0 (set_of l) (λ _, True).
Proof. eapply keeps_bind; [apply keeps_seq_obj|]. intros. apply keeps_lift. Qed.

Lemma keeps_keys_of (l : loc) : keeps h0 (keys_of l) (λ _, True).
Proof.
  eapply keeps_bind; [apply keeps_load|].
  intros [] _; first [by apply keeps_ret|apply keeps_lift].
Qed.

Lemma keeps_nums_get (l : loc) (k : string) : keeps h0 (nums_get l k) (λ _, True).
Proof. eapply keeps_bind; [apply keeps_load|]. intros [] _; apply keeps_lift. Qed.

Lemma keeps_refs_get (l : loc) (k : string) : keeps h0 (refs_get l k) (λ _, True).
Proof. eapply keeps_bind; [apply keeps_load|]. intros [] _; apply keeps_lift. Qed.

(** An item of a list allocated by the call was allocated by the call. *)
Lemma keeps_rows_get (l : loc) (i : nat) :
  (new_loc h0) l → keeps h0 (rows_get l i) (new_loc h0).
Proof.
  intros Hl. eapply keeps_bind; [apply keeps_load|].
  intros [| | |rows] Hrows h Hh; try by split.
  split; [done|]. unfold lift, seq_get. simpl. intros r Hr.
  destruct (rows !! i) as [r'|] eqn:E; simplify_eq.
  specialize (Hrows Hl). simpl in Hrows. rewrite Forall_forall in Hrows.
  apply Hrows. by eapply list_elem_of_lookup_2.
Qed.

Lemma keeps_rows_last (l : loc) : (new_loc h0) l → keeps h0 (rows_last l) (new_loc h0).
Proof.
  intros Hl. eapply keeps_bind; [apply keeps_load|].
  intros [| | |rows] Hrows h Hh; try by split.
  split; [done|]. unfold lift, seq_last, seq_get. simpl. intros r Hr.
  destruct (rows !! (length rows - 1)) as [r'|] eqn:E; simplify_eq.
  specialize (Hrows Hl). simpl in Hrows. rewrite Forall_forall in Hrows.
  apply Hrows. by eapply list_elem_of_lookup_2.
Qed.

(** Updates go to objects allocated by the call. *)
Lemma keeps_nums_set (l : loc) (k : string) (v : A) :
  (new_loc h0) l → keeps h0 (nums_set l k v) (λ _, True).
Proof.
  intros Hl. eapply keeps_bind; [apply keeps_load|].
  intros [] _; try apply keeps_lift. by apply keeps_store.
Qed.

Lemma keeps_refs_set (l : loc) (k : string) (r : loc) :
  (new_loc h0) l → keeps h0 (refs_set l k r) (λ _, True).
Proof.
  intros Hl. eapply keeps_bind; [apply keeps_load|].
  intros [] _; try apply keeps_lift. by apply keeps_store.
Qed.

Lemma keeps_rows_append (l r : loc) :
  (new_loc h0) l → (new_loc h0) r → keeps h0 (rows_append l r) (λ _, True).
Proof.
  intros Hl Hr. eapply keeps_bind; [apply keeps_load|].
  intros [| | |rows] Hrows; try apply keeps_lift.
  apply keeps_store; [done|]. simpl. apply Forall_app. split; [by apply Hrows|].
  by constructor.
Qed.

Ltac keeps_read :=
  first [ apply keeps_lift | apply keeps_seq_obj | apply keeps_seq_items
        | apply keeps_seq_item | apply keeps_set_of | apply keeps_keys_of
        | apply keeps_nums_get | apply keeps_refs_get ].

Lemma keeps_rows_match (table keys : loc) (states : list string) :
  keeps h0 (rows_match_st table keys states) (λ _, True).
Proof.
  apply keeps_py_all. intros s.
  eapply keeps_bind; [keeps_read|]. intros row _.
  eapply keeps_bind; [keeps_read|]. intros ks' _.
  eapply keeps_bind; [keeps_read|]. intros ks _.
  by apply keeps_ret.
Qed.

Lemma keeps_validate_input (observations states start_prob trans_prob emit_prob : loc) :
  keeps h0 (validate_input_st observations states start_prob trans_prob emit_prob)
        (λ _, True).
Proof.
  unfold validate_input_st.
  repeat (eapply keeps_bind; [first [keeps_read|apply keeps_rows_match]|]; intros ? _).
  keeps_read.
Qed.

Lemma keeps_init_body (observations start_prob emit_prob V path : loc)
    (st : unit) (state : string) :
  (new_loc h0) V → (new_loc h0) path →
  keeps h0 (init_body_st observations start_prob emit_prob V path st state) (λ _, True).
Proof.
  intros HV Hpath. unfold init_body_st.
  eapply keeps_bind; [keeps_read|]. intros a _.
  eapply keeps_bind; [keeps_read|]. intros row _.
  eapply keeps_bind; [keeps_read|]. intros o _.
  eapply keeps_bind; [keeps_read|]. intros b _.
  eapply keeps_bind; [by apply keeps_rows_get|]. intros V0 HV0.
  eapply keeps_bind; [by apply keeps_nums_set|]. intros _ _.
  eapply keeps_bind; [by apply keeps_alloc|]. intros p Hp.
  by apply keeps_refs_set.
Qed.

Lemma keeps_candidate (V : loc) (t : nat) (observations trans_prob emit_prob : loc)
    (current_state prev_state : string) :
  (new_loc h0) V →
  keeps h0 (candidate_st V t observations trans_prob emit_prob current_state prev_state)
        (λ _, True).
Proof.
  intros HV. unfold candidate_st.
  eapply keeps_bind; [by apply keeps_rows_get|]. intros Vp _.
  repeat (eapply keeps_bind; [keeps_read|]; intros ? _).
  by apply keeps_ret.
Qed.

Lemma keeps_step_body (t : nat) (observations states trans_prob emit_prob : loc)
    (V path new_path : loc) (st : unit) (current_state : string) :
  (new_loc h0) V → (new_loc h0) new_path →
  keeps h0 (step_body_st t observations states trans_prob emit_prob V path new_path
                      st current_state) (λ _, True).
Proof.
  intros HV Hnew. unfold step_body_st.
  eapply keeps_bind; [keeps_read|]. intros sts _.
  eapply keeps_bind; [apply keeps_gen_list; intros; by apply keeps_candidate|].
  intros items _.
  eapply keeps_bind; [keeps_read|]. intros r _.
  eapply keeps_bind; [by apply keeps_rows_get|]. intros Vt HVt.
  eapply keeps_bind; [by apply keeps_nums_set|]. intros _ _.
  eapply keeps_bind; [keeps_read|]. intros p _.
  eapply keeps_bind; [keeps_read|]. intros old _.
  eapply keeps_bind; [by apply keeps_alloc|]. intros q Hq.
  by apply keeps_refs_set.
Qed.

Lemma keeps_time_body (observations states trans_prob emit_prob V path : loc)
    (t : nat) :
  (new_loc h0) V →
  keeps h0 (time_body_st observations states trans_prob emit_prob V path t) (new_loc h0).
Proof.
  intros HV. unfold time_body_st.
  eapply keeps_bind; [by apply keeps_alloc|]. intros row Hrow.
  eapply keeps_bind; [by apply keeps_rows_append|]. intros _ _.
  eapply keeps_bind; [by apply keeps_alloc|]. intros new_path Hnew.
  eapply keeps_bind; [keeps_read|]. intros sts _.
  eapply keeps_bind.
  { apply (keeps_for_each _ (λ _, True)); [|done].
    intros st x _. by apply keeps_step_body. }
  intros _ _. by apply keeps_ret.
Qed.

Lemma keeps_decode (observations states start_prob trans_prob emit_prob : loc) :
  keeps h0 (decode_st observations states start_prob trans_prob emit_prob) (λ _, True).
Proof.
  unfold decode_st.
  eapply keeps_bind; [by apply keeps_alloc|]. intros row Hrow.
  eapply keeps_bind; [apply keeps_alloc; simpl; by constructor|]. intros V HV.
  eapply keeps_bind; [by apply keeps_alloc|]. intros path Hpath.
  eapply keeps_bind; [keeps_read|]. intros sts _.
  eapply keeps_bind.
  { apply (keeps_for_each _ (λ _, True)); [|done].
    intros st x _. by apply keeps_init_body. }
  intros _ _.
  eapply keeps_bind; [keeps_read|]. intros obs _.
  eapply keeps_bind.
  { apply (keeps_for_each _ (new_loc h0)); [|exact Hpath].
    intros p t _. by apply keeps_time_body. }
  intros path' _.
  eapply keeps_bind; [keeps_read|]. intros sts' _.
  eapply keeps_bind.
  { apply keeps_gen_list. intros s. unfold finalist_st.
    eapply keeps_bind; [by apply keeps_rows_last|]. intros Vl _.
    eapply keeps_bind; [keeps_read|]. intros v _. by apply keeps_ret. }
  intros items _.
  eapply keeps_bind; [keeps_read|]. intros r _.
  eapply keeps_bind; [keeps_read|]. intros p _.
  by apply keeps_ret.
Qed.

End Frame.

(** ** The store model and the value model agree *)

Section Refinement.
Context {A : Type} `{PyNum A}.
Implicit Types (h hh : gmap loc (obj A)).

Lemma sim_bind {S S' T T' : Type} (m : prog A S) (r : result S')
    (k : S → prog A T) (k' : S' → result T') hh
    (Q : S → S' → gmap loc (obj A) → Prop) (Q' : T → T' → gmap loc (obj A) → Prop) :
  sim m r hh Q →
  (∀ v v' hh', Q v v' hh' → sim (k v) (k' v') hh' Q') →
  sim (m ≫= k) (r ≫= k') hh Q'.
Proof.
  unfold sim at 1 3. unfold mbind at 1, prog_bind.
  destruct (m hh) as [[v|e] hh'], r as [v'|e']; simpl; try done.
  intros HQ Hk. by apply Hk.
Qed.

Lemma sim_left {S T T' : Type} (m : prog A S) (k : S → prog A T) (r : result T')
    hh hh' (v : S) (Q : T → T' → gmap loc (obj A) → Prop) :
  m hh = (Ok v, hh') → sim (k v) r hh' Q → sim (m ≫= k) r hh Q.
Proof.
  intros Hm. unfold sim at 2. unfold mbind, prog_bind. by rewrite Hm.
Qed.

Lemma sim_run {T T' : Type} (m : prog A T) (v : T) (v' : T') hh hh'
    (Q : T → T' → gmap loc (obj A) → Prop) :
  m hh = (Ok v, hh') → Q v v' hh' → sim m (Ok v') hh Q.
Proof. intros Hm HQ. unfold sim. by rewrite Hm. Qed.

Lemma sim_weaken {T T' : Type} (m : prog A T) (r : result T') hh
    (Q Q' : T → T' → gmap loc (obj A) → Prop) :
  sim m r hh Q → (∀ v v' hh', Q v v' hh' → Q' v v' hh') → sim m r hh Q'.
Proof.
  unfold sim. destruct (m hh) as [[v|e] hh'], r as [v'|e']; simpl; auto.
Qed.

Lemma sim_lift {T : Type} (r : result T) hh : sim (lift r) r hh (same hh).
Proof. unfold sim, lift, same. by destruct r. Qed.

Lemma sim_for_each {S S' X : Type} (body_st : S → X → prog A S)
    (body : S' → X → result S') (R : S → S' → gmap loc (obj A) → Prop)
    (xs : list X) :
  (∀ st st' hh x, R st st' hh → sim (body_st st x) (body st' x) hh R) →
  ∀ st st' hh, R st st' hh →
    sim (for_each_st body_st st xs) (for_each body st' xs) hh R.
Proof.
  intros Hbody. induction xs as [|x xs IH]; intros st st' hh HR; simpl.
  - by eapply sim_run.
  - eapply sim_bind; [by apply Hbody|]. intros v v' hh' HR'. by apply IH.
Qed.

Lemma sim_gen_list {X Y : Type} (f_st : X → prog A Y) (f : X → result Y)
    (xs : list X) hh :
  (∀ x, sim (f_st x) (f x) hh (same hh)) →
  sim (gen_list_st f_st xs) (gen_list f xs) hh (same hh).
Proof.
  intros Hf. induction xs as [|x xs IH]; simpl.
  - by eapply sim_run.
  - eapply sim_bind; [apply Hf|]. intros y y' hh' [-> ->].
    eapply sim_bind; [apply IH|]. intros ys ys' hh' [-> ->].
    by eapply sim_run.
Qed.

Lemma sim_py_all {X : Type} (f_st : X → prog A bool) (f : X → result bool)
    (xs : list X) hh :
  (∀ x, sim (f_st x) (f x) hh (same hh)) →
  sim (py_all_st f_st xs) (py_all f xs) hh (same hh).
Proof.
  intros Hf. induction xs as [|x xs IH]; simpl.
  - by eapply sim_run.
  - eapply sim_bind; [apply Hf|]. intros b b' hh' [-> ->].
    destruct b'; [apply IH|by eapply sim_run].
Qed.

(** *** What the store holds *)

Lemma rows_of_extends hh hh' d t : extends hh hh' → rows_of hh d t → rows_of hh' d t.
Proof.
  intros Hext Hd k. specialize (Hd k). destruct (d !! k); [|done].
  destruct Hd as (row & Hrow & Ht). eauto.
Qed.

Lemma table_in_extends hh hh' l t : extends hh hh' → table_in hh l t → table_in hh' l t.
Proof. intros Hext (d & Hd & Hrows). exists d. eauto using rows_of_extends. Qed.

Lemma inputs_in_extends hh hh' lo ls lsp ltp lep o s sp tp ep :
  extends hh hh' →
  inputs_in hh lo ls lsp ltp lep o s sp tp ep →
  inputs_in hh' lo ls lsp ltp lep o s sp tp ep.
Proof.
  intros Hext (? & ? & ? & ? & ?). split_and!; eauto using table_in_extends.
Qed.

Lemma frame_extends h hh : frame h hh → extends h hh.
Proof.
  intros Hframe l x Hl. rewrite Hframe; [done|]. apply elem_of_dom. eauto.
Qed.

Lemma rows_of_dom hh d t : rows_of hh d t → dom d = dom t.
Proof.
  intros Hd. apply set_eq. intros k. rewrite !elem_of_dom. specialize (Hd k).
  destruct (d !! k) as [l|].
  - destruct Hd as (row & _ & ->). split; eauto.
  - rewrite Hd. split; by intros [? ?].
Qed.

(** *** Reading *)

Lemma run_load hh l x : hh !! l = Some x → load l hh = (Ok x, hh).
Proof. unfold load. by intros ->. Qed.

Lemma run_seq_obj hh l o : hh !! l = Some (OSeq o) → seq_obj l hh = (Ok o, hh).
Proof.
  intros Hl. unfold seq_obj, mbind, prog_bind. by rewrite (run_load _ _ _ Hl).
Qed.

Lemma sim_seq_items hh l o :
  hh !! l = Some (OSeq o) → sim (seq_items l) (py_items o) hh (same hh).
Proof.
  intros Hl. unfold seq_items. eapply sim_left; [by apply run_seq_obj|].
  apply sim_lift.
Qed.

Lemma run_seq_items hh l o xs :
  hh !! l = Some (OSeq o) → py_items o = Ok xs → seq_items l hh = (Ok xs, hh).
Proof.
  intros Hl Hxs. unfold seq_items, mbind, prog_bind.
  rewrite (run_seq_obj _ _ _ Hl). unfold lift. by rewrite Hxs.
Qed.

Lemma sim_seq_item hh l o xs i :
  hh !! l = Some (OSeq o) → py_items o = Ok xs →
  sim (seq_item l i) (seq_get xs i) hh (same hh).
Proof.
  intros Hl Hxs. unfold seq_item. eapply sim_left; [by eapply run_seq_items|].
  apply sim_lift.
Qed.

Lemma sim_set_of hh l o :
  hh !! l = Some (OSeq o) → sim (set_of l) (py_set o) hh (same hh).
Proof.
  intros Hl. unfold set_of. eapply sim_left; [by apply run_seq_obj|].
  apply sim_lift.
Qed.

Lemma run_keys_of_nums hh l d :
  hh !! l = Some (ONums d) → keys_of l hh = (Ok (dom d), hh).
Proof.
  intros Hl. unfold keys_of, mbind, prog_bind. by rewrite (run_load _ _ _ Hl).
Qed.

Lemma run_keys_of_refs hh l d :
  hh !! l = Some (ORefs d) → keys_of l hh = (Ok (dom d), hh).
Proof.
  intros Hl. unfold keys_of, mbind, prog_bind. by rewrite (run_load _ _ _ Hl).
Qed.

Lemma sim_nums_get hh l d k :
  hh !! l = Some (ONums d) → sim (nums_get l k) (dict_get d k) hh (same hh).
Proof.
  intros Hl. unfold nums_get. eapply sim_left; [by apply run_load|].
  apply sim_lift.
Qed.

(** Looking a row up in a table yields the object that stands for it. *)
Lemma sim_table_row hh l t k :
  table_in hh l t →
  sim (refs_get l k) (dict_get t k) hh
      (λ lr row hh', hh' = hh ∧ hh !! lr = Some (ONums row)).
Proof.
  intros (d & Hl & Hd). unfold refs_get. eapply sim_left; [by apply run_load|].
  specialize (Hd k). unfold sim, lift, dict_get. simpl.
  destruct (d !! k) as [lr|].
  - destruct Hd as (row & Hrow & ->). done.
  - by rewrite Hd.
Qed.

Lemma sim_paths_get hh l d pm k :
  hh !! l = Some (ORefs d) → paths_of hh d pm →
  sim (refs_get l k) (dict_get pm k) hh
      (λ lp p hh', hh' = hh ∧ hh !! lp = Some (OSeq (PyList p))).
Proof.
  intros Hl Hd. unfold refs_get. eapply sim_left; [by apply run_load|].
  specialize (Hd k). unfold sim, lift, dict_get. simpl.
  destruct (d !! k) as [lp|].
  - destruct Hd as (p & Hp & ->). done.
  - by rewrite Hd.
Qed.

Lemma sim_rows_get hh l rows V i :
  hh !! l = Some (ORows rows) → rows_in hh rows V →
  sim (rows_get l i) (seq_get V i) hh
      (λ lr row hh', hh' = hh ∧ hh !! lr = Some (ONums row) ∧
                     rows !! i = Some lr ∧ V !! i = Some row).
Proof.
  intros Hl Hrows. unfold rows_get. eapply sim_left; [by apply run_load|].
  unfold sim, lift, seq_get. simpl.
  destruct (rows !! i) as [lr|] eqn:E.
  - destruct (Forall2_lookup_l _ _ _ _ _ Hrows E) as (row & -> & Hrow). done.
  - apply lookup_ge_None in E. rewrite (Forall2_length _ _ _ Hrows) in E.
    apply lookup_ge_None in E. by rewrite E.
Qed.

Lemma sim_rows_last hh l rows V :
  hh !! l = Some (ORows rows) → rows_in hh rows V →
  sim (rows_last l) (seq_last V) hh
      (λ lr row hh', hh' = hh ∧ hh !! lr = Some (ONums row)).
Proof.
  intros Hl Hrows. unfold rows_last. eapply sim_left; [by apply run_load|].
  unfold sim, lift, seq_last, seq_get. simpl.
  rewrite (Forall2_length _ _ _ Hrows).
  destruct (rows !! (length V - 1)) as [lr|] eqn:E.
  - destruct (Forall2_lookup_l _ _ _ _ _ Hrows E) as (row & -> & Hrow). done.
  - apply lookup_ge_None in E. rewrite (Forall2_length _ _ _ Hrows) in E.
    apply lookup_ge_None in E. by rewrite E.
Qed.

(** *** Validation *)

Lemma sim_rows_match hh (table keys : loc) t (o : pyobj) (states : list string) :
  table_in hh table t → hh !! keys = Some (OSeq o) →
  sim (rows_match_st table keys states) (rows_match t o states) hh (same hh).
Proof.
  intros Ht Hkeys. unfold rows_match_st, rows_match. apply sim_py_all. intros s.
  eapply sim_bind; [by apply sim_table_row|]. intros lr row hh' [-> Hrow].
  eapply sim_left; [by apply run_keys_of_nums|].
  eapply sim_bind; [by apply sim_set_of|]. intros ks ks' hh' [-> ->].
  by eapply sim_run.
Qed.

Lemma sim_assert hh (c : bool) (msg : string) :
  sim (lift (py_assert c msg)) (py_assert c msg) hh (same hh).
Proof. apply sim_lift. Qed.

Lemma sim_validate_input hh lo ls lsp ltp lep o s sp tp ep :
  inputs_in hh lo ls lsp ltp lep o s sp tp ep →
  sim (validate_input_st lo ls lsp ltp lep) (validate_input o s sp tp ep) hh (same hh).
Proof.
  intros (Ho & Hs & Hsp & Htp & Hep).
  pose proof Htp as (dtp & Hdtp & Hrtp). pose proof Hep as (dep & Hdep & Hrep).
  unfold validate_input_st, validate_input.
  eapply sim_left; [by apply run_seq_obj|].
  eapply sim_bind; [apply sim_assert|]. intros _ _ hh' [_ ->].
  eapply sim_left; [by apply run_seq_obj|].
  eapply sim_bind; [apply sim_assert|]. intros _ _ hh' [_ ->].
  eapply sim_left; [by apply run_keys_of_nums|].
  eapply sim_bind; [by apply sim_set_of|]. intros ks ks' hh' [-> ->].
  eapply sim_bind; [apply sim_assert|]. intros _ _ hh' [_ ->].
  eapply sim_left; [by apply run_keys_of_refs|].
  eapply sim_bind; [by apply sim_set_of|]. intros ks ks1 hh' [-> ->].
  rewrite (rows_of_dom _ _ _ Hrtp).
  eapply sim_bind; [apply sim_assert|]. intros _ _ hh' [_ ->].
  eapply sim_bind; [by apply sim_seq_items|]. intros sts sts' hh' [-> ->].
  eapply sim_bind; [by apply sim_rows_match|]. intros b b' hh' [-> ->].
  eapply sim_bind; [apply sim_assert|]. intros _ _ hh' [_ ->].
  eapply sim_left; [by apply run_keys_of_refs|].
  eapply sim_bind; [by apply sim_set_of|]. intros ks ks2 hh' [-> ->].
  rewrite (rows_of_dom _ _ _ Hrep).
  eapply sim_bind; [apply sim_assert|]. intros _ _ hh' [_ ->].
  eapply sim_bind; [by apply sim_seq_items|]. intros sts sts2 hh' [-> ->].
  eapply sim_bind; [by apply sim_rows_match|]. intros b b2 hh' [-> ->].
  apply sim_assert.
Qed.

(** *** Writing *)

Lemma run_alloc hh (x : obj A) :
  alloc x hh = (Ok (fresh (dom hh)), <[fresh (dom hh) := x]> hh).
Proof. reflexivity. Qed.

Lemma fresh_lookup hh : hh !! fresh (dom hh) = None.
Proof. apply not_elem_of_dom. apply is_fresh. Qed.

Lemma run_nums_set hh l d k v :
  hh !! l = Some (ONums d) →
  nums_set l k v hh = (Ok tt, <[l := ONums (<[k := v]> d)]> hh).
Proof.
  intros Hl. unfold nums_set, mbind, prog_bind. by rewrite (run_load _ _ _ Hl).
Qed.

Lemma run_refs_set hh l d k r :
  hh !! l = Some (ORefs d) →
  refs_set l k r hh = (Ok tt, <[l := ORefs (<[k := r]> d)]> hh).
Proof.
  intros Hl. unfold refs_set, mbind, prog_bind. by rewrite (run_load _ _ _ Hl).
Qed.

Lemma run_rows_append hh l rows r :
  hh !! l = Some (ORows rows) →
  rows_append l r hh = (Ok tt, <[l := ORows (rows ++ [r])]> hh).
Proof.
  intros Hl. unfold rows_append, mbind, prog_bind. by rewrite (run_load _ _ _ Hl).
Qed.

(** An update at [w] leaves the objects of another kind, and the objects
    at other places, as they were. *)
Lemma rows_in_insert hh rows V w (x : obj A) :
  rows_in hh rows V → (∀ row, hh !! w ≠ Some (ONums row)) →
  rows_in (<[w := x]> hh) rows V.
Proof.
  intros Hrows Hw. eapply Forall2_impl; [exact Hrows|]. simpl.
  intros l row Hl. rewrite lookup_insert_ne; [done|]. intros <-. by eapply Hw.
Qed.

Lemma rows_in_update hh rows V i w d :
  rows_in hh rows V → NoDup rows → rows !! i = Some w →
  rows_in (<[w := ONums d]> hh) rows (<[i := d]> V).
Proof.
  intros Hrows Hnd Hi. apply Forall2_same_length_lookup. split.
  - rewrite length_insert. by eapply Forall2_length.
  - intros j l row Hl Hrow. destruct (decide (i = j)) as [<-|Hne].
    + assert (l = w) as -> by congruence.
      rewrite list_lookup_insert_eq in Hrow
        by (rewrite <- (Forall2_length _ _ _ Hrows); by eapply lookup_lt_Some).
      rewrite lookup_insert_eq. congruence.
    + rewrite list_lookup_insert_ne in Hrow by done.
      rewrite lookup_insert_ne.
      * by eapply (Forall2_lookup_lr _ _ _ _ _ _ Hrows).
      * intros <-. apply Hne. by eapply NoDup_lookup.
Qed.

Lemma paths_of_insert hh d pm w (x : obj A) :
  paths_of hh d pm → (∀ o, hh !! w ≠ Some (OSeq o)) →
  paths_of (<[w := x]> hh) d pm.
Proof.
  intros Hd Hw k. specialize (Hd k). destruct (d !! k) as [l|]; [|done].
  destruct Hd as (p & Hp & Hpm). exists p. split; [|done].
  rewrite lookup_insert_ne; [done|]. intros <-. by eapply Hw.
Qed.

Lemma paths_of_update hh d pm lp k lq q :
  paths_of hh d pm → (∀ o, hh !! lp ≠ Some (OSeq o)) →
  hh !! lq = Some (OSeq (PyList q)) →
  paths_of (<[lp := ORefs (<[k := lq]> d)]> hh) (<[k := lq]> d) (<[k := q]> pm).
Proof.
  intros Hd Hlp Hlq k'. destruct (decide (k = k')) as [<-|Hne].
  - rewrite !lookup_insert_eq. exists q. split; [|done].
    rewrite lookup_insert_ne; [done|]. intros <-. by eapply Hlp.
  - rewrite !(lookup_insert_ne _ k k') by done.
    specialize (Hd k'). destruct (d !! k') as [l|]; [|done].
    destruct Hd as (p & Hp & Hpm). exists p. split; [|done].
    rewrite lookup_insert_ne; [done|]. intros <-. by eapply Hlp.
Qed.

Lemma frame_insert h hh w (x : obj A) :
  frame h hh → w ∉ dom h → frame h (<[w := x]> hh).
Proof.
  intros Hframe Hw l Hl. rewrite lookup_insert_ne; [by apply Hframe|]. by intros <-.
Qed.

Lemma frame_fresh h hh : frame h hh → fresh (dom hh) ∉ dom h.
Proof.
  intros Hframe Hin. apply (is_fresh (dom hh)). apply elem_of_dom.
  rewrite (Hframe _ Hin). by apply elem_of_dom.
Qed.

(** *** The tables built by the call *)

Lemma paths_of_extends_off hh hh' w d pm :
  paths_of hh d pm → (∀ o, hh !! w ≠ Some (OSeq o)) → extends_off w hh hh' →
  paths_of hh' d pm.
Proof.
  intros Hd Hw Hext k. specialize (Hd k). destruct (d !! k) as [l|]; [|done].
  destruct Hd as (p & Hp & Hpm). exists p. split; [|done].
  apply Hext; [|done]. intros ->. by eapply Hw.
Qed.

Lemma local_nums_set h lV lp hh V pm rows i l0 V0 k v :
  local_in h lV lp hh (V, pm) →
  hh !! lV = Some (ORows rows) → rows !! i = Some l0 → hh !! l0 = Some (ONums V0) →
  ∃ hh', nums_set l0 k v hh = (Ok tt, hh') ∧
         local_in h lV lp hh' (<[i := <[k := v]> V0]> V, pm) ∧
         extends_off l0 hh hh'.
Proof.
  intros (Hframe & HlV & Hlp & rows' & d & HV & Hnew & Hnd & Hrows & Hd & Hpaths)
         HV' Hi Hl0.
  assert (rows' = rows) as -> by congruence. simpl in *.
  exists (<[l0 := ONums (<[k := v]> V0)]> hh).
  split; [by apply run_nums_set|]. split.
  - assert (l0 ∉ dom h) as Hl0new.
    { rewrite Forall_forall in Hnew. apply Hnew. by eapply list_elem_of_lookup_2. }
    split_and!; [by apply frame_insert|done|done|].
    exists rows, d. simpl. split_and!; try done.
    + rewrite lookup_insert_ne; [done|]. intros <-. congruence.
    + by apply rows_in_update.
    + rewrite lookup_insert_ne; [done|]. intros <-. congruence.
    + apply paths_of_insert; [done|]. intros o'. congruence.
  - intros l x Hne Hl. by rewrite lookup_insert_ne.
Qed.

Lemma local_path_set h lV lp hh V pm k q :
  local_in h lV lp hh (V, pm) →
  ∃ hh', (alloc (OSeq (PyList q)) ≫= λ lq, refs_set lp k lq) hh = (Ok tt, hh') ∧
         local_in h lV lp hh' (V, <[k := q]> pm) ∧
         extends_off lp hh hh'.
Proof.
  intros (Hframe & HlV & Hlp & rows & d & HV & Hnew & Hnd & Hrows & Hd & Hpaths).
  simpl in *.
  set (lq := fresh (dom hh)).
  set (hh1 := <[lq := OSeq (PyList q)]> hh).
  pose proof (fresh_lookup hh) as Hfresh. fold lq in Hfresh.
  assert (hh1 !! lp = Some (ORefs d)) as Hd1.
  { unfold hh1. rewrite lookup_insert_ne; [done|]. intros <-. congruence. }
  exists (<[lp := ORefs (<[k := lq]> d)]> hh1). split.
  { unfold mbind, prog_bind. rewrite run_alloc. fold lq hh1.
    by apply run_refs_set. }
  split.
  - split_and!; [|done|done|].
    { apply frame_insert; [|done]. apply frame_insert; [done|].
      by apply frame_fresh. }
    exists rows, (<[k := lq]> d). simpl. split_and!; try done.
    + rewrite lookup_insert_ne by (intros <-; congruence).
      unfold hh1. rewrite lookup_insert_ne; [done|]. intros <-. congruence.
    + apply rows_in_insert; [|intros row; congruence].
      apply rows_in_insert; [done|]. intros row. fold lq. congruence.
    + by rewrite lookup_insert_eq.
    + apply paths_of_update.
      * apply paths_of_insert; [done|]. intros o'. fold lq. congruence.
      * intros o'. congruence.
      * unfold hh1. by rewrite lookup_insert_eq.
  - intros l x Hne Hl. rewrite lookup_insert_ne by done.
    unfold hh1. rewrite lookup_insert_ne; [done|]. intros <-. congruence.
Qed.

Lemma result_bind_assoc {S T U : Type} (m : result S) (f : S → result T)
    (g : T → result U) :
  (m ≫= f) ≫= g = m ≫= (λ x, f x ≫= g).
Proof. by destruct m. Qed.

Lemma result_bind_ret {T : Type} (m : result T) : m ≫= Ok = m.
Proof. by destruct m. Qed.

(** *** The loops *)

Section Loops.
Variable h : gmap loc (obj A).
Variables (lo ls lsp ltp lep : loc) (o s : pyobj).
Variables (sp : gmap string A) (tp ep : gmap string (gmap string A)).
Variables (obs sts : list string).
Hypothesis Hin : inputs_in h lo ls lsp ltp lep o s sp tp ep.
Hypothesis Hobs : py_items o = Ok obs.
Hypothesis Hsts : py_items s = Ok sts.

Lemma inputs_at hh : frame h hh → inputs_in hh lo ls lsp ltp lep o s sp tp ep.
Proof.
  intros Hframe. eapply inputs_in_extends; [|exact Hin]. by apply frame_extends.
Qed.

Lemma sim_init_body (lV lp : loc) hh (st : trellis) (u : unit) (state : string) :
  local_in h lV lp hh st →
  sim (init_body_st lo lsp lep lV lp u state) (init_body obs sp ep st state) hh
      (λ _ st' hh', local_in h lV lp hh' st').
Proof.
  intros Hloc. destruct st as [V pm].
  pose proof Hloc as (Hframe & _ & _ & rows & d & HV & _ & _ & Hrows & Hd & Hpaths).
  pose proof (inputs_at hh Hframe) as (Ho & Hs & Hsp & Htp & Hep).
  simpl in *. unfold init_body_st, init_body.
  eapply sim_bind; [by apply sim_nums_get|]. intros a a' hh' [-> ->].
  eapply sim_bind; [by apply sim_table_row|]. intros lr row hh' [-> Hrow].
  eapply sim_bind; [by eapply sim_seq_item|]. intros o0 o0' hh' [-> ->].
  eapply sim_bind; [by apply sim_nums_get|]. intros b b' hh' [-> ->].
  eapply sim_bind; [by eapply sim_rows_get|]. intros l0 V0 hh' (-> & Hl0 & Hi & HVi).
  destruct (local_nums_set h lV lp hh V pm rows 0 l0 V0 state (num_mul a' b')
              Hloc HV Hi Hl0) as (hh1 & Hrun1 & Hloc1 & _).
  eapply sim_left; [exact Hrun1|].
  destruct (local_path_set h lV lp hh1 _ pm state [state] Hloc1)
    as (hh2 & Hrun2 & Hloc2 & _).
  eapply sim_run; [exact Hrun2|]. exact Hloc2.
Qed.

Lemma sim_candidate (lV lp : loc) hh (st : trellis) (t : nat) (c prev : string) :
  local_in h lV lp hh st →
  sim (candidate_st lV t lo ltp lep c prev) (candidate st.1 t obs tp ep c prev) hh
      (same hh).
Proof.
  intros Hloc. destruct st as [V pm].
  pose proof Hloc as (Hframe & _ & _ & rows & d & HV & _ & _ & Hrows & Hd & Hpaths).
  pose proof (inputs_at hh Hframe) as (Ho & Hs & Hsp & Htp & Hep).
  simpl in *. unfold candidate_st, candidate.
  eapply sim_bind; [by eapply sim_rows_get|]. intros lv Vp hh' (-> & Hlv & _ & _).
  eapply sim_bind; [by apply sim_nums_get|]. intros v v' hh' [-> ->].
  eapply sim_bind; [by apply sim_table_row|]. intros ltr trow hh' [-> Htrow].
  eapply sim_bind; [by apply sim_nums_get|]. intros a a' hh' [-> ->].
  eapply sim_bind; [by apply sim_table_row|]. intros ler erow hh' [-> Herow].
  eapply sim_bind; [by eapply sim_seq_item|]. intros o0 o0' hh' [-> ->].
  eapply sim_bind; [by apply sim_nums_get|]. intros b b' hh' [-> ->].
  by eapply sim_run.
Qed.

Lemma sim_step_body (t : nat) (lV lpath lnp : loc) (pm_old : gmap string (list string))
    hh (st : trellis) (u : unit) (c : string) :
  inner_in h lV lnp lpath pm_old hh st →
  sim (step_body_st t lo ls ltp lep lV lpath lnp u c)
      (step_body t obs sts tp ep pm_old st c) hh
      (λ _ st' hh', inner_in h lV lnp lpath pm_old hh' st').
Proof.
  intros (Hloc & Hne & d_old & Hold & Hpold). destruct st as [V npm].
  pose proof Hloc as (Hframe & _ & _ & rows & d & HV & _ & _ & Hrows & Hd & Hpaths).
  pose proof (inputs_at hh Hframe) as (Ho & Hs & Hsp & Htp & Hep).
  simpl in *. unfold step_body_st, step_body, best_prev. simpl.
  rewrite result_bind_assoc.
  eapply sim_left; [by eapply run_seq_items|].
  eapply sim_bind.
  { apply sim_gen_list. intros prev. by apply (sim_candidate lV lnp hh (V, npm)). }
  intros items items' hh' [-> ->].
  eapply sim_bind; [apply sim_lift|]. intros r [max_prob prev_st] hh' [-> ->].
  simpl.
  eapply sim_bind; [by eapply sim_rows_get|]. intros lt Vt hh' (-> & Hlt & Hi & HVi).
  destruct (local_nums_set h lV lnp hh V npm rows t lt Vt c max_prob
              Hloc HV Hi Hlt) as (hh1 & Hrun1 & Hloc1 & Hext1).
  eapply sim_left; [exact Hrun1|].
  assert (hh1 !! lpath = Some (ORefs d_old)) as Hold1.
  { apply Hext1; [|done]. intros ->. congruence. }
  assert (paths_of hh1 d_old pm_old) as Hpold1.
  { eapply paths_of_extends_off; [exact Hpold| |exact Hext1]. intros o'. congruence. }
  eapply sim_bind; [by eapply sim_paths_get|]. intros lpp pp hh' [-> Hlpp].
  eapply sim_left; [by eapply (run_seq_items _ _ (PyList pp))|].
  destruct (local_path_set h lV lnp hh1 _ npm c (pp ++ [c]) Hloc1)
    as (hh2 & Hrun2 & Hloc2 & Hext2).
  eapply sim_run; [exact Hrun2|].
  split_and!; [exact Hloc2|done|].
  exists d_old. split.
  - by apply Hext2.
  - eapply paths_of_extends_off; [exact Hpold1| |exact Hext2].
    intros o'. destruct Hloc1 as (_ & _ & _ & ? & ? & _ & _ & _ & _ & Hd1 & _).
    congruence.
Qed.

Lemma rows_in_fresh hh rows V (x : obj A) :
  rows_in hh rows V → rows_in (<[fresh (dom hh) := x]> hh) rows V.
Proof.
  intros Hrows. apply rows_in_insert; [done|]. intros row.
  by rewrite fresh_lookup.
Qed.

Lemma paths_of_fresh hh d pm (x : obj A) :
  paths_of hh d pm → paths_of (<[fresh (dom hh) := x]> hh) d pm.
Proof.
  intros Hd. apply paths_of_insert; [done|]. intros o'. by rewrite fresh_lookup.
Qed.

Lemma lookup_fresh_ne hh l (x y : obj A) :
  hh !! l = Some x → <[fresh (dom hh) := y]> hh !! l = Some x.
Proof.
  intros Hl. rewrite lookup_insert_ne; [done|]. intros <-.
  by rewrite fresh_lookup in Hl.
Qed.

Lemma sim_time_body (lV lpath : loc) hh (st : trellis) (t : nat) :
  local_in h lV lpath hh st →
  sim (time_body_st lo ls ltp lep lV lpath t) (time_body obs sts tp ep st t) hh
      (λ lnp st' hh', local_in h lV lnp hh' st').
Proof.
  intros Hloc. destruct st as [V pm].
  pose proof Hloc as (Hframe & HlV & Hlp & rows & d & HV & Hnew & Hnd & Hrows & Hd & Hpaths).
  simpl in *. unfold time_body_st, time_body. simpl.
  rewrite <- (result_bind_ret (for_each _ _ _)).
  set (lrow := fresh (dom hh)).
  set (hh1 := <[lrow := ONums ∅]> hh).
  eapply sim_left; [apply run_alloc|]. fold lrow hh1.
  assert (hh1 !! lV = Some (ORows rows)) as HV1 by (by apply lookup_fresh_ne).
  set (hh2 := <[lV := ORows (rows ++ [lrow])]> hh1).
  eapply sim_left; [by apply run_rows_append|]. fold hh2.
  set (lnp := fresh (dom hh2)).
  set (hh3 := <[lnp := ORefs ∅]> hh2).
  eapply sim_left; [apply run_alloc|]. fold lnp hh3.
  assert (frame h hh1) as Hframe1.
  { apply frame_insert; [done|]. by apply frame_fresh. }
  assert (frame h hh2) as Hframe2 by (by apply frame_insert).
  assert (frame h hh3) as Hframe3.
  { apply frame_insert; [done|]. by apply frame_fresh. }
  pose proof (inputs_at hh3 Hframe3) as (Ho & Hs & Hsp & Htp & Hep).
  eapply sim_left; [by eapply run_seq_items|].
  assert (lrow ≠ lV) as HrowV.
  { intros E. pose proof (fresh_lookup hh) as Hf. fold lrow in Hf. congruence. }
  assert (hh2 !! lrow = Some (ONums ∅)) as Hrow2.
  { unfold hh2. rewrite lookup_insert_ne by done. unfold hh1.
    by rewrite lookup_insert_eq. }
  assert (hh2 !! lpath = Some (ORefs d)) as Hd2.
  { unfold hh2. rewrite lookup_insert_ne by (intros <-; congruence).
    by apply lookup_fresh_ne. }
  assert (inner_in h lV lnp lpath pm hh3 ((V ++ [∅])%list, ∅)) as Hinner.
  { split_and!.
    - split_and!; [done|done|by apply frame_fresh|].
      exists (rows ++ [lrow])%list, ∅. simpl. split_and!.
      + apply lookup_fresh_ne. unfold hh2. by rewrite lookup_insert_eq.
      + apply Forall_app. split; [done|]. constructor; [|done]. by apply frame_fresh.
      + apply NoDup_app. split_and!; [done| |apply NoDup_singleton].
        intros l Hl Hl'. apply list_elem_of_singleton in Hl' as ->.
        apply list_elem_of_lookup in Hl as [i Hi].
        destruct (Forall2_lookup_l _ _ _ _ _ Hrows Hi) as (row & _ & Hrow).
        pose proof (fresh_lookup hh) as Hf. fold lrow in Hf. congruence.
      + apply rows_in_fresh. apply Forall2_app.
        * apply rows_in_insert; [by apply rows_in_fresh|]. intros row. congruence.
        * constructor; [|constructor]. done.
      + unfold hh3. by rewrite lookup_insert_eq.
      + intros k. by rewrite !lookup_empty.
    - intros E. pose proof (fresh_lookup hh2) as Hf. fold lnp in Hf. congruence.
    - exists d. split; [by apply lookup_fresh_ne|].
      apply paths_of_fresh.
      apply paths_of_insert; [by apply paths_of_fresh|]. intros o'. congruence. }
  eapply sim_bind.
  { apply (sim_for_each _ _
             (λ (_ : unit) st' hh', inner_in h lV lnp lpath pm hh' st')); [|exact Hinner].
    intros u st' hh' x Hst'. by apply sim_step_body. }
  intros u0 st' hh' (Hloc' & _). by eapply sim_run.
Qed.

Lemma sim_finalist (lV lp : loc) hh (st : trellis) (state : string) :
  local_in h lV lp hh st →
  sim (finalist_st lV state) (finalist st.1 state) hh (same hh).
Proof.
  intros (Hframe & _ & _ & rows & d & HV & _ & _ & Hrows & Hd & Hpaths).
  unfold finalist_st, finalist.
  eapply sim_bind; [by eapply sim_rows_last|]. intros lv Vl hh' [-> Hlv].
  eapply sim_bind; [by apply sim_nums_get|]. intros v v' hh' [-> ->].
  by eapply sim_run.
Qed.

(** The decoder of the store model ends as the decoder of the value model
    does, and the list object it returns holds the returned path. *)
Lemma sim_decode :
  sim (decode_st lo ls lsp ltp lep) (decode o s sp tp ep) h
      (λ r r' hh', r.1 = r'.1 ∧ hh' !! r.2 = Some (OSeq (PyList r'.2)) ∧ frame h hh').
Proof.
  unfold decode_st, decode. rewrite Hsts, Hobs. simpl.
  set (l0 := fresh (dom h)).
  set (h1 := <[l0 := ONums ∅]> h).
  eapply sim_left; [apply run_alloc|]. fold l0 h1.
  set (lV := fresh (dom h1)).
  set (h2 := <[lV := ORows [l0]]> h1).
  eapply sim_left; [apply run_alloc|]. fold lV h2.
  set (lp := fresh (dom h2)).
  set (h3 := <[lp := ORefs ∅]> h2).
  eapply sim_left; [apply run_alloc|]. fold lp h3.
  assert (frame h h) as Hframe0 by done.
  assert (frame h h1) as Hframe1.
  { apply frame_insert; [done|]. by apply frame_fresh. }
  assert (frame h h2) as Hframe2.
  { apply frame_insert; [done|]. by apply frame_fresh. }
  assert (frame h h3) as Hframe3.
  { apply frame_insert; [done|]. by apply frame_fresh. }
  assert (h1 !! l0 = Some (ONums ∅)) as Hl0 by (unfold h1; by rewrite lookup_insert_eq).
  assert (h2 !! lV = Some (ORows [l0])) as HlV by (unfold h2; by rewrite lookup_insert_eq).
  assert (local_in h lV lp h3 ([∅], ∅)) as Hloc.
  { split_and!; [done|by apply frame_fresh|by apply frame_fresh|].
    exists [l0], ∅. simpl. split_and!.
    - by apply lookup_fresh_ne.
    - constructor; [|done]. by apply frame_fresh.
    - apply NoDup_singleton.
    - constructor; [|constructor]. apply lookup_fresh_ne. by apply lookup_fresh_ne.
    - unfold h3. by rewrite lookup_insert_eq.
    - intros k. by rewrite !lookup_empty. }
  pose proof (inputs_at h3 Hframe3) as (Ho & Hs & Hsp & Htp & Hep).
  eapply sim_left; [by eapply run_seq_items|].
  eapply sim_bind.
  { apply (sim_for_each _ _ (λ (_ : unit) st' hh', local_in h lV lp hh' st'));
      [|exact Hloc].
    intros u st' hh' x Hst'. by apply sim_init_body. }
  intros u0 st0 hh0 Hloc0. simpl in Hloc0.
  pose proof (inputs_at hh0 (proj1 Hloc0)) as (Ho0 & Hs0 & _).
  eapply sim_left; [by eapply run_seq_items|].
  eapply sim_bind.
  { apply (sim_for_each _ _ (λ lpath st' hh', local_in h lV lpath hh' st'));
      [|exact Hloc0].
    intros lpath st' hh' t Hst'. by apply sim_time_body. }
  intros lpath [V pm] hh1 Hloc1.
  pose proof (inputs_at hh1 (proj1 Hloc1)) as (Ho1 & Hs1 & _).
  eapply sim_left; [by eapply run_seq_items|].
  unfold best_final. rewrite result_bind_assoc.
  eapply sim_bind.
  { apply sim_gen_list. intros state. by apply (sim_finalist lV lpath hh1 (V, pm)). }
  intros items items' hh' [-> ->].
  eapply sim_bind; [apply sim_lift|]. intros r [max_prob final_state] hh' [-> ->].
  simpl.
  pose proof Hloc1 as (Hframe' & _ & _ & rows & d & _ & _ & _ & _ & Hd & Hpaths).
  eapply sim_bind; [by eapply sim_paths_get|]. intros lq q hh' [-> Hlq].
  by eapply sim_run.
Qed.

End Loops.

Lemma sim_viterbi h lo ls lsp ltp lep o s sp tp ep :
  inputs_in h lo ls lsp ltp lep o s sp tp ep →
  sim (viterbi_st lo ls lsp ltp lep) (viterbi o s sp tp ep) h
      (λ r r' hh', r.1 = r'.1 ∧ hh' !! r.2 = Some (OSeq (PyList r'.2))).
Proof.
  intros Hin. pose proof (sim_validate_input _ _ _ _ _ _ _ _ _ _ _ Hin) as Hval.
  unfold viterbi_st, viterbi.
  destruct (validate_input o s sp tp ep) as [[]|e] eqn:Hv.
  - apply validate_input_Ok in Hv as (Ho & Hs & _).
    eapply sim_bind; [exact Hval|]. intros _ _ hh' [_ ->].
    eapply sim_weaken.
    + eapply sim_decode; eauto using py_items_sequence.
    + intros r r' hh' (? & ? & _). done.
  - unfold sim in *. unfold mbind at 1, prog_bind.
    by destruct (validate_input_st lo ls lsp ltp lep h) as [[v|e'] hh'].
Qed.

(** The store model is the value model with its objects held by
    reference: run on a store that holds the five arguments, [viterbi_st]
    raises the exception [viterbi] raises, or returns the probability
    [viterbi] returns together with a new list object holding the path
    [viterbi] returns. *)
Theorem viterbi_st_refines h lo ls lsp ltp lep o s sp tp ep :
  inputs_in h lo ls lsp ltp lep o s sp tp ep →
  match viterbi_st lo ls lsp ltp lep h, viterbi o s sp tp ep with
  | (Ok (max_prob, l), h'), Ok (max_prob', best_path) =>
      max_prob = max_prob' ∧ h' !! l = Some (OSeq (PyList best_path))
  | (Raise e, _), Raise e' => e = e'
  | _, _ => False
  end.
Proof.
  intros Hin. pose proof (sim_viterbi _ _ _ _ _ _ _ _ _ _ _ Hin) as Hsim.
  unfold sim in Hsim.
  destruct (viterbi_st lo ls lsp ltp lep h) as [[[p l]|e] h'],
           (viterbi o s sp tp ep) as [[p' q]|e']; done.
Qed.

End Refinement.

(** ** Consistency of the result, and every outcome *)

Section PathResults.
Context {A : Type} `{PyNum A}.
Implicit Types (start_prob : gmap string A) (trans_prob emit_prob : gmap string (gmap string A)).

Lemma path_at_init start_prob trans_prob emit_prob obs sts s o a b :
  s ∈ sts → obs !! 0 = Some o →
  start_prob !! s = Some a → table_at emit_prob s o = Some b →
  path_at start_prob trans_prob emit_prob obs sts 0 s (num_mul a b) [s].
Proof.
  intros Hs Ho Ha Hb.
  assert (take 1 obs = [o]) as Htake.
  { destruct obs as [|o' obs']; simplify_eq/=. by rewrite take_0. }
  unfold path_at. rewrite Htake. split_and!.
  - split; [done|]. by constructor.
  - done.
  - simpl. by rewrite Ha, Hb.
Qed.

Lemma path_at_step start_prob trans_prob emit_prob obs sts
    t o c row pm items max_prob prev_st p :
  obs !! S t = Some o → c ∈ sts →
  layer sts (path_at start_prob trans_prob emit_prob obs sts) t row pm →
  candidates sts trans_prob emit_prob row o c items →
  py_max items = Ok (max_prob, prev_st) →
  pm !! prev_st = Some p →
  path_at start_prob trans_prob emit_prob obs sts (S t) c max_prob (p ++ [c]).
Proof.
  intros Ho Hc Hlayer Hitems Hmax Hp.
  pose proof (lookup_lt_Some _ _ _ Ho) as Hlt.
  assert (length (take (S t) obs) = S t) as Hlen by (rewrite length_take; lia).
  unfold path_at. rewrite (take_S_r _ _ _ Ho).
  pose proof (py_max_elem _ _ Hmax) as Hin.
  apply list_elem_of_lookup in Hin as [i Hi].
  destruct (Forall2_lookup_r _ _ _ _ _ Hitems Hi)
    as (p0 & Hp0 & (v & a & b & Hv & Ha & Hb & [= -> ->])).
  apply list_elem_of_lookup_2 in Hp0.
  destruct (Hlayer p0 Hp0) as (v' & p' & Hv' & Hp' & ([Hpl Hps] & Hplast & Hpprob)).
  simplify_eq.
  split_and!.
  - split; [rewrite length_app; simpl; lia|].
    apply Forall_app. split; [done|]. by constructor.
  - by rewrite last_snoc.
  - rewrite (seq_prob_snoc _ _ _ _ _ p0) by (done || lia).
    rewrite Hpprob. simpl. by rewrite Ha, Hb.
Qed.

(** For every input that passes validation, and whatever the sign or the
    size of the table entries, a result returned by [viterbi] is
    consistent: the path is a sequence of states, one per observation, and
    the probability is the product
    [start_prob[s0] * emit_prob[s0][o0] * trans_prob[s0][s1] * emit_prob[s1][o1] * ...]
    along that path, multiplied from left to right in the number type of
    the tables; with at least one state and one observation the call does
    return. *)
Theorem viterbi_path_probability (observations states : pyobj)
    start_prob trans_prob emit_prob :
  validate_input observations states start_prob trans_prob emit_prob = Ok tt →
  (∀ max_prob best_path,
     viterbi observations states start_prob trans_prob emit_prob
     = Ok (max_prob, best_path) →
     state_seqs (items_of states) (length (items_of observations)) best_path ∧
     seq_prob start_prob trans_prob emit_prob best_path (items_of observations)
     = Some max_prob) ∧
  (items_of observations ≠ [] → items_of states ≠ [] →
   ∃ max_prob best_path,
     viterbi observations states start_prob trans_prob emit_prob
     = Ok (max_prob, best_path)).
Proof.
  intros Hv. apply validate_input_Ok in Hv.
  destruct (decide (items_of states = [])) as [Hnil|Hsts].
  { pose proof Hv as (Ho & Hs & _).
    rewrite (viterbi_accepted _ _ _ _ _ Hv), (decode_no_state _ _ _ _ _ Ho Hs Hnil).
    split; [done|]. by intros _ []. }
  destruct (decide (items_of observations = [])) as [Hnil|Hobs].
  { rewrite (viterbi_accepted _ _ _ _ _ Hv), (decode_no_observation _ _ _ _ _ Hv Hnil Hsts).
    split; [done|]. by intros []. }
  destruct (viterbi_layers
              (path_at start_prob trans_prob emit_prob
                       (items_of observations) (items_of states))
              _ _ _ _ _ Hv Hobs Hsts)
    as (row & pm & items & max_prob & final_state & p & Hrun & Hlayer & Hitems & Hmax & Hp).
  - intros s o a b. apply path_at_init.
  - intros t o c row pm items max_prob prev_st p. apply path_at_step.
  - rewrite Hrun. split; [|by eauto].
    intros ?? [= <- <-].
    assert (0 < length (items_of observations)) as Hlen.
    { destruct (items_of observations); [done|simpl; lia]. }
    destruct (final_layer _ _ _ _ _ _ _ _ _ Hlayer Hitems Hmax Hp)
      as (_ & _ & (Hseq & _ & Hprob)).
    replace (S (length (items_of observations) - 1))
      with (length (items_of observations)) in * by lia.
    rewrite take_ge in Hprob by lia. done.
Qed.

(** Every way a call of [viterbi] can end.  It returns exactly on the
    accepted inputs with at least one state and one observation; it raises
    [AssertionError], with one of the seven messages, exactly on the inputs
    that validation rejects; an accepted input without states ends in the
    [ValueError] of [max] on line 66, and an accepted input with states but
    without observations in the [IndexError] of [observations[0]] on line
    35.  No [KeyError] and no [TypeError] leaves the call: a missing key is
    always found by validation first. *)
Theorem viterbi_outcomes (observations states : pyobj)
    start_prob trans_prob emit_prob :
  match viterbi observations states start_prob trans_prob emit_prob with
  | Ok _ =>
      accepted observations states start_prob trans_prob emit_prob ∧
      items_of states ≠ [] ∧ items_of observations ≠ []
  | Raise (AssertionError msg) =>
      ¬ accepted observations states start_prob trans_prob emit_prob ∧
      msg ∈ validation_messages
  | Raise ValueError =>
      accepted observations states start_prob trans_prob emit_prob ∧
      items_of states = []
  | Raise IndexError =>
      accepted observations states start_prob trans_prob emit_prob ∧
      items_of states ≠ [] ∧ items_of observations = []
  | Raise (KeyError _) | Raise TypeError => False
  end.
Proof.
  destruct (decide (accepted observations states start_prob trans_prob emit_prob))
    as [Hacc|Hrej].
  - rewrite (viterbi_accepted _ _ _ _ _ Hacc).
    pose proof Hacc as (Ho & Hs & _).
    destruct (decide (items_of states = [])) as [Hnil|Hsts].
    { by rewrite (decode_no_state _ _ _ _ _ Ho Hs Hnil). }
    destruct (decide (items_of observations = [])) as [Hnil|Hobs].
    { by rewrite (decode_no_observation _ _ _ _ _ Hacc Hnil Hsts). }
    destruct (viterbi_layers (λ _ _ _ _, True) _ _ _ _ _ Hacc Hobs Hsts)
      as (row & pm & items & max_prob & final_state & p & Hrun & _); [done..|].
    rewrite (viterbi_accepted _ _ _ _ _ Hacc) in Hrun. by rewrite Hrun.
  - pose proof (validate_input_cases observations states start_prob trans_prob emit_prob)
      as (C1 & C2 & C3 & C4 & C5 & C6 & C7 & _).
    cbv zeta in *. unfold viterbi, validation_messages.
    destruct (decide (check_observations observations)) as [H1|H1];
      [|rewrite (C1 H1); simpl; split; [done|set_solver]].
    destruct (decide (check_states states)) as [H2|H2];
      [|rewrite (C2 H1 H2); simpl; split; [done|set_solver]].
    destruct (decide (check_start states start_prob)) as [H3|H3];
      [|rewrite (C3 H1 H2 H3); simpl; split; [done|set_solver]].
    destruct (decide (check_trans states trans_prob)) as [H4|H4];
      [|rewrite (C4 H1 H2 H3 H4); simpl; split; [done|set_solver]].
    destruct (decide (check_trans_rows states trans_prob)) as [H5|H5];
      [|rewrite (C5 H1 H2 H3 H4 H5); simpl; split; [done|set_solver]].
    destruct (decide (check_emit states emit_prob)) as [H6|H6];
      [|rewrite (C6 H1 H2 H3 H4 H5 H6); simpl; split; [done|set_solver]].
    destruct (decide (check_emit_rows observations states emit_prob)) as [H7|H7];
      [|rewrite (C7 H1 H2 H3 H4 H5 H6 H7); simpl; split; [done|set_solver]].
    destruct Hrej. done.
Qed.

(** The emission row of a state must hold exactly the symbols that are
    observed, no fewer and no more: a model that passes the first six
    checks is rejected, with the message of the seventh, as soon as one
    row has an entry for a symbol that does not occur in [observations]. *)
Theorem unobserved_symbol_rejected (observations states : pyobj)
    start_prob trans_prob emit_prob (state symbol : string) (row : gmap string A) :
  check_observations observations → check_states states →
  check_start states start_prob → check_trans states trans_prob →
  check_trans_rows states trans_prob → check_emit states emit_prob →
  state ∈ items_of states → emit_prob !! state = Some row →
  is_Some (row !! symbol) → symbol ∉ items_of observations →
  viterbi observations states start_prob trans_prob emit_prob
  = Raise (AssertionError msg_emit_rows).
Proof.
  intros H1 H2 H3 H4 H5 H6 Hstate Hrow Hsym Hnot.
  pose proof (validate_input_cases observations states start_prob trans_prob emit_prob)
    as (_ & _ & _ & _ & _ & _ & C7 & _).
  cbv zeta in C7. apply viterbi_rejected. apply C7; try done.
  unfold check_emit_rows. rewrite rows_have_keys_spec. intros Hall.
  apply elem_of_dom in Hsym. rewrite (Hall state row Hstate Hrow) in Hsym.
  by apply elem_of_list_to_set in Hsym.
Qed.

End PathResults.

Section StateSet.
Context {A : Type} `{PyNumOrd A}.
Implicit Types (start_prob : gmap string A) (trans_prob emit_prob : gmap string (gmap string A)).

Lemma same_items_set (xs ys : list string) :
  (∀ x, x ∈ xs ↔ x ∈ ys) → (list_to_set xs : gset string) = list_to_set ys.
Proof. intros Hsame. apply set_eq. intros x. rewrite !elem_of_list_to_set. apply Hsame. Qed.

Lemma rows_have_keys_same_items (table : gmap string (gmap string A))
    (sts sts' : list string) (keys : gset string) :
  (∀ x, x ∈ sts ↔ x ∈ sts') →
  rows_have_keys table sts keys ↔ rows_have_keys table sts' keys.
Proof.
  intros Hsame. unfold rows_have_keys. rewrite !Forall_forall.
  split; intros Hall x Hx; apply Hall; by apply Hsame.
Qed.

(** The seven conditions see the states only as a set. *)
Lemma checks_same_items (observations states states' : pyobj)
    start_prob trans_prob emit_prob :
  is_list_or_tuple states = true → is_list_or_tuple states' = true →
  (∀ x, x ∈ items_of states ↔ x ∈ items_of states') →
  (check_states states ↔ check_states states') ∧
  (check_start states start_prob ↔ check_start states' start_prob) ∧
  (check_trans states trans_prob ↔ check_trans states' trans_prob) ∧
  (check_trans_rows states trans_prob ↔ check_trans_rows states' trans_prob) ∧
  (check_emit states emit_prob ↔ check_emit states' emit_prob) ∧
  (check_emit_rows observations states emit_prob ↔
   check_emit_rows observations states' emit_prob).
Proof.
  intros Hs Hs' Hsame.
  unfold check_states, check_start, check_trans, check_trans_rows, check_emit,
    check_emit_rows.
  rewrite (same_items_set _ _ Hsame).
  rewrite !(rows_have_keys_same_items _ _ _ _ Hsame). by rewrite Hs, Hs'.
Qed.

Lemma validate_input_same_items (observations states states' : pyobj)
    start_prob trans_prob emit_prob :
  is_list_or_tuple states = true → is_list_or_tuple states' = true →
  (∀ x, x ∈ items_of states ↔ x ∈ items_of states') →
  validate_input observations states start_prob trans_prob emit_prob
  = validate_input observations states' start_prob trans_prob emit_prob.
Proof.
  intros Hs Hs' Hsame.
  pose proof (checks_same_items observations states states'
                start_prob trans_prob emit_prob Hs Hs' Hsame)
    as (E2 & E3 & E4 & E5 & E6 & E7).
  pose proof (validate_input_cases observations states start_prob trans_prob emit_prob)
    as (C1 & C2 & C3 & C4 & C5 & C6 & C7 & C8).
  pose proof (validate_input_cases observations states' start_prob trans_prob emit_prob)
    as (D1 & D2 & D3 & D4 & D5 & D6 & D7 & D8).
  cbv zeta in *.
  destruct (decide (check_observations observations)) as [H1|H1];
    [|by rewrite (C1 H1), (D1 H1)].
  destruct (decide (check_states states)) as [H2|H2];
    [|by rewrite (C2 H1 H2), (D2 H1 (λ H', H2 (proj2 E2 H')))].
  destruct (decide (check_start states start_prob)) as [H3|H3];
    [|by rewrite (C3 H1 H2 H3), (D3 H1 (proj1 E2 H2) (λ H', H3 (proj2 E3 H')))].
  destruct (decide (check_trans states trans_prob)) as [H4|H4];
    [|by rewrite (C4 H1 H2 H3 H4),
                 (D4 H1 (proj1 E2 H2) (proj1 E3 H3) (λ H', H4 (proj2 E4 H')))].
  destruct (decide (check_trans_rows states trans_prob)) as [H5|H5];
    [|by rewrite (C5 H1 H2 H3 H4 H5),
                 (D5 H1 (proj1 E2 H2) (proj1 E3 H3) (proj1 E4 H4)
                     (λ H', H5 (proj2 E5 H')))].
  destruct (decide (check_emit states emit_prob)) as [H6|H6];
    [|by rewrite (C6 H1 H2 H3 H4 H5 H6),
                 (D6 H1 (proj1 E2 H2) (proj1 E3 H3) (proj1 E4 H4) (proj1 E5 H5)
                     (λ H', H6 (proj2 E6 H')))].
  destruct (decide (check_emit_rows observations states emit_prob)) as [H7|H7];
    [|by rewrite (C7 H1 H2 H3 H4 H5 H6 H7),
                 (D7 H1 (proj1 E2 H2) (proj1 E3 H3) (proj1 E4 H4) (proj1 E5 H5)
                     (proj1 E6 H6) (λ H', H7 (proj2 E7 H')))].
  by rewrite (C8 H1 H2 H3 H4 H5 H6 H7),
             (D8 H1 (proj1 E2 H2) (proj1 E3 H3) (proj1 E4 H4) (proj1 E5 H5)
                 (proj1 E6 H6) (proj1 E7 H7)).
Qed.

(** [viterbi] sees [states] only as a set of labels: two sequences with
    the same labels, be they lists or tuples, in any order and with any
    repetitions, give the same result, a returned pair or a raised
    exception. *)
Theorem viterbi_state_set (observations states states' : pyobj)
    start_prob trans_prob emit_prob :
  is_list_or_tuple states = true → is_list_or_tuple states' = true →
  (∀ x, x ∈ items_of states ↔ x ∈ items_of states') →
  viterbi observations states start_prob trans_prob emit_prob
  = viterbi observations states' start_prob trans_prob emit_prob.
Proof.
  intros Hs Hs' Hsame. unfold viterbi at 1 2.
  rewrite (validate_input_same_items _ _ _ _ _ _ Hs Hs' Hsame).
  destruct (validate_input observations states' start_prob trans_prob emit_prob)
    as [[]|e] eqn:Hv'; [|done].
  pose proof Hv' as Hv.
  rewrite <- (validate_input_same_items _ _ _ _ _ _ Hs Hs' Hsame) in Hv.
  apply validate_input_Ok in Hv, Hv'. simpl.
  pose proof Hv as (Ho & _).
  destruct (decide (items_of states = [])) as [Hnil|Hne].
  { assert (items_of states' = []) as Hnil'.
    { destruct (items_of states') as [|x l]; [done|].
      assert (x ∈ items_of states) as Hx by (apply Hsame; set_solver).
      rewrite Hnil in Hx. by apply elem_of_nil in Hx. }
    by rewrite (decode_no_state _ _ _ _ _ Ho Hs Hnil),
               (decode_no_state _ _ _ _ _ Ho Hs' Hnil'). }
  assert (items_of states' ≠ []) as Hne'.
  { intros Hnil'. destruct (items_of states) as [|x l]; [done|].
    assert (x ∈ items_of states') as Hx by (apply Hsame; set_solver).
    rewrite Hnil' in Hx. by apply elem_of_nil in Hx. }
  destruct (decide (items_of observations = [])) as [Hnil|Hobs].
  { by rewrite (decode_no_observation _ _ _ _ _ Hv Hnil Hne),
               (decode_no_observation _ _ _ _ _ Hv' Hnil Hne'). }
  destruct (viterbi_greatest_entry _ _ _ _ _ Hv Hobs Hne)
    as (m & f & p & Hrun & Hent & Hmax).
  destruct (viterbi_greatest_entry _ _ _ _ _ Hv' Hobs Hne')
    as (m' & f' & p' & Hrun' & Hent' & Hmax').
  rewrite (viterbi_accepted _ _ _ _ _ Hv) in Hrun.
  rewrite (viterbi_accepted _ _ _ _ _ Hv') in Hrun'.
  rewrite Hrun, Hrun'.
  apply (trellis_entry_same_states _ _ _ _ _ _ Hsame) in Hent as Hent2.
  apply (trellis_entry_same_states _ _ _ _ _ _ Hsame) in Hent' as Hent2'.
  pose proof (Hmax' _ _ _ Hent2) as H1.
  pose proof (Hmax _ _ _ Hent2') as H2.
  pose proof (pair_le_antisym _ _ H1 H2) as Heq. simpl in Heq. subst f'.
  destruct (trellis_entry_functional _ _ _ _ _ _ _ _ _ _ _ Hent Hent2') as [-> ->].
  done.
Qed.

End StateSet.

(** ** Doubles: rounding and order

    Comparing doubles other than nan is comparing their places on the
    scale of [fkey]; the multiplication of [SpecFloat] gives the rounding
    [round64] of the exact product, or an infinity when that reaches
    [2^1024]; and [round64] is monotone.  So multiplying by a non-negative
    double keeps the order, and the product of two doubles of [[0, 1]] is a
    double of [[0, 1]]. *)

Section FloatRounding.
Local Open Scope Z_scope.

Lemma zpos_succ (x : positive) : Zpos (PosDef.Pos.succ x) = Zpos x + 1.
Proof. exact (Pos2Z.inj_succ x). Qed.

Lemma digits2_bounds (p : positive) :
  2 ^ (Zpos (digits2_pos p) - 1) ≤ Zpos p < 2 ^ Zpos (digits2_pos p).
Proof.
  induction p as [p IH|p IH|]; cbn [digits2_pos]; rewrite ?zpos_succ.
  - replace (Z.pos (digits2_pos p) + 1 - 1) with (Z.pos (digits2_pos p) - 1 + 1) by lia.
    rewrite !Z.pow_add_r by lia. change (2 ^ 1) with 2. lia.
  - replace (Z.pos (digits2_pos p) + 1 - 1) with (Z.pos (digits2_pos p) - 1 + 1) by lia.
    rewrite !Z.pow_add_r by lia. change (2 ^ 1) with 2. lia.
  - simpl. lia.
Qed.

Lemma digits2_log2 (p : positive) : Zpos (digits2_pos p) = Z.log2 (Zpos p) + 1.
Proof.
  pose proof (digits2_bounds p) as Hb.
  symmetry. rewrite (Z.log2_unique (Zpos p) (Zpos (digits2_pos p) - 1)); [lia|lia|].
  replace (Z.succ (Z.pos (digits2_pos p) - 1)) with (Z.pos (digits2_pos p)) by lia.
  exact Hb.
Qed.

Lemma iter_pos_nat {T : Type} (f : T → T) (p : positive) (x : T) :
  SpecFloat.iter_pos f p x = Nat.iter (Pos.to_nat p) f x.
Proof.
  revert x. induction p as [p IH|p IH|]; intros x; cbn [SpecFloat.iter_pos].
  - rewrite !IH. rewrite Pos2Nat.inj_xI.
    replace (S (2 * Pos.to_nat p))%nat with (Pos.to_nat p + (Pos.to_nat p + 1))%nat by lia.
    rewrite !Nat.iter_add. simpl. reflexivity.
  - rewrite !IH. rewrite Pos2Nat.inj_xO.
    replace (2 * Pos.to_nat p)%nat with (Pos.to_nat p + Pos.to_nat p)%nat by lia.
    rewrite Nat.iter_add. reflexivity.
  - reflexivity.
Qed.

Lemma shr_1_spec (m : Z) (r s : bool) :
  0 ≤ m →
  shr_1 {| shr_m := m; shr_r := r; shr_s := s |}
  = {| shr_m := m / 2; shr_r := Z.odd m; shr_s := r || s |}.
Proof.
  intros Hm. rewrite <- Z.div2_div.
  destruct m as [|[p|p|]|p]; simpl; try reflexivity; lia.
Qed.

Lemma mod_pow2_succ (w k : Z) :
  0 ≤ k →
  w mod 2 ^ (k + 1) = w mod 2 ^ k + 2 ^ k * (if Z.odd (w / 2 ^ k) then 1 else 0).
Proof.
  intros Hk. rewrite Z.pow_add_r by lia. change (2 ^ 1) with 2.
  pose proof (Z.pow_pos_nonneg 2 k ltac:(lia) Hk) as Hp.
  rewrite Z.rem_mul_r by lia. rewrite Zmod_odd. reflexivity.
Qed.

Lemma shr_iter_spec (w : Z) (k : nat) :
  0 ≤ w →
  Nat.iter (S k) shr_1 {| shr_m := w; shr_r := false; shr_s := false |}
  = {| shr_m := w / 2 ^ Z.of_nat (S k);
       shr_r := Z.odd (w / 2 ^ Z.of_nat k);
       shr_s := negb (w mod 2 ^ Z.of_nat k =? 0) |}.
Proof.
  intros Hw. induction k as [|k IH].
  - change (Nat.iter 1 shr_1 ?x) with (shr_1 x).
    rewrite shr_1_spec by done.
    change (Z.of_nat 1) with 1. change (Z.of_nat 0) with 0.
    rewrite Z.pow_0_r, Z.pow_1_r, Z.div_1_r, Z.mod_1_r. reflexivity.
  - change (Nat.iter (S (S k)) shr_1 ?x) with (shr_1 (Nat.iter (S k) shr_1 x)).
    rewrite IH.
    pose proof (Z.pow_pos_nonneg 2 (Z.of_nat k) ltac:(lia) ltac:(lia)) as Hp.
    pose proof (Z.pow_pos_nonneg 2 (Z.of_nat (S k)) ltac:(lia) ltac:(lia)) as Hp'.
    rewrite shr_1_spec by (apply Z.div_pos; lia).
    f_equal.
    + rewrite Z.div_div by lia. f_equal.
      replace (Z.of_nat (S (S k))) with (Z.of_nat (S k) + 1) by lia.
      rewrite Z.pow_add_r by lia. reflexivity.
    + replace (Z.of_nat (S k)) with (Z.of_nat k + 1) by lia.
      rewrite mod_pow2_succ by lia.
      pose proof (Z.mod_pos_bound w (2 ^ Z.of_nat k) Hp) as Hb.
      destruct (Z.odd (w / 2 ^ Z.of_nat k)); simpl.
      * symmetry. apply negb_true_iff. apply Z.eqb_neq. lia.
      * f_equal. f_equal. lia.
Qed.

Lemma shr_spec (w e n : Z) :
  0 ≤ w → 0 < n →
  shr {| shr_m := w; shr_r := false; shr_s := false |} e n
  = ({| shr_m := w / 2 ^ n;
        shr_r := Z.odd (w / 2 ^ (n - 1));
        shr_s := negb (w mod 2 ^ (n - 1) =? 0) |}, e + n).
Proof.
  intros Hw Hn. destruct n as [|p|p]; try lia. unfold shr.
  rewrite iter_pos_nat.
  destruct (Pos.to_nat p) as [|k] eqn:Ek; [lia|].
  rewrite shr_iter_spec by done.
  assert (Z.of_nat (S k) = Z.pos p) as E1 by lia.
  assert (Z.of_nat k = Z.pos p - 1) as E2 by lia.
  rewrite E1, E2. reflexivity.
Qed.

Lemma shr_none (r : shr_record) (e n : Z) : n ≤ 0 → shr r e n = (r, e).
Proof. intros Hn. destruct n; try reflexivity; lia. Qed.

(** Rounding the shifted mantissa as [round_nearest_even] does is [rne]. *)
Lemma round_nearest_even_rne (w n : Z) :
  0 ≤ w → 0 < n →
  let r := {| shr_m := w / 2 ^ n;
              shr_r := Z.odd (w / 2 ^ (n - 1));
              shr_s := negb (w mod 2 ^ (n - 1) =? 0) |} in
  round_nearest_even (shr_m r) (loc_of_shr_record r) = rne w n.
Proof.
  intros Hw Hn. cbv zeta. unfold rne. cbn [shr_m].
  pose proof (mod_pow2_succ w (n - 1) ltac:(lia)) as Hmod.
  replace (n - 1 + 1) with n in Hmod by lia.
  pose proof (Z.pow_pos_nonneg 2 (n - 1) ltac:(lia) ltac:(lia)) as Hp.
  pose proof (Z.mod_pos_bound w (2 ^ (n - 1)) Hp) as Hb.
  rewrite Hmod.
  destruct (Z.odd (w / 2 ^ (n - 1))) eqn:Eodd.
  - destruct (w mod 2 ^ (n - 1) =? 0) eqn:Ez.
    + apply Z.eqb_eq in Ez. rewrite Ez. cbn [negb loc_of_shr_record round_nearest_even].
      replace (2 ^ (n - 1) <? 0 + 2 ^ (n - 1) * 1) with false
        by (symmetry; apply Z.ltb_ge; lia).
      replace (0 + 2 ^ (n - 1) * 1 =? 2 ^ (n - 1)) with true
        by (symmetry; apply Z.eqb_eq; lia).
      cbn [orb andb]. rewrite <- Z.negb_odd.
      destruct (Z.odd (w / 2 ^ n)); cbn [negb]; lia.
    + apply Z.eqb_neq in Ez. cbn [negb loc_of_shr_record round_nearest_even].
      replace (2 ^ (n - 1) <? w mod 2 ^ (n - 1) + 2 ^ (n - 1) * 1) with true
        by (symmetry; apply Z.ltb_lt; lia).
      reflexivity.
  - replace (2 ^ (n - 1) <? w mod 2 ^ (n - 1) + 2 ^ (n - 1) * 0) with false
      by (symmetry; apply Z.ltb_ge; lia).
    replace (w mod 2 ^ (n - 1) + 2 ^ (n - 1) * 0 =? 2 ^ (n - 1)) with false
      by (symmetry; apply Z.eqb_neq; lia).
    cbn [orb andb].
    destruct (negb (w mod 2 ^ (n - 1) =? 0));
      cbn [loc_of_shr_record round_nearest_even]; lia.
Qed.

Lemma rne_bounds (w n : Z) :
  0 ≤ w → 0 < n → w / 2 ^ n ≤ rne w n ≤ w / 2 ^ n + 1.
Proof.
  intros Hw Hn. unfold rne.
  destruct (_ || _); lia.
Qed.

Lemma pow2_lt_inv (a b : Z) : 0 ≤ b → 2 ^ a < 2 ^ b → a < b.
Proof. intros Hb Hlt. apply (Z.pow_lt_mono_r_iff 2); [lia|lia|exact Hlt]. Qed.

Lemma pow2_le (a b : Z) : 0 ≤ a ≤ b → 2 ^ a ≤ 2 ^ b.
Proof. intros Hab. apply Z.pow_le_mono_r; lia. Qed.

Lemma pow2_pos (a : Z) : 0 ≤ a → 0 < 2 ^ a.
Proof. intros Ha. apply Z.pow_pos_nonneg; lia. Qed.

Lemma div_pow2_lt (w a k : Z) :
  0 ≤ w < 2 ^ a → 0 ≤ k ≤ a → w / 2 ^ k < 2 ^ (a - k).
Proof.
  intros Hw Hk. pose proof (pow2_pos k ltac:(lia)) as Hp.
  apply Z.div_lt_upper_bound; [lia|].
  rewrite <- Z.pow_add_r by lia. replace (k + (a - k)) with a by lia. lia.
Qed.

(** *** Order and value *)

Lemma valid_finite (s : bool) (m : positive) (e : Z) :
  SpecFloat.valid_binary 53 1024 (S754_finite s m e) = true →
  -1074 ≤ e ≤ 971 ∧ Zpos (digits2_pos m) ≤ 53 ∧
  (-1074 < e → Zpos (digits2_pos m) = 53).
Proof.
  cbn [SpecFloat.valid_binary]. unfold bounded, canonical_mantissa, fexp, emin.
  intros Hv. apply andb_true_iff in Hv as [Hc Hb].
  apply Z.eqb_eq in Hc. apply Z.leb_le in Hb. lia.
Qed.

Lemma fval_finite_bounds (m : positive) (e : Z) :
  SpecFloat.valid_binary 53 1024 (S754_finite false m e) = true →
  2 ^ (Zpos (digits2_pos m) + e + 1073) ≤ fval (S754_finite false m e)
  < 2 ^ (Zpos (digits2_pos m) + e + 1074).
Proof.
  intros Hv. apply valid_finite in Hv as (He & _ & _).
  pose proof (digits2_bounds m) as Hd. cbn [fval].
  set (d := Zpos (digits2_pos m)) in *.
  assert (1 <= d) as Hd1 by (unfold d; lia). clearbody d.
  pose proof (pow2_pos (e + 1074) ltac:(lia)) as Hp.
  replace (d + e + 1073) with ((d - 1) + (e + 1074)) by lia.
  replace (d + e + 1074) with (d + (e + 1074)) by lia.
  split.
  - rewrite (Z.pow_add_r 2 (d - 1) (e + 1074)) by lia.
    apply Z.mul_le_mono_nonneg_r; lia.
  - rewrite (Z.pow_add_r 2 d (e + 1074)) by lia. apply Zmult_lt_compat_r; lia.
Qed.

(** On valid non-negative doubles the comparison is that of the values. *)
Lemma SFcompare_fval (f g : spec_float) :
  fnonneg f → fnonneg g →
  SpecFloat.valid_binary 53 1024 f = true →
  SpecFloat.valid_binary 53 1024 g = true →
  SFcompare f g = Some (fval f ?= fval g).
Proof.
  intros Hf Hg Vf Vg.
  destruct f as [sf|sf| |sf mf ef], g as [sg|sg| |sg mg eg]; try done.
  - destruct sg; [done|]. pose proof (fval_finite_bounds _ _ Vg) as Hb.
    pose proof (pow2_pos (Zpos (digits2_pos mg) + eg + 1073)
                  ltac:(apply valid_finite in Vg; lia)) as Hp.
    cbn [SFcompare]. f_equal. symmetry. apply Z.compare_lt_iff. cbn [fval] in *. lia.
  - destruct sf; [done|]. pose proof (fval_finite_bounds _ _ Vf) as Hb.
    pose proof (pow2_pos (Zpos (digits2_pos mf) + ef + 1073)
                  ltac:(apply valid_finite in Vf; lia)) as Hp.
    cbn [SFcompare]. f_equal. symmetry. apply Z.compare_gt_iff. cbn [fval] in *. lia.
  - destruct sf, sg; try done.
    pose proof (fval_finite_bounds _ _ Vf) as Hbf.
    pose proof (fval_finite_bounds _ _ Vg) as Hbg.
    apply valid_finite in Vf as (Hef & Hdf & Hnf).
    apply valid_finite in Vg as (Heg & Hdg & Hng).
    cbn [SFcompare]. f_equal.
    destruct (Z.compare_spec ef eg) as [Heq|Hlt|Hgt].
    + subst eg. cbn [fval]. rewrite Pos.compare_cont_spec. cbn [Pos.switch_Eq].
      pose proof (pow2_pos (ef + 1074) ltac:(lia)) as Hp.
      change ((mf ?= mg)%positive) with (Zpos mf ?= Zpos mg).
      rewrite <- (Zmult_compare_compat_r (Zpos mf) (Zpos mg) (2 ^ (ef + 1074)))
        by lia.
      by destruct (Zpos mf ?= Zpos mg).
    + symmetry. apply Z.compare_lt_iff.
      specialize (Hng ltac:(lia)). rewrite Hng in Hbg.
      pose proof (pow2_le (Zpos (digits2_pos mf) + ef + 1074) (53 + eg + 1073)
                    ltac:(lia)). lia.
    + symmetry. apply Z.compare_gt_iff.
      specialize (Hnf ltac:(lia)). rewrite Hnf in Hbf.
      pose proof (pow2_le (Zpos (digits2_pos mg) + eg + 1074) (53 + ef + 1073)
                    ltac:(lia)). lia.
Qed.

(** *** Multiplication *)

Lemma rne_scale (w n c : Z) :
  0 ≤ w → 0 < n → 0 ≤ c → rne (w * 2 ^ c) (n + c) = rne w n.
Proof.
  intros Hw Hn Hc. unfold rne.
  pose proof (pow2_pos c Hc) as Hpc.
  pose proof (pow2_pos n ltac:(lia)) as Hpn.
  pose proof (pow2_pos (n - 1) ltac:(lia)) as Hph.
  rewrite (Z.pow_add_r 2 n c) by lia.
  replace (n + c - 1) with ((n - 1) + c) by lia.
  rewrite (Z.pow_add_r 2 (n - 1) c) by lia.
  rewrite Z.div_mul_cancel_r by lia.
  rewrite Z.mul_mod_distr_r by lia.
  set (q := w / 2 ^ n). set (r := w mod 2 ^ n). set (h := 2 ^ (n - 1)).
  replace (h * 2 ^ c <? r * 2 ^ c) with (h <? r).
  2:{ destruct (Z.ltb_spec h r), (Z.ltb_spec (h * 2 ^ c) (r * 2 ^ c)); try done; nia. }
  replace (r * 2 ^ c =? h * 2 ^ c) with (r =? h).
  2:{ destruct (Z.eqb_spec r h), (Z.eqb_spec (r * 2 ^ c) (h * 2 ^ c)); try done; nia. }
  reflexivity.
Qed.

Lemma round64_0 : round64 0 = 0.
Proof. unfold round64, rne. simpl Z.log2. rewrite Z.div_0_l, Z.mod_0_l; [|lia..].
  simpl. reflexivity. Qed.

(** *** Rounding is monotone *)

Lemma rne_mono (w1 w2 k : Z) :
  0 < k → 0 ≤ w1 ≤ w2 → rne w1 k ≤ rne w2 k.
Proof.
  intros Hk Hw. pose proof (pow2_pos k ltac:(lia)) as Hp.
  pose proof (pow2_pos (k - 1) ltac:(lia)) as Hh.
  pose proof (Z.div_le_mono w1 w2 (2 ^ k) Hp ltac:(lia)) as Hq.
  pose proof (rne_bounds w1 k ltac:(lia) Hk) as Hb1.
  pose proof (rne_bounds w2 k ltac:(lia) Hk) as Hb2.
  destruct (Z.eq_dec (w1 / 2 ^ k) (w2 / 2 ^ k)) as [Heq|Hne]; [|lia].
  unfold rne. rewrite !Z.mod_eq by lia. rewrite <- Heq.
  set (q := w1 / 2 ^ k) in *. set (h := 2 ^ (k - 1)) in *.
  destruct (Z.ltb_spec h (w1 - 2 ^ k * q)), (Z.ltb_spec h (w2 - 2 ^ k * q)),
    (Z.eqb_spec (w1 - 2 ^ k * q) h), (Z.eqb_spec (w2 - 2 ^ k * q) h),
    (Z.odd q); cbn [orb andb]; lia.
Qed.

Lemma rne_nonneg (w k : Z) : 0 ≤ w → 0 < k → 0 ≤ rne w k.
Proof.
  intros Hw Hk. pose proof (rne_bounds w k Hw Hk).
  pose proof (Z.div_pos w (2 ^ k) Hw (pow2_pos k ltac:(lia))). lia.
Qed.

Lemma round64_nonneg (w : Z) : 0 ≤ w → 0 ≤ round64 w.
Proof.
  intros Hw. unfold round64.
  apply Z.mul_nonneg_nonneg; [apply rne_nonneg; lia|].
  apply Z.lt_le_incl, pow2_pos. lia.
Qed.

Lemma round64_mono (w1 w2 : Z) : 0 ≤ w1 ≤ w2 → round64 w1 ≤ round64 w2.
Proof.
  intros [Hw1 Hw].
  destruct (Z.eq_dec w1 0) as [->|Hne].
  { rewrite round64_0. apply round64_nonneg. lia. }
  unfold round64.
  pose proof (Z.log2_spec w1 ltac:(lia)) as Hs1.
  pose proof (Z.log2_spec w2 ltac:(lia)) as Hs2.
  pose proof (Z.log2_le_mono w1 w2 Hw) as Hl.
  pose proof (Z.log2_nonneg w1) as Hn1.
  set (d1 := Z.log2 w1 + 1) in *. set (d2 := Z.log2 w2 + 1) in *.
  replace (Z.succ (Z.log2 w1)) with d1 in Hs1 by (unfold d1; lia).
  replace (Z.succ (Z.log2 w2)) with d2 in Hs2 by (unfold d2; lia).
  replace (Z.log2 w1) with (d1 - 1) in Hs1 by (unfold d1; lia).
  replace (Z.log2 w2) with (d2 - 1) in Hs2 by (unfold d2; lia).
  assert (1 <= d1 <= d2) as Hd by (unfold d1, d2; lia).
  clearbody d1 d2.
  set (k1 := Z.max (d1 - 53) 1074). set (k2 := Z.max (d2 - 53) 1074).
  assert (1074 <= k1 <= k2) as Hk by (unfold k1, k2; lia).
  destruct (Z.eq_dec k1 k2) as [Heq|Hneq].
  { rewrite <- Heq. apply Z.mul_le_mono_nonneg_r.
    - apply Z.lt_le_incl, pow2_pos. lia.
    - apply rne_mono; lia. }
  assert (k2 = d2 - 53 /\ d1 < d2) as [Hk2 Hlt] by (unfold k1, k2 in *; lia).
  (* the power of two between the two values *)
  apply Z.le_trans with (2 ^ 52 * 2 ^ (k2 - 1074)).
  - pose proof (rne_bounds w1 k1 ltac:(lia) ltac:(lia)) as Hb1.
    pose proof (pow2_pos (k1 - 1074) ltac:(lia)) as Hp1.
    assert (rne w1 k1 <= 2 ^ (Z.max d1 k1 - k1)) as Hup.
    { destruct (Z_le_gt_dec k1 d1) as [Hle|Hgt].
      - pose proof (div_pow2_lt w1 d1 k1 ltac:(lia) ltac:(lia)).
        replace (Z.max d1 k1) with d1 by lia. lia.
      - replace (Z.max d1 k1 - k1) with 0 by lia.
        rewrite Z.div_small in Hb1; [simpl; lia|].
        pose proof (pow2_le d1 k1 ltac:(lia)). lia. }
    apply Z.le_trans with (2 ^ (Z.max d1 k1 - k1) * 2 ^ (k1 - 1074)).
    { apply Z.mul_le_mono_nonneg_r; lia. }
    rewrite <- !Z.pow_add_r by lia. apply pow2_le. lia.
  - pose proof (rne_bounds w2 k2 ltac:(lia) ltac:(lia)) as Hb2.
    pose proof (pow2_pos (k2 - 1074) ltac:(lia)) as Hp2.
    pose proof (pow2_pos k2 ltac:(lia)) as Hpk.
    apply Z.mul_le_mono_nonneg_r; [lia|].
    apply Z.le_trans with (w2 / 2 ^ k2); [|lia].
    apply Z.div_le_lower_bound; [lia|].
    rewrite <- Z.pow_add_r by lia.
    replace (k2 + 52) with (d2 - 1) by lia. lia.
Qed.

(** *** The order of doubles *)

Lemma finite_key_bounds (m : positive) (e : Z) :
  SpecFloat.valid_binary 53 1024 (S754_finite false m e) = true →
  0 < Zpos m * 2 ^ (e + 1074) < 2 ^ 3200.
Proof.
  intros Hv. pose proof (fval_finite_bounds _ _ Hv) as Hb. cbn [fval] in Hb.
  apply valid_finite in Hv as (He & Hd & _).
  pose proof (pow2_pos (Zpos (digits2_pos m) + e + 1073) ltac:(lia)).
  pose proof (pow2_le (Zpos (digits2_pos m) + e + 1074) 2100 ltac:(lia)). lia.
Qed.

Lemma finite_compare (m1 m2 : positive) (e1 e2 : Z) :
  SpecFloat.valid_binary 53 1024 (S754_finite false m1 e1) = true →
  SpecFloat.valid_binary 53 1024 (S754_finite false m2 e2) = true →
  match e1 ?= e2 with
  | Lt => Lt
  | Gt => Gt
  | Eq => Pos.compare_cont Eq m1 m2
  end = (Zpos m1 * 2 ^ (e1 + 1074) ?= Zpos m2 * 2 ^ (e2 + 1074)).
Proof.
  intros V1 V2.
  pose proof (SFcompare_fval (S754_finite false m1 e1) (S754_finite false m2 e2)
                I I V1 V2) as Hc.
  cbn [SFcompare fval] in Hc. by injection Hc.
Qed.

Lemma SFcompare_fkey (f g : spec_float) :
  fnum f → fnum g →
  SpecFloat.valid_binary 53 1024 f = true →
  SpecFloat.valid_binary 53 1024 g = true →
  SFcompare f g = Some (fkey f ?= fkey g).
Proof.
  intros Hf Hg Vf Vg.
  assert (0 < 2 ^ 3200) as Hbig by (apply pow2_pos; lia).
  assert (forall m e, SpecFloat.valid_binary 53 1024 (S754_finite true m e) = true ->
            0 < Zpos m * 2 ^ (e + 1074) < 2 ^ 3200) as Hneg
    by (intros m e; apply finite_key_bounds).
  destruct f as [sf|sf| |sf mf ef], g as [sg|sg| |sg mg eg]; try done;
    cbn [SFcompare fkey]; f_equal; symmetry;
    try (destruct sf); try (destruct sg);
    try (pose proof (finite_key_bounds _ _ Vf));
    try (pose proof (finite_key_bounds _ _ Vg));
    try (pose proof (Hneg _ _ Vf)); try (pose proof (Hneg _ _ Vg));
    try (first [apply Z.compare_eq_iff; lia | apply Z.compare_lt_iff; lia
               | apply Z.compare_gt_iff; lia]).
  - rewrite Z.compare_opp, <- (finite_compare mg mf eg ef Vg Vf).
    rewrite (Z.compare_antisym ef eg).
    destruct (ef ?= eg); cbn [CompOpp]; try done.
    exact (ZC4 mg mf).
  - symmetry. by apply finite_compare.
Qed.

Lemma float_num_spec (x : float) : float_num x ↔ fnum (Prim2SF x).
Proof.
  unfold float_num. rewrite FloatAxioms.eqb_spec. unfold SFeqb.
  destruct (Prim2SF x) as [s|s| |s m e] eqn:E; cbn [fnum]; try done.
  - by destruct s.
  - pose proof (Prim2SF_valid x) as Hv. rewrite E in Hv.
    rewrite (SFcompare_fkey (S754_finite s m e) (S754_finite s m e) I I Hv Hv),
      Z.compare_refl. done.
Qed.

Lemma float_compare_key (x y : float) :
  float_num x → float_num y →
  SFcompare (Prim2SF x) (Prim2SF y) = Some (float_key x ?= float_key y).
Proof.
  intros Hx Hy. apply SFcompare_fkey; try by apply float_num_spec.
  all: apply Prim2SF_valid.
Qed.

Lemma float_ltb_key (x y : float) :
  float_num x → float_num y →
  PrimFloat.ltb x y = (float_key x <? float_key y).
Proof.
  intros Hx Hy. rewrite FloatAxioms.ltb_spec. unfold SFltb, Z.ltb.
  rewrite (float_compare_key x y Hx Hy). by destruct (float_key x ?= float_key y).
Qed.

Lemma float_eqb_key (x y : float) :
  float_num x → float_num y →
  PrimFloat.eqb x y = (float_key x =? float_key y).
Proof.
  intros Hx Hy. rewrite FloatAxioms.eqb_spec. unfold SFeqb.
  rewrite (float_compare_key x y Hx Hy).
  destruct (Z.compare_spec (float_key x) (float_key y)); symmetry;
    [apply Z.eqb_eq|apply Z.eqb_neq..]; lia.
Qed.

Lemma float_leb_key (x y : float) :
  float_num x → float_num y →
  PrimFloat.leb x y = (float_key x <=? float_key y).
Proof.
  intros Hx Hy. rewrite FloatAxioms.leb_spec. unfold SFleb.
  rewrite (float_compare_key x y Hx Hy).
  destruct (Z.compare_spec (float_key x) (float_key y)); symmetry;
    [apply Z.leb_le|apply Z.leb_le|apply Z.leb_gt]; lia.
Qed.

Lemma float_leb_num (x y : float) :
  PrimFloat.leb x y = true → float_num x ∧ float_num y.
Proof.
  rewrite FloatAxioms.leb_spec, !float_num_spec. unfold SFleb.
  by destruct (Prim2SF x), (Prim2SF y).
Qed.

(** *** Products of any two doubles *)

Lemma round64_shift (P : positive) (E : Z) :
  -2148 ≤ E → E < fexp 53 1024 (Zpos (digits2_pos P) + E) →
  round64 (Zpos P * 2 ^ (E + 2148))
  = rne (Zpos P) (fexp 53 1024 (Zpos (digits2_pos P) + E) - E)
    * 2 ^ (fexp 53 1024 (Zpos (digits2_pos P) + E) + 1074).
Proof.
  set (d := Zpos (digits2_pos P)). set (e1 := fexp 53 1024 (d + E)).
  intros HE Hn.
  assert (e1 = Z.max (d + E - 53) (-1074)) as He1 by reflexivity.
  unfold round64. set (c := E + 2148).
  assert (0 <= c) as Hc by (unfold c; lia).
  rewrite Z.log2_mul_pow2 by lia.
  assert (Z.log2 (Zpos P) = d - 1) as ->.
  { unfold d. rewrite digits2_log2. lia. }
  replace (Z.max (c + (d - 1) + 1 - 53) 1074) with ((e1 - E) + c) by (unfold c; lia).
  rewrite rne_scale by lia.
  replace (e1 - E + c - 1074) with (e1 + 1074) by (unfold c; lia).
  reflexivity.
Qed.

Lemma round64_noshift (P : positive) (E : Z) :
  fexp 53 1024 (Zpos (digits2_pos P) + E) ≤ E →
  round64 (Zpos P * 2 ^ (E + 2148)) = Zpos P * 2 ^ (E + 1074).
Proof.
  set (d := Zpos (digits2_pos P)). set (e1 := fexp 53 1024 (d + E)).
  intros Hn.
  assert (e1 = Z.max (d + E - 53) (-1074)) as He1 by reflexivity.
  unfold round64. set (c := E + 2148).
  assert (1074 <= c) as Hc by (unfold c; lia).
  rewrite Z.log2_mul_pow2 by lia.
  assert (Z.log2 (Zpos P) = d - 1) as ->.
  { unfold d. rewrite digits2_log2. lia. }
  set (k := Z.max (c + (d - 1) + 1 - 53) 1074).
  assert (1074 <= k <= c) as Hk by (unfold k, c; lia).
  pose proof (pow2_pos k ltac:(lia)) as Hpk.
  pose proof (pow2_pos (k - 1) ltac:(lia)) as Hph.
  assert (Zpos P * 2 ^ c = Zpos P * 2 ^ (c - k) * 2 ^ k) as Hw.
  { rewrite <- Z.mul_assoc, <- Z.pow_add_r by lia. do 2 f_equal. lia. }
  unfold rne. rewrite Hw, Z.div_mul, Z.mod_mul by lia.
  replace (2 ^ (k - 1) <? 0) with false by (symmetry; apply Z.ltb_ge; lia).
  replace (0 =? 2 ^ (k - 1)) with false by (symmetry; apply Z.eqb_neq; lia).
  cbn [orb andb]. rewrite Z.add_0_r, <- Z.mul_assoc, <- Z.pow_add_r by lia.
  do 2 f_equal. unfold c. lia.
Qed.

Lemma sat_small (v : Z) : v < 2 ^ 2098 → sat v = v.
Proof. intros Hv. unfold sat. by destruct (Z.ltb_spec v (2 ^ 2098)); [|lia]. Qed.

Lemma sat_big (v : Z) : 2 ^ 2098 ≤ v → sat v = 2 ^ 3200.
Proof. intros Hv. unfold sat. by destruct (Z.ltb_spec v (2 ^ 2098)); [lia|]. Qed.

Lemma pow2_2098_3200 : 0 < 2 ^ 2098 < 2 ^ 3200.
Proof. split; [apply pow2_pos; lia|apply Z.pow_lt_mono_r; lia]. Qed.

Lemma sat_mono (v1 v2 : Z) : v1 ≤ v2 → sat v1 ≤ sat v2.
Proof.
  intros Hv. pose proof pow2_2098_3200. unfold sat.
  destruct (Z.ltb_spec v1 (2 ^ 2098)), (Z.ltb_spec v2 (2 ^ 2098)); lia.
Qed.

Lemma sat_nonneg (v : Z) : 0 ≤ v → 0 ≤ sat v.
Proof.
  intros Hv. pose proof pow2_2098_3200. unfold sat.
  destruct (Z.ltb_spec v (2 ^ 2098)); lia.
Qed.

(** The rounding that ends a multiplication: the result is the rounding
    of the exact value, or an infinity from [2^1024] on. *)
Lemma binary_round_aux_key (s : bool) (P : positive) (E : Z) :
  -2148 ≤ E → (971 < E → 53 ≤ Zpos (digits2_pos P)) →
  fnum (binary_round_aux 53 1024 s (Zpos P) E loc_Exact) ∧
  fkey (binary_round_aux 53 1024 s (Zpos P) E loc_Exact)
  = (if s then -1 else 1) * sat (round64 (Zpos P * 2 ^ (E + 2148))).
Proof.
  set (d := Zpos (digits2_pos P)).
  set (e1 := fexp 53 1024 (d + E)). intros HE Hbig.
  assert (-1074 <= e1 /\ d + E - 53 <= e1 /\ e1 = Z.max (d + E - 53) (-1074))
    as (Hemin & He1 & He1eq) by (unfold e1, fexp, emin; lia).
  pose proof (digits2_bounds P) as Hd. fold d in Hd.
  assert (1 <= d) as Hd1 by (unfold d; lia).
  pose proof pow2_2098_3200 as Hcst.
  destruct (Z_lt_ge_dec E e1) as [Hn|Hn].
  - (* the mantissa is shifted *)
    rewrite (round64_shift P E HE Hn). fold d e1.
    unfold binary_round_aux, shr_fexp. cbn [shr_record_of_loc Zdigits2].
    fold d. fold e1.
    rewrite (shr_spec (Zpos P) E (e1 - E)) by lia.
    replace (E + (e1 - E)) with e1 by lia.
    rewrite (round_nearest_even_rne (Zpos P) (e1 - E)) by lia.
    pose proof (rne_bounds (Zpos P) (e1 - E) ltac:(lia) ltac:(lia)) as Hr.
    assert (0 <= Zpos P / 2 ^ (e1 - E) < 2 ^ 53) as Hq.
    { split; [apply Z.div_pos; [lia|apply pow2_pos; lia]|].
      destruct (Z_le_gt_dec (e1 - E) d) as [Hle|Hgt].
      - pose proof (div_pow2_lt (Zpos P) d (e1 - E) ltac:(lia) ltac:(lia)) as Hlt.
        pose proof (pow2_le (d - (e1 - E)) 53 ltac:(lia)). lia.
      - rewrite Z.div_small; [apply pow2_pos; lia|].
        pose proof (pow2_le d (e1 - E) ltac:(lia)). lia. }
    assert (-1074 < e1 → 2 ^ 52 <= Zpos P / 2 ^ (e1 - E)) as Hnorm.
    { intros Hgt. replace (e1 - E) with (d - 53) in * by lia.
      apply Z.div_le_lower_bound; [apply pow2_pos; lia|].
      rewrite <- Z.pow_add_r by lia. replace (d - 53 + 52) with (d - 1) by lia. lia. }
    pose proof (pow2_pos (e1 + 1074) ltac:(lia)) as Hpe.
    set (m2 := rne (Zpos P) (e1 - E)) in *.
    destruct (Z.eq_dec m2 0) as [E0|Hne0].
    { rewrite E0. cbn [Zdigits2].
      rewrite shr_none by (unfold fexp, emin; lia). cbn [shr_m fnum fkey].
      split; [exact I|]. rewrite Z.mul_0_l, sat_small by lia. by destruct s. }
    destruct m2 as [|q2|q2] eqn:Em2; [done| |lia].
    cbn [Zdigits2].
    pose proof (digits2_bounds q2) as Hd2.
    set (d2 := Zpos (digits2_pos q2)) in *.
    destruct (Z_lt_ge_dec (Zpos q2) (2 ^ 53)) as [Hlt|Hge].
    + assert (d2 <= 53) as Hd2le.
      { assert (d2 - 1 < 53); [|lia].
        apply pow2_lt_inv; [lia|]. lia. }
      rewrite shr_none by (unfold fexp, emin; lia). cbn [shr_m].
      destruct (Z.leb_spec e1 (1024 - 53)) as [Hfin|Hinf].
      * cbn [fnum fkey]. split; [exact I|].
        rewrite sat_small; [by destruct s; lia|].
        apply Z.lt_le_trans with (2 ^ 53 * 2 ^ (e1 + 1074)).
        { apply Zmult_lt_compat_r; lia. }
        rewrite <- Z.pow_add_r by lia. apply pow2_le. lia.
      * cbn [fnum fkey]. split; [exact I|].
        rewrite sat_big; [by destruct s; lia|].
        apply Z.le_trans with (2 ^ 52 * 2 ^ (e1 + 1074)).
        { rewrite <- Z.pow_add_r by lia. apply pow2_le. lia. }
        apply Z.mul_le_mono_nonneg_r; [lia|].
        specialize (Hnorm ltac:(lia)). lia.
    + assert (Zpos q2 = 2 ^ 53) as Eq2 by lia.
      assert (d2 = 54) as Ed2.
      { assert (d2 - 1 < 54).
        { apply pow2_lt_inv; [lia|]. change (2 ^ 54) with (2 * 2 ^ 53). lia. }
        assert (53 < d2); [|lia].
        apply pow2_lt_inv; [lia|]. lia. }
      rewrite Ed2.
      replace (fexp 53 1024 (54 + e1) - e1) with 1 by (unfold fexp, emin; lia).
      rewrite (shr_spec (Zpos q2) e1 1) by lia. cbn [shr_m].
      rewrite Eq2. change (2 ^ 53 / 2 ^ 1) with (Zpos 4503599627370496).
      cbv iota beta.
      assert (2 ^ 53 * 2 ^ (e1 + 1074) = 2 ^ 52 * 2 ^ (e1 + 1 + 1074)) as Hcarry.
      { rewrite <- !Z.pow_add_r by lia. f_equal. lia. }
      destruct (Z.leb_spec (e1 + 1) (1024 - 53)) as [Hfin|Hinf].
      * cbn [fnum fkey]. split; [exact I|].
        change (Zpos 4503599627370496) with (2 ^ 52).
        rewrite sat_small; [by destruct s; lia|].
        rewrite <- Z.pow_add_r by lia. apply Z.pow_lt_mono_r; lia.
      * cbn [fnum fkey]. split; [exact I|].
        rewrite sat_big; [by destruct s; lia|].
        rewrite <- Z.pow_add_r by lia. apply pow2_le. lia.
  - (* the mantissa is kept *)
    rewrite (round64_noshift P E) by (fold d e1; lia).
    assert (d <= 53) as Hd53 by lia.
    assert (Zpos P < 2 ^ 53) as HP.
    { pose proof (pow2_le d 53 ltac:(lia)). lia. }
    pose proof (pow2_pos (E + 1074) ltac:(lia)) as Hpe.
    unfold binary_round_aux, shr_fexp. cbn [shr_record_of_loc Zdigits2].
    fold d. fold e1.
    rewrite shr_none by lia.
    cbn [shr_m loc_of_shr_record round_nearest_even Zdigits2].
    fold d. fold e1. rewrite shr_none by lia. cbn [shr_m].
    destruct (Z.leb_spec E (1024 - 53)) as [Hfin|Hinf].
    + cbn [fnum fkey]. split; [exact I|].
      rewrite sat_small; [by destruct s; lia|].
      apply Z.lt_le_trans with (2 ^ 53 * 2 ^ (E + 1074)).
      { apply Zmult_lt_compat_r; lia. }
      rewrite <- Z.pow_add_r by lia. apply pow2_le. lia.
    + cbn [fnum fkey]. split; [exact I|].
      rewrite sat_big; [by destruct s; lia|].
      specialize (Hbig ltac:(lia)).
      assert (2 ^ 52 <= Zpos P) as HP52.
      { pose proof (pow2_le 52 (d - 1) ltac:(lia)). lia. }
      apply Z.le_trans with (2 ^ 52 * 2 ^ (E + 1074)).
      { rewrite <- Z.pow_add_r by lia. apply pow2_le. lia. }
      apply Z.mul_le_mono_nonneg_r; lia.
Qed.

Lemma product_digits (mf mg : positive) :
  Zpos (digits2_pos mf) + Zpos (digits2_pos mg) - 1 ≤ Zpos (digits2_pos (mf * mg)).
Proof.
  pose proof (digits2_bounds mf) as Hbf.
  pose proof (digits2_bounds mg) as Hbg.
  pose proof (digits2_bounds (mf * mg)) as Hb.
  set (df := Zpos (digits2_pos mf)) in *.
  set (dg := Zpos (digits2_pos mg)) in *.
  set (d := Zpos (digits2_pos (mf * mg))) in *.
  assert (1 <= df) as Hdf1 by (unfold df; lia).
  assert (1 <= dg) as Hdg1 by (unfold dg; lia).
  assert (1 <= d) as Hd1 by (unfold d; lia).
  rewrite Pos2Z.inj_mul in Hb.
  pose proof (pow2_pos (df - 1) ltac:(lia)).
  pose proof (pow2_pos (dg - 1) ltac:(lia)).
  assert (df - 1 + (dg - 1) < d); [|lia].
  apply pow2_lt_inv; [lia|]. rewrite Z.pow_add_r by lia. nia.
Qed.

(** The product of two finite doubles. *)
Lemma SFmul_finite_key (sf sg : bool) (mf mg : positive) (ef eg : Z) :
  SpecFloat.valid_binary 53 1024 (S754_finite sf mf ef) = true →
  SpecFloat.valid_binary 53 1024 (S754_finite sg mg eg) = true →
  fnum (SFmul 53 1024 (S754_finite sf mf ef) (S754_finite sg mg eg)) ∧
  fkey (SFmul 53 1024 (S754_finite sf mf ef) (S754_finite sg mg eg))
  = (if xorb sf sg then -1 else 1)
    * sat (round64 (Zpos mf * 2 ^ (ef + 1074) * (Zpos mg * 2 ^ (eg + 1074)))).
Proof.
  intros Vf Vg.
  apply valid_finite in Vf as (Hef & Hdf & Hnf).
  apply valid_finite in Vg as (Heg & Hdg & Hng).
  pose proof (product_digits mf mg) as Hd.
  cbn [SFmul].
  change (Z.pos (PosDef.Pos.mul mf mg)) with (Z.pos (mf * mg)).
  change (Z.add ef eg) with (ef + eg).
  assert (Z.pos mf * 2 ^ (ef + 1074) * (Z.pos mg * 2 ^ (eg + 1074))
          = Z.pos (mf * mg) * 2 ^ (ef + eg + 2148)) as ->.
  { replace (ef + eg + 2148) with ((ef + 1074) + (eg + 1074)) by lia.
    rewrite (Z.pow_add_r 2 (ef + 1074) (eg + 1074)) by lia.
    rewrite Pos2Z.inj_mul. ring. }
  apply binary_round_aux_key; [lia|].
  intros Hbig. specialize (Hnf ltac:(lia)). specialize (Hng ltac:(lia)). lia.
Qed.

Lemma round64_pow2 (n : Z) : 1126 ≤ n → round64 (2 ^ n) = 2 ^ (n - 1074).
Proof.
  intros Hn. unfold round64. rewrite Z.log2_pow2 by lia.
  replace (Z.max (n + 1 - 53) 1074) with (n - 52) by lia.
  unfold rne.
  replace (2 ^ n) with (2 ^ 52 * 2 ^ (n - 52))
    by (rewrite <- Z.pow_add_r by lia; f_equal; lia).
  pose proof (pow2_pos (n - 52) ltac:(lia)) as Hp.
  pose proof (pow2_pos (n - 52 - 1) ltac:(lia)) as Hh.
  rewrite Z.div_mul, Z.mod_mul by lia.
  replace (2 ^ (n - 52 - 1) <? 0) with false by (symmetry; apply Z.ltb_ge; lia).
  replace (0 =? 2 ^ (n - 52 - 1)) with false by (symmetry; apply Z.eqb_neq; lia).
  cbn [orb andb]. rewrite Z.add_0_r.
  rewrite <- Z.pow_add_r by lia. f_equal. lia.
Qed.

Lemma sat_round64_big (w : Z) : 2 ^ 3200 ≤ w → sat (round64 w) = 2 ^ 3200.
Proof.
  intros Hw. apply sat_big.
  change (2 ^ 2098) with (2 ^ (3172 - 1074)).
  rewrite <- (round64_pow2 3172) by lia. apply round64_mono.
  split; [apply Z.lt_le_incl, pow2_pos; lia|].
  pose proof (pow2_le 3172 3200 ltac:(lia)). lia.
Qed.

(** The product of two doubles, when it is not nan. *)
Lemma SFmul_key (f g : spec_float) :
  SpecFloat.valid_binary 53 1024 f = true →
  SpecFloat.valid_binary 53 1024 g = true →
  fnum (SFmul 53 1024 f g) →
  fkey (SFmul 53 1024 f g) = mul_key (fkey f) (fkey g).
Proof.
  intros Vf Vg Hn. unfold mul_key.
  assert (0 < 2 ^ 3200) as Hbig by (apply pow2_pos; lia).
  assert (∀ X Y : Z, 0 < X → 0 < Y →
            Z.sgn (X * Y) = 1 ∧ Z.sgn (- X * Y) = -1 ∧ Z.sgn (X * - Y) = -1 ∧
            Z.sgn (- X * - Y) = 1 ∧ Z.abs (X * Y) = X * Y ∧
            Z.abs (- X * Y) = X * Y ∧ Z.abs (X * - Y) = X * Y ∧
            Z.abs (- X * - Y) = X * Y) as Hsgn.
  { intros X Y HX HY. assert (0 < X * Y) by nia.
    replace (- X * Y) with (- (X * Y)) by ring.
    replace (X * - Y) with (- (X * Y)) by ring.
    replace (- X * - Y) with (X * Y) by ring. lia. }
  assert (∀ X Y : Z, 2 ^ 3200 ≤ X → 0 < Y → 2 ^ 3200 ≤ X * Y) as Hprod
    by (intros X Y HX HY; nia).
  destruct f as [sf|sf| |sf mf ef], g as [sg|sg| |sg mg eg]; try done.
  - cbn [SFmul fkey].
    destruct (Hsgn (2 ^ 3200) (2 ^ 3200) Hbig Hbig)
      as (S1 & S2 & S3 & S4 & A1 & A2 & A3 & A4).
    pose proof (sat_round64_big _ (Hprod _ _ (Z.le_refl _) Hbig)) as Hs.
    destruct sf, sg; cbn [xorb];
      rewrite ?S1, ?S2, ?S3, ?S4, ?A1, ?A2, ?A3, ?A4, Hs; lia.
  - cbn [SFmul fkey].
    pose proof (finite_key_bounds mg eg Vg) as Hg.
    destruct (Hsgn (2 ^ 3200) (Zpos mg * 2 ^ (eg + 1074)) Hbig ltac:(lia))
      as (S1 & S2 & S3 & S4 & A1 & A2 & A3 & A4).
    pose proof (sat_round64_big _ (Hprod _ (Zpos mg * 2 ^ (eg + 1074))
                                     (Z.le_refl _) ltac:(lia))) as Hs.
    destruct sf, sg; cbn [xorb];
      rewrite ?S1, ?S2, ?S3, ?S4, ?A1, ?A2, ?A3, ?A4, Hs; lia.
  - cbn [SFmul fkey]. rewrite Z.mul_0_r. reflexivity.
  - cbn [SFmul fkey].
    pose proof (finite_key_bounds mf ef Vf) as Hf.
    destruct (Hsgn (Zpos mf * 2 ^ (ef + 1074)) (2 ^ 3200) ltac:(lia) Hbig)
      as (S1 & S2 & S3 & S4 & A1 & A2 & A3 & A4).
    pose proof (sat_round64_big _ (Hprod _ (Zpos mf * 2 ^ (ef + 1074))
                                     (Z.le_refl _) ltac:(lia))) as Hs.
    rewrite (Z.mul_comm (2 ^ 3200)) in Hs.
    destruct sf, sg; cbn [xorb];
      rewrite ?S1, ?S2, ?S3, ?S4, ?A1, ?A2, ?A3, ?A4, Hs; lia.
  - destruct (SFmul_finite_key sf sg mf mg ef eg Vf Vg) as [_ ->].
    cbn [fkey].
    pose proof (finite_key_bounds mf ef Vf) as Hf.
    pose proof (finite_key_bounds mg eg Vg) as Hg.
    destruct (Hsgn (Zpos mf * 2 ^ (ef + 1074)) (Zpos mg * 2 ^ (eg + 1074))
                ltac:(lia) ltac:(lia))
      as (S1 & S2 & S3 & S4 & A1 & A2 & A3 & A4).
    destruct sf, sg; cbn [xorb];
      rewrite ?S1, ?S2, ?S3, ?S4, ?A1, ?A2, ?A3, ?A4; reflexivity.
Qed.

Lemma SFmul_num (f g : spec_float) :
  fnum (SFmul 53 1024 f g) → fnum f ∧ fnum g.
Proof. by destruct f, g. Qed.

Lemma SFmul_finite_num (f g : spec_float) :
  SpecFloat.valid_binary 53 1024 f = true →
  SpecFloat.valid_binary 53 1024 g = true →
  ffinite f → ffinite g → fnum (SFmul 53 1024 f g).
Proof.
  intros Vf Vg Hf Hg.
  destruct f as [sf|sf| |sf mf ef], g as [sg|sg| |sg mg eg]; try done.
  by destruct (SFmul_finite_key sf sg mf mg ef eg Vf Vg).
Qed.

Lemma fkey_finite (f : spec_float) :
  fnum f → Z.abs (fkey f) < 2 ^ 3200 → ffinite f.
Proof. destruct f as [s|s| |s m e]; try done. destruct s; cbn [fkey]; lia. Qed.

(** Rounding keeps the order of the exact products. *)
Lemma mul_key_mono (a1 a2 b : Z) :
  a1 ≤ a2 → 0 ≤ b → mul_key a1 b ≤ mul_key a2 b.
Proof.
  intros Ha Hb. unfold mul_key.
  assert (a1 * b <= a2 * b) as Hw by nia.
  set (w1 := a1 * b) in *. set (w2 := a2 * b) in *. clearbody w1 w2.
  assert (∀ w, 0 ≤ sat (round64 (Z.abs w))) as Hnn.
  { intros w. apply sat_nonneg, round64_nonneg. lia. }
  assert (∀ u v, 0 ≤ u ≤ v → sat (round64 u) ≤ sat (round64 v)) as Hmono.
  { intros u v Huv. by apply sat_mono, round64_mono. }
  pose proof (Hnn w1). pose proof (Hnn w2).
  destruct (Z.sgn_spec w1) as [[H1 ->]|[[H1 ->]|[H1 ->]]],
           (Z.sgn_spec w2) as [[H2 ->]|[[H2 ->]|[H2 ->]]]; try lia.
  - pose proof (Hmono (Z.abs w1) (Z.abs w2) ltac:(lia)). lia.
  - pose proof (Hmono (Z.abs w2) (Z.abs w1) ltac:(lia)). lia.
Qed.

(** *** Products of doubles *)

Lemma float_mul_num (x y : float) : float_num (x * y) → float_num x ∧ float_num y.
Proof. rewrite !float_num_spec, mul_spec. apply SFmul_num. Qed.

Lemma float_mul_key (x y : float) :
  float_num (x * y) → float_key (x * y) = mul_key (float_key x) (float_key y).
Proof.
  intros Hn. apply float_num_spec in Hn. unfold float_key.
  rewrite mul_spec in *. apply SFmul_key; [apply Prim2SF_valid..|done].
Qed.

Lemma float_finite_mul_num (x y : float) :
  float_num x → float_num y →
  Z.abs (float_key x) < 2 ^ 3200 → Z.abs (float_key y) < 2 ^ 3200 →
  float_num (x * y).
Proof.
  intros Nx Ny Hx Hy. apply float_num_spec in Nx, Ny. apply float_num_spec.
  rewrite mul_spec.
  apply SFmul_finite_num; [apply Prim2SF_valid..| |]; by apply fkey_finite.
Qed.

(** Multiplying by a non-negative double keeps the order, as long as
    neither product is nan. *)
Lemma float_mul_mono (x y a : float) :
  float_num (x * a) → float_num (y * a) →
  0 ≤ float_key a → float_key x ≤ float_key y →
  float_key (x * a) ≤ float_key (y * a).
Proof.
  intros Nx Ny Ha Hxy. rewrite (float_mul_key _ _ Nx), (float_mul_key _ _ Ny).
  by apply mul_key_mono.
Qed.

(** *** Doubles in [[0, 1]] *)

Lemma float_key_0 : float_key 0%float = 0.
Proof. reflexivity. Qed.

Lemma float_key_1 : float_key 1%float = 2 ^ 1074.
Proof. vm_compute. reflexivity. Qed.

Lemma unit_float_spec (x : float) :
  unit_float x = true ↔ float_num x ∧ 0 ≤ float_key x ≤ 2 ^ 1074.
Proof.
  unfold unit_float. rewrite andb_true_iff. split.
  - intros [H0 H1]. pose proof (float_leb_num _ _ H0) as [Hz Hx].
    pose proof (float_leb_num _ _ H1) as [_ Ho].
    rewrite (float_leb_key _ _ Hz Hx) in H0. rewrite (float_leb_key _ _ Hx Ho) in H1.
    rewrite float_key_0 in H0. rewrite float_key_1 in H1.
    apply Z.leb_le in H0, H1. done.
  - intros (Hx & H0 & H1).
    assert (float_num 0%float) as Hz by reflexivity.
    assert (float_num 1%float) as Ho by reflexivity.
    rewrite (float_leb_key _ _ Hz Hx), (float_leb_key _ _ Hx Ho).
    rewrite float_key_0, float_key_1. split; by apply Z.leb_le.
Qed.

(** The product of two doubles of [[0, 1]] is a double of [[0, 1]]: the
    rounding of the exact product. *)
Lemma unit_float_mul (x y : float) :
  unit_float x = true → unit_float y = true →
  unit_float (x * y) = true ∧
  float_key (x * y) = round64 (float_key x * float_key y).
Proof.
  intros Hx Hy.
  apply unit_float_spec in Hx as (Nx & Hx0 & Hx1), Hy as (Ny & Hy0 & Hy1).
  pose proof pow2_2098_3200 as Hcst.
  assert (2 ^ 1074 < 2 ^ 2098) as Hlt by (apply Z.pow_lt_mono_r; lia).
  assert (float_num (x * y)) as Nxy by (apply float_finite_mul_num; try done; lia).
  assert (0 <= float_key x * float_key y <= 2 ^ 2148) as Hprod.
  { split; [by apply Z.mul_nonneg_nonneg|].
    change (2 ^ 2148) with (2 ^ 1074 * 2 ^ 1074).
    by apply Z.mul_le_mono_nonneg. }
  pose proof (round64_nonneg _ (proj1 Hprod)) as Hr0.
  pose proof (round64_mono _ _ Hprod) as Hr1.
  rewrite (round64_pow2 2148) in Hr1 by lia.
  change (2 ^ (2148 - 1074)) with (2 ^ 1074) in Hr1.
  assert (float_key (x * y) = round64 (float_key x * float_key y)) as Hkey.
  { rewrite (float_mul_key _ _ Nxy). unfold mul_key.
    destruct (Z.eq_dec (float_key x * float_key y) 0) as [->|Hne].
    - by rewrite round64_0.
    - rewrite Z.sgn_pos, Z.abs_eq, sat_small by lia. lia. }
  split; [|done]. apply unit_float_spec. split; [done|]. lia.
Qed.

End FloatRounding.

(** ** Numbers that can be compared: exact numbers and doubles *)

Section OrdComparable.
Context {A : Type} `{PyNumOrd A}.

#[export] Instance ord_PyNumCmp : PyNumCmp A := {|
  comparable := λ _, true;
  cmp_gtb_asym := λ x y _ _, num_gtb_asym x y;
  cmp_le_trans := λ x y z _ _ _, num_le_trans x y z;
  cmp_eqb_spec := λ x y _ _, num_eqb_spec x y;
|}.

End OrdComparable.

Lemma float_gtb_key (x y : float) :
  PrimFloat.eqb x x = true → PrimFloat.eqb y y = true →
  num_gtb x y = (float_key y <? float_key x)%Z.
Proof. intros Hx Hy. simpl. by apply float_ltb_key. Qed.

Lemma float_gtb_asym (x y : float) :
  PrimFloat.eqb x x = true → PrimFloat.eqb y y = true →
  num_gtb x y = true → num_gtb y x = false.
Proof.
  intros Hx Hy. rewrite (float_gtb_key x y), (float_gtb_key y x) by done.
  rewrite Z.ltb_lt, Z.ltb_ge. lia.
Qed.

Lemma float_le_trans (x y z : float) :
  PrimFloat.eqb x x = true → PrimFloat.eqb y y = true → PrimFloat.eqb z z = true →
  num_gtb x y = false → num_gtb y z = false → num_gtb x z = false.
Proof.
  intros Hx Hy Hz.
  rewrite (float_gtb_key x y), (float_gtb_key y z), (float_gtb_key x z) by done.
  rewrite !Z.ltb_ge. lia.
Qed.

Lemma float_eqb_gtb (x y : float) :
  PrimFloat.eqb x x = true → PrimFloat.eqb y y = true →
  num_eqb x y = negb (num_gtb x y) && negb (num_gtb y x).
Proof.
  intros Hx Hy. rewrite (float_gtb_key x y), (float_gtb_key y x) by done.
  simpl. rewrite (float_eqb_key x y) by done.
  destruct (Z.eqb_spec (float_key x) (float_key y)),
    (Z.ltb_spec (float_key y) (float_key x)),
    (Z.ltb_spec (float_key x) (float_key y)); simpl; lia.
Qed.

#[export] Instance float_PyNumCmp : PyNumCmp float := {|
  comparable := λ x, PrimFloat.eqb x x;
  cmp_gtb_asym := float_gtb_asym;
  cmp_le_trans := float_le_trans;
  cmp_eqb_spec := float_eqb_gtb;
|}.

(** ** The order on comparable numbers and on (probability, state) pairs *)

Section CmpOrder.
Context {A : Type} `{PyNumCmp A}.

Lemma cmp_le_refl (x : A) : comparable x = true → num_le x x.
Proof.
  intros Hx. unfold num_le. destruct (num_gtb x x) eqn:E; [|done].
  pose proof (cmp_gtb_asym _ _ Hx Hx E). congruence.
Qed.

Lemma cmp_gtb_trans (x y z : A) :
  comparable x = true → comparable y = true → comparable z = true →
  num_gtb x y = true → num_gtb y z = true → num_gtb x z = true.
Proof.
  intros Hx Hy Hz Hxy Hyz. destruct (num_gtb x z) eqn:E; [done|].
  pose proof (cmp_le_trans y x z Hy Hx Hz (cmp_gtb_asym _ _ Hx Hy Hxy) E).
  congruence.
Qed.

Lemma cmp_eqb_true (x y : A) :
  comparable x = true → comparable y = true →
  num_eqb x y = true ↔ num_le x y ∧ num_le y x.
Proof.
  intros Hx Hy. unfold num_le. rewrite cmp_eqb_spec by done.
  destruct (num_gtb x y), (num_gtb y x); simpl; intuition congruence.
Qed.

(** On comparable numbers [x <= y] is [not (x > y)]. *)
Lemma cmp_leq (x y : A) :
  comparable x = true → comparable y = true → num_leq x y ↔ num_le x y.
Proof.
  intros Hx Hy. unfold num_leq, num_le. rewrite cmp_eqb_spec by done.
  destruct (num_gtb x y) eqn:E1, (num_gtb y x) eqn:E2; simpl;
    try (intuition congruence).
  pose proof (cmp_gtb_asym _ _ Hx Hy E1). congruence.
Qed.

Lemma cmp_pair_gtb_true (x y : A * string) :
  comparable x.1 = true → comparable y.1 = true →
  pair_gtb x y = true ↔
  num_gtb x.1 y.1 = true ∨
  (num_le x.1 y.1 ∧ num_le y.1 x.1 ∧ str_gtb x.2 y.2 = true).
Proof.
  intros Hx Hy. unfold pair_gtb, num_le. rewrite cmp_eqb_spec by done.
  destruct (num_gtb x.1 y.1) eqn:E1, (num_gtb y.1 x.1) eqn:E2; simpl.
  - pose proof (cmp_gtb_asym _ _ Hx Hy E1). congruence.
  - intuition congruence.
  - intuition congruence.
  - destruct (String.eqb_spec x.2 y.2) as [->|Hne]; simpl.
    + rewrite str_gtb_irrefl. intuition congruence.
    + intuition congruence.
Qed.

Lemma cmp_pair_gtb_false (x y : A * string) :
  comparable x.1 = true → comparable y.1 = true →
  pair_gtb x y = false ↔
  num_le x.1 y.1 ∧ (num_eqb x.1 y.1 = true → str_gtb x.2 y.2 = false).
Proof.
  intros Hx Hy. rewrite (cmp_eqb_true _ _ Hx Hy).
  destruct (pair_gtb x y) eqn:E.
  - apply cmp_pair_gtb_true in E; [|done..]. unfold num_le in *.
    split; [done|]. intros [H1 H2]. destruct E as [E|(E1 & E2 & E3)].
    + congruence.
    + specialize (H2 (conj E1 E2)). congruence.
  - split; [intros _|done].
    destruct (num_gtb x.1 y.1) eqn:E1.
    { assert (pair_gtb x y = true) by (apply cmp_pair_gtb_true; auto). congruence. }
    split; [done|]. intros [_ E2].
    destruct (str_gtb x.2 y.2) eqn:E3; [|done].
    assert (pair_gtb x y = true) by (apply cmp_pair_gtb_true; auto). congruence.
Qed.

Lemma cmp_pair_gtb_trans (x y z : A * string) :
  comparable x.1 = true → comparable y.1 = true → comparable z.1 = true →
  pair_gtb x y = true → pair_gtb y z = true → pair_gtb x z = true.
Proof.
  intros Hx Hy Hz.
  rewrite !cmp_pair_gtb_true by done. unfold num_le.
  intros [Hxy|(Hxy1 & Hxy2 & Hs1)] [Hyz|(Hyz1 & Hyz2 & Hs2)].
  - left. by eapply (cmp_gtb_trans _ y.1).
  - left. destruct (num_gtb x.1 z.1) eqn:E; [done|].
    pose proof (cmp_le_trans _ _ _ Hx Hz Hy E Hyz2). congruence.
  - left. destruct (num_gtb x.1 z.1) eqn:E; [done|].
    pose proof (cmp_le_trans _ _ _ Hy Hx Hz Hxy2 E). congruence.
  - right. split_and!; [by eapply (cmp_le_trans _ y.1)..|by eapply str_gtb_trans].
Qed.

Lemma cmp_pair_le_trans (x y z : A * string) :
  comparable x.1 = true → comparable y.1 = true → comparable z.1 = true →
  pair_gtb x y = false → pair_gtb y z = false → pair_gtb x z = false.
Proof.
  intros Hx Hy Hz.
  rewrite !cmp_pair_gtb_false, !cmp_eqb_true by done. unfold num_le.
  intros [Hxy Hs1] [Hyz Hs2]. split; [by eapply (cmp_le_trans _ y.1)|].
  intros [_ Hzx].
  pose proof (cmp_le_trans _ _ _ Hz Hx Hy Hzx Hxy) as Hzy.
  pose proof (cmp_le_trans _ _ _ Hy Hz Hx Hyz Hzx) as Hyx.
  eapply str_le_trans; eauto.
Qed.

(** [max_loop] over comparable items returns one of them, and none is
    greater. *)
Lemma cmp_max_loop_spec (items : list (A * string)) (best : A * string) :
  Forall (λ x, comparable x.1 = true) (best :: items) →
  ∀ x, x ∈ best :: items → pair_gtb x (max_loop best items) = false.
Proof.
  revert best. induction items as [|y items IH]; intros best Hall; simpl.
  - intros x Hx. apply list_elem_of_singleton in Hx as ->.
    apply Forall_cons in Hall as [Hb _].
    apply cmp_pair_gtb_false; [done..|].
    split; [by apply cmp_le_refl|]. intros _. apply str_gtb_irrefl.
  - apply Forall_cons in Hall as [Hb Hall].
    apply Forall_cons in Hall as [Hy Hall].
    assert (Forall (λ x, comparable x.1 = true)
              ((if pair_gtb y best then y else best) :: items)) as Hall'.
    { constructor; [by destruct (pair_gtb y best)|done]. }
    pose proof (IH _ Hall') as Hmax.
    assert (comparable (max_loop (if pair_gtb y best then y else best) items).1 = true)
      as Hm.
    { rewrite Forall_forall in Hall'. apply Hall'. apply max_loop_elem. }
    intros x Hx.
    destruct (pair_gtb y best) eqn:E.
    + apply elem_of_cons in Hx as [->|Hx]; [|by apply Hmax].
      destruct (pair_gtb best (max_loop y items)) eqn:E2; [|done].
      pose proof (cmp_pair_gtb_trans _ _ _ Hy Hb Hm E E2) as E3.
      rewrite Hmax in E3 by set_solver. done.
    + apply elem_of_cons in Hx as [->|Hx]; [apply Hmax; set_solver|].
      apply elem_of_cons in Hx as [->|Hx]; [|apply Hmax; set_solver].
      eapply (cmp_pair_le_trans _ best); [done..|exact E|]. apply Hmax. set_solver.
Qed.

(** The result of [max] over comparable items: no item has a greater
    value, and no item of equal value has a greater label. *)
Lemma cmp_py_max_greatest (items : list (A * string)) (r : A * string) :
  Forall (λ x, comparable x.1 = true) items →
  py_max items = Ok r →
  ∀ x, x ∈ items →
    num_le x.1 r.1 ∧ (num_eqb x.1 r.1 = true → str_gtb x.2 r.2 = false).
Proof.
  destruct items as [|y items]; [done|]. simpl. intros Hall [= <-] x Hx.
  assert (comparable (max_loop y items).1 = true) as Hm.
  { rewrite Forall_forall in Hall. apply Hall. apply max_loop_elem. }
  apply cmp_pair_gtb_false; [|done|by apply cmp_max_loop_spec].
  rewrite Forall_forall in Hall. by apply Hall.
Qed.

End CmpOrder.

(** ** The recurrence with its rule for ties *)

Lemma sorted_lookup {T : Type} (R : relation T) (l : list T) (i j : nat) (a b : T) :
  StronglySorted R l → i < j → l !! i = Some a → l !! j = Some b → R a b.
Proof.
  intros Hs Hij Ha Hb. rewrite <- (take_drop j l) in Hs.
  apply (StronglySorted_app_1_elem_of R _ _ _ _ Hs).
  - apply list_elem_of_lookup. exists i. by rewrite lookup_take_lt.
  - apply list_elem_of_lookup. exists 0. by rewrite lookup_drop, Nat.add_0_r.
Qed.

(** Listed from the greatest label down, the states are preferred by label
    as they are by position. *)
Lemma prefers_decreasing (sts : list string) (chosen other : string) :
  decreasing_labels sts → chosen ∈ sts → other ∈ sts →
  prefers_label chosen other ↔ prefers_earlier sts chosen other.
Proof.
  intros Hs Hc Ho. unfold prefers_label, prefers_earlier. split.
  - intros Hle. apply list_elem_of_lookup in Hc as [i Hi].
    exists i. split; [done|]. intros j Hj.
    destruct (decide (i ≤ j)%nat) as [|Hlt]; [done|].
    pose proof (sorted_lookup _ _ j i _ _ Hs ltac:(lia) Hj Hi) as Hgt.
    simpl in Hgt. congruence.
  - intros (i & Hi & Hmin). apply list_elem_of_lookup in Ho as [j Hj].
    specialize (Hmin j Hj).
    destruct (decide (i = j)) as [->|Hne].
    { simplify_eq. apply str_gtb_irrefl. }
    pose proof (sorted_lookup _ _ i j _ _ Hs ltac:(lia) Hi Hj) as Hgt.
    by apply str_gtb_asym.
Qed.

Lemma prefers_label_antisym (a b : string) :
  prefers_label a b → prefers_label b a → a = b.
Proof. unfold prefers_label. intros Hab Hba. by apply str_le_antisym. Qed.

Section TieEntries.
Context {A : Type} `{PyNumCmp A}.
Variables (start_prob : gmap string A) (trans_prob emit_prob : gmap string (gmap string A)).
Variables (obs sts : list string).

Lemma tie_entry_state pref t s v p :
  tie_entry start_prob trans_prob emit_prob pref obs sts t s v p → s ∈ sts.
Proof. destruct t; simpl; tauto. Qed.

(** The value of an entry is the product along its stored path. *)
Lemma tie_entry_path pref t : ∀ s v p,
  tie_entry start_prob trans_prob emit_prob pref obs sts t s v p →
  path_at start_prob trans_prob emit_prob obs sts t s v p.
Proof.
  induction t as [|t IH]; intros s v p; simpl.
  - intros (Hs & o & a & b & Ho & Ha & Hb & -> & ->). by eapply path_at_init.
  - intros (Hs & o & prev & v0 & p0 & a & b & Ho & Hprev & Hent & Ha & Hb & -> & -> & _).
    destruct (IH _ _ _ Hent) as ([Hpl Hps] & Hplast & Hpprob).
    pose proof (lookup_lt_Some _ _ _ Ho) as Hlt.
    assert (length (take (S t) obs) = S t) as Hlen by (rewrite length_take; lia).
    unfold path_at. rewrite (take_S_r _ _ _ Ho). split_and!.
    + split; [rewrite length_app; simpl; lia|].
      apply Forall_app. split; [done|]. by constructor.
    + by rewrite last_snoc.
    + rewrite (seq_prob_snoc _ _ _ _ _ prev) by (done || lia).
      rewrite Hpprob. simpl. by rewrite Ha, Hb.
Qed.

(** The entries for one ordering of the states are those for another. *)
Lemma tie_entry_same_states pref sts' :
  (∀ x, x ∈ sts ↔ x ∈ sts') →
  ∀ t s v p,
    tie_entry start_prob trans_prob emit_prob pref obs sts t s v p ↔
    tie_entry start_prob trans_prob emit_prob pref obs sts' t s v p.
Proof.
  intros Hsame. induction t as [|t IH]; intros s v p; simpl.
  - by rewrite Hsame.
  - split.
    + intros (Hs & o & prev & v0 & p0 & a & b & Ho & Hprev & Hent & Ha & Hb & -> & -> & Hmax).
      split; [by apply Hsame|].
      exists o, prev, v0, p0, a, b. split_and!; try done; [by apply Hsame|by apply IH|].
      intros p' v' q' a' Hp' Hent' Ha'.
      apply (Hmax p' v' q' a'); [by apply Hsame|by apply IH|done].
    + intros (Hs & o & prev & v0 & p0 & a & b & Ho & Hprev & Hent & Ha & Hb & -> & -> & Hmax).
      split; [by apply Hsame|].
      exists o, prev, v0, p0, a, b. split_and!; try done; [by apply Hsame|by apply IH|].
      intros p' v' q' a' Hp' Hent' Ha'.
      apply (Hmax p' v' q' a'); [by apply Hsame|by apply IH|done].
Qed.

(** Two rules for ties that agree on the states give the same entries. *)
Lemma tie_entry_same_rule pref pref' :
  (∀ a b, a ∈ sts → b ∈ sts → pref a b ↔ pref' a b) →
  ∀ t s v p,
    tie_entry start_prob trans_prob emit_prob pref obs sts t s v p ↔
    tie_entry start_prob trans_prob emit_prob pref' obs sts t s v p.
Proof.
  intros Hsame. induction t as [|t IH]; intros s v p; simpl; [done|].
  split.
  - intros (Hs & o & prev & v0 & p0 & a & b & Ho & Hprev & Hent & Ha & Hb & -> & -> & Hmax).
    split; [done|].
    exists o, prev, v0, p0, a, b. split_and!; try done; [by apply IH|].
    intros p' v' q' a' Hp' Hent' Ha'.
    destruct (Hmax p' v' q' a') as [Hle Heq]; [done|by apply IH|done|].
    split; [done|]. intros E. apply Hsame; auto.
  - intros (Hs & o & prev & v0 & p0 & a & b & Ho & Hprev & Hent & Ha & Hb & -> & -> & Hmax).
    split; [done|].
    exists o, prev, v0, p0, a, b. split_and!; try done; [by apply IH|].
    intros p' v' q' a' Hp' Hent' Ha'.
    destruct (Hmax p' v' q' a') as [Hle Heq]; [done|by apply IH|done|].
    split; [done|]. intros E. apply Hsame; auto.
Qed.

Hypothesis Hcmp : products_comparable start_prob trans_prob emit_prob obs sts.

Lemma tie_entry_comparable pref t s v p :
  tie_entry start_prob trans_prob emit_prob pref obs sts t s v p →
  comparable v = true.
Proof.
  intros Hent. destruct (tie_entry_path _ _ _ _ _ Hent) as (Hseq & _ & Hprob).
  exact (Hcmp _ _ _ Hseq Hprob).
Qed.

Lemma tie_candidate_comparable pref t o c p' v' q' a' b :
  obs !! S t = Some o → c ∈ sts →
  tie_entry start_prob trans_prob emit_prob pref obs sts t p' v' q' →
  table_at trans_prob p' c = Some a' → table_at emit_prob c o = Some b →
  comparable (num_mul (num_mul v' a') b) = true.
Proof.
  intros Ho Hc Hent Ha Hb.
  destruct (tie_entry_path _ _ _ _ _ Hent) as ([Hpl Hps] & Hplast & Hpprob).
  pose proof (lookup_lt_Some _ _ _ Ho) as Hlt.
  assert (length (take (S t) obs) = S t) as Hlen by (rewrite length_take; lia).
  apply (Hcmp (S (S t)) (q' ++ [c])).
  - split; [rewrite length_app; simpl; lia|].
    apply Forall_app. split; [done|]. by constructor.
  - rewrite (take_S_r _ _ _ Ho).
    rewrite (seq_prob_snoc _ _ _ _ _ p') by (done || lia).
    rewrite Hpprob. simpl. by rewrite Ha, Hb.
Qed.

(** Each state has one entry per step. *)
Lemma tie_entry_functional pref :
  (∀ a b, a ∈ sts → b ∈ sts → pref a b → pref b a → a = b) →
  ∀ t s v p v' p',
    tie_entry start_prob trans_prob emit_prob pref obs sts t s v p →
    tie_entry start_prob trans_prob emit_prob pref obs sts t s v' p' →
    v = v' ∧ p = p'.
Proof.
  intros Hanti. induction t as [|t IH]; intros s v p v' p'.
  - intros (_ & o & a & b & Ho & Ha & Hb & -> & ->)
           (_ & o' & a' & b' & Ho' & Ha' & Hb' & -> & ->).
    by simplify_eq.
  - intros (Hs & o & prev & v0 & p0 & a & b & Ho & Hprev & Hent & Ha & Hb & -> & -> & Hmax)
           (_ & o' & prev' & v0' & p0' & a' & b' & Ho' & Hprev' & Hent' & Ha' & Hb' & -> & -> & Hmax').
    simplify_eq.
    destruct (Hmax prev' v0' p0' a' Hprev' Hent' Ha') as [Hle1 Heq1].
    destruct (Hmax' prev v0 p0 a Hprev Hent Ha) as [Hle2 Heq2].
    pose proof (tie_candidate_comparable _ _ _ _ _ _ _ _ _ Ho Hs Hent Ha Hb) as Hc1.
    pose proof (tie_candidate_comparable _ _ _ _ _ _ _ _ _ Ho Hs Hent' Ha' Hb) as Hc2.
    assert (prev = prev') as <-.
    { apply Hanti; [done..| |].
      - apply Heq1. by apply cmp_eqb_true.
      - apply Heq2. by apply cmp_eqb_true. }
    destruct (IH _ _ _ _ _ Hent Hent') as [-> ->]. by simplify_eq.
Qed.

(** Lines 50-59 establish the entry of the next step. *)
Lemma tie_entry_step t o c row pm items max_prob prev_st p :
  obs !! S t = Some o → c ∈ sts →
  layer sts (tie_entry start_prob trans_prob emit_prob prefers_label obs sts) t row pm →
  candidates sts trans_prob emit_prob row o c items →
  py_max items = Ok (max_prob, prev_st) →
  pm !! prev_st = Some p →
  tie_entry start_prob trans_prob emit_prob prefers_label obs sts
            (S t) c max_prob (p ++ [c]).
Proof.
  intros Ho Hc Hlayer Hitems Hmax Hp.
  assert (Forall (λ x : A * string, comparable x.1 = true) items) as Hall.
  { rewrite Forall_forall. intros item Hitem.
    apply list_elem_of_lookup in Hitem as [j Hj].
    destruct (Forall2_lookup_r _ _ _ _ _ Hitems Hj)
      as (p1 & Hp1 & (v1 & a1 & b1 & Hv1 & Ha1 & Hb1 & ->)).
    apply list_elem_of_lookup_2 in Hp1.
    destruct (Hlayer p1 Hp1) as (v2 & q2 & Hv2 & _ & Hent2). simplify_eq.
    exact (tie_candidate_comparable _ _ _ _ _ _ _ _ _ Ho Hc Hent2 Ha1 Hb1). }
  pose proof (py_max_elem _ _ Hmax) as Hin.
  apply list_elem_of_lookup in Hin as [i Hi].
  destruct (Forall2_lookup_r _ _ _ _ _ Hitems Hi)
    as (p0 & Hp0 & (v & a & b & Hv & Ha & Hb & [= -> ->])).
  apply list_elem_of_lookup_2 in Hp0.
  destruct (Hlayer p0 Hp0) as (v' & p' & Hv' & Hp' & Hent). simplify_eq.
  simpl. split; [done|].
  exists o, p0, v, p, a, b. split_and!; try done.
  intros p1 v1 q1 a1 Hp1 Hent1 Ha1.
  destruct (Hlayer p1 Hp1) as (v2 & q2 & Hv2 & _ & Hent2).
  destruct (tie_entry_functional prefers_label
              (λ a b _ _, prefers_label_antisym a b) _ _ _ _ _ _ Hent1 Hent2)
    as [-> _].
  apply list_elem_of_lookup in Hp1 as [j Hj].
  destruct (Forall2_lookup_l _ _ _ _ _ Hitems Hj)
    as (item & Hitem & (v3 & a3 & b3 & Hv3 & Ha3 & Hb3 & ->)).
  simplify_eq. apply list_elem_of_lookup_2 in Hitem.
  exact (cmp_py_max_greatest _ _ Hall Hmax _ Hitem).
Qed.

End TieEntries.

Section TieResults.
Context {A : Type} `{PyNumCmp A}.
Implicit Types (start_prob : gmap string A) (trans_prob emit_prob : gmap string (gmap string A)).

Lemma products_comparable_same_states start_prob trans_prob emit_prob
    (obs sts sts' : list string) :
  (∀ x, x ∈ sts ↔ x ∈ sts') →
  products_comparable start_prob trans_prob emit_prob obs sts →
  products_comparable start_prob trans_prob emit_prob obs sts'.
Proof.
  intros Hsame Hcmp n q w [Hlen Hq] Hw. apply (Hcmp n q w); [|done].
  split; [done|]. eapply Forall_impl; [exact Hq|]. intros x. apply Hsame.
Qed.

Lemma layer_weaken (sts : list string) (I J : nat → string → A → list string → Prop)
    (t : nat) (row : gmap string A) (pm : gmap string (list string)) :
  (∀ s v p, I t s v p → J t s v p) → layer sts I t row pm → layer sts J t row pm.
Proof.
  intros HIJ Hlayer s Hs. destruct (Hlayer s Hs) as (v & p & Hv & Hp & HI).
  exists v, p. auto.
Qed.

(** On accepted, non-empty inputs whose products can all be compared,
    [viterbi] returns the entry of the last step selected by the rule for
    ties, the greatest label among equal values; and every state has an
    entry at every step. *)
Lemma viterbi_tie_entry (observations states : pyobj)
    start_prob trans_prob emit_prob :
  accepted observations states start_prob trans_prob emit_prob →
  items_of observations ≠ [] → items_of states ≠ [] →
  products_comparable start_prob trans_prob emit_prob
    (items_of observations) (items_of states) →
  ∃ max_prob final_state p,
    viterbi observations states start_prob trans_prob emit_prob = Ok (max_prob, p) ∧
    tie_entry start_prob trans_prob emit_prob prefers_label
      (items_of observations) (items_of states)
      (length (items_of observations) - 1) final_state max_prob p ∧
    tie_final start_prob trans_prob emit_prob prefers_label
      (items_of observations) (items_of states) final_state max_prob ∧
    ∀ t s, t < length (items_of observations) → s ∈ items_of states →
      ∃ v q, tie_entry start_prob trans_prob emit_prob prefers_label
               (items_of observations) (items_of states) t s v q.
Proof.
  intros Hacc Hobs Hsts Hcmp.
  set (E := tie_entry start_prob trans_prob emit_prob prefers_label
              (items_of observations) (items_of states)).
  destruct (viterbi_layers
              (λ t s v p, E t s v p ∧
                 ∀ t' s', t' < t → s' ∈ items_of states → ∃ v' p', E t' s' v' p')
              _ _ _ _ _ Hacc Hobs Hsts)
    as (row & pm & items & max_prob & final_state & p & Hrun & Hlayer & Hitems & Hmax & Hp).
  - intros s o a b Hs Ho Ha Hb. split; [unfold E; simpl; by eauto 10|].
    intros t' s' Ht'. lia.
  - intros t o c row pm items max_prob prev_st p Ho Hc Hlayer Hitems Hmax Hp.
    split.
    + eapply tie_entry_step; eauto.
      eapply layer_weaken; [|exact Hlayer]. by intros s v q [HE _].
    + intros t' s' Ht' Hs'.
      destruct (decide (t' = t)) as [->|Hne].
      * destruct (Hlayer s' Hs') as (v' & p' & _ & _ & [HE _]). eauto.
      * destruct (Hlayer c Hc) as (v' & p' & _ & _ & [_ Hprev]).
        apply Hprev; [lia|done].
  - assert (layer (items_of states) E (length (items_of observations) - 1) row pm)
      as Hlayer'.
    { eapply layer_weaken; [|exact Hlayer]. by intros s v q [HE _]. }
    exists max_prob, final_state, p. split; [done|].
    destruct (final_layer _ _ _ _ _ _ _ _ _ Hlayer' Hitems Hmax Hp) as (Hfin & _ & Hent).
    split_and!; [done| |].
    + intros s v q Hs.
      assert (Forall (λ x : A * string, comparable x.1 = true) items) as Hall.
      { rewrite Forall_forall. intros item Hitem.
        apply list_elem_of_lookup in Hitem as [j Hj].
        destruct (Forall2_lookup_r _ _ _ _ _ Hitems Hj) as (s1 & Hs1 & (v1 & Hv1 & ->)).
        apply list_elem_of_lookup_2 in Hs1.
        destruct (Hlayer' s1 Hs1) as (v2 & q2 & Hv2 & _ & Hent2). simplify_eq.
        exact (tie_entry_comparable _ _ _ _ _ Hcmp _ _ _ _ _ Hent2). }
      pose proof (tie_entry_state _ _ _ _ _ _ _ _ _ _ Hs) as Hin.
      destruct (Hlayer' s Hin) as (v' & q' & Hv' & _ & Hent').
      destruct (tie_entry_functional _ _ _ _ _ Hcmp prefers_label
                  (λ a b _ _, prefers_label_antisym a b) _ _ _ _ _ _ Hs Hent')
        as [-> _].
      apply list_elem_of_lookup in Hin as [j Hj].
      destruct (Forall2_lookup_l _ _ _ _ _ Hitems Hj) as (item & Hitem & (v3 & Hv3 & ->)).
      simplify_eq. apply list_elem_of_lookup_2 in Hitem.
      exact (cmp_py_max_greatest _ _ Hall Hmax _ Hitem).
    + intros t s Ht Hs.
      destruct (decide (t = length (items_of observations) - 1)) as [->|Hne].
      * destruct (Hlayer' s Hs) as (v' & q' & _ & _ & HE). eauto.
      * destruct (Hlayer final_state Hfin) as (v' & q' & _ & _ & [_ Hprev]).
        apply Hprev; [lia|done].
Qed.

(** (C9, amended) For every input that passes validation with at least
    one state and one observation, and for which every product formed
    along a state sequence can be compared (on doubles: none is nan),
    [viterbi] returns, and it returns the entry built by this rule: at
    every step of the recurrence the previous state selected gives a
    product that none exceeds, and among the previous states giving an
    equal product it has the greatest label; the final state is selected
    from the entries of the last step in the same way.  Every state has an
    entry at every step and only one, and the result is the same for every
    ordering of the state sequence. *)
Theorem ties_go_to_greatest_label (observations states : pyobj)
    start_prob trans_prob emit_prob :
  validate_input observations states start_prob trans_prob emit_prob = Ok tt →
  items_of observations ≠ [] → items_of states ≠ [] →
  products_comparable start_prob trans_prob emit_prob
    (items_of observations) (items_of states) →
  ∃ max_prob final_state best_path,
    viterbi observations states start_prob trans_prob emit_prob
    = Ok (max_prob, best_path) ∧
    tie_entry start_prob trans_prob emit_prob prefers_label
      (items_of observations) (items_of states)
      (length (items_of observations) - 1) final_state max_prob best_path ∧
    tie_final start_prob trans_prob emit_prob prefers_label
      (items_of observations) (items_of states) final_state max_prob ∧
    (∀ t s, t < length (items_of observations) → s ∈ items_of states →
       ∃ v p, tie_entry start_prob trans_prob emit_prob prefers_label
                (items_of observations) (items_of states) t s v p) ∧
    (∀ t s v p v' p',
       tie_entry start_prob trans_prob emit_prob prefers_label
         (items_of observations) (items_of states) t s v p →
       tie_entry start_prob trans_prob emit_prob prefers_label
         (items_of observations) (items_of states) t s v' p' →
       v = v' ∧ p = p') ∧
    ∀ states',
      is_list_or_tuple states' = true →
      items_of states ≡ₚ items_of states' →
      viterbi observations states' start_prob trans_prob emit_prob
      = Ok (max_prob, best_path).
Proof.
  intros Hv Hobs Hsts Hcmp. apply validate_input_Ok in Hv.
  destruct (viterbi_tie_entry _ _ _ _ _ Hv Hobs Hsts Hcmp)
    as (m & f & p & Hrun & Hent & Hfin & Hall).
  exists m, f, p. split_and!; [done..| |].
  { apply (tie_entry_functional _ _ _ _ _ Hcmp).
    intros a b _ _. apply prefers_label_antisym. }
  intros states' Hs' Hperm.
  assert (∀ x, x ∈ items_of states ↔ x ∈ items_of states') as Hsame
    by (intros x; by rewrite Hperm).
  pose proof Hv as (H1 & H2 & H3 & H4 & H5 & H6 & H7).
  destruct (checks_same_items observations states states'
              start_prob trans_prob emit_prob H2 Hs' Hsame)
    as (E2 & E3 & E4 & E5 & E6 & E7).
  assert (accepted observations states' start_prob trans_prob emit_prob) as Hv'.
  { split_and!; [done|by apply E2|by apply E3|by apply E4|by apply E5
                 |by apply E6|by apply E7]. }
  assert (items_of states' ≠ []) as Hsts'.
  { intros Hnil. rewrite Hnil in Hperm. by apply Permutation_nil_r in Hperm. }
  pose proof (products_comparable_same_states _ _ _ _ _ _ Hsame Hcmp) as Hcmp'.
  destruct (viterbi_tie_entry _ _ _ _ _ Hv' Hobs Hsts' Hcmp')
    as (m' & f' & p' & Hrun' & Hent' & Hfin' & _).
  rewrite Hrun'.
  apply (tie_entry_same_states _ _ _ _ _ _ _ Hsame) in Hent' as Hent2.
  apply (tie_entry_same_states _ _ _ _ _ _ _ Hsame) in Hent as Hent2'.
  destruct (Hfin _ _ _ Hent2) as [Hle1 Heq1].
  destruct (Hfin' _ _ _ Hent2') as [Hle2 Heq2].
  pose proof (tie_entry_comparable _ _ _ _ _ Hcmp _ _ _ _ _ Hent) as Hc1.
  pose proof (tie_entry_comparable _ _ _ _ _ Hcmp _ _ _ _ _ Hent2) as Hc2.
  assert (f = f') as <-.
  { apply prefers_label_antisym.
    - apply Heq1. by apply cmp_eqb_true.
    - apply Heq2. by apply cmp_eqb_true. }
  destruct (tie_entry_functional _ _ _ _ _ Hcmp prefers_label
              (λ a b _ _, prefers_label_antisym a b) _ _ _ _ _ _ Hent Hent2)
    as [-> ->].
  done.
Qed.

(** (C3, amended) For every input that passes validation with at least
    one state and one observation, whose states are listed in strictly
    decreasing label order, and for which every product formed along a
    state sequence can be compared (on doubles: none is nan), [viterbi]
    returns, and it returns the entry built by this rule: at every step of
    the recurrence the previous state selected gives a product that none
    exceeds, and among the previous states giving an equal product it is
    the one that occurs earliest in the state sequence; the final state is
    selected from the entries of the last step in the same way.  Every
    state has an entry at every step and only one. *)
Theorem ties_first_in_decreasing_order (observations states : pyobj)
    start_prob trans_prob emit_prob :
  validate_input observations states start_prob trans_prob emit_prob = Ok tt →
  items_of observations ≠ [] → items_of states ≠ [] →
  decreasing_labels (items_of states) →
  products_comparable start_prob trans_prob emit_prob
    (items_of observations) (items_of states) →
  ∃ max_prob final_state best_path,
    viterbi observations states start_prob trans_prob emit_prob
    = Ok (max_prob, best_path) ∧
    tie_entry start_prob trans_prob emit_prob (prefers_earlier (items_of states))
      (items_of observations) (items_of states)
      (length (items_of observations) - 1) final_state max_prob best_path ∧
    tie_final start_prob trans_prob emit_prob (prefers_earlier (items_of states))
      (items_of observations) (items_of states) final_state max_prob ∧
    (∀ t s, t < length (items_of observations) → s ∈ items_of states →
       ∃ v p, tie_entry start_prob trans_prob emit_prob
                (prefers_earlier (items_of states))
                (items_of observations) (items_of states) t s v p) ∧
    (∀ t s v p v' p',
       tie_entry start_prob trans_prob emit_prob (prefers_earlier (items_of states))
         (items_of observations) (items_of states) t s v p →
       tie_entry start_prob trans_prob emit_prob (prefers_earlier (items_of states))
         (items_of observations) (items_of states) t s v' p' →
       v = v' ∧ p = p').
Proof.
  intros Hv Hobs Hsts Hdec Hcmp. apply validate_input_Ok in Hv.
  destruct (viterbi_tie_entry _ _ _ _ _ Hv Hobs Hsts Hcmp)
    as (m & f & p & Hrun & Hent & Hfin & Hall).
  pose proof (tie_entry_same_rule start_prob trans_prob emit_prob
                (items_of observations) (items_of states)
                prefers_label (prefers_earlier (items_of states))
                (λ a b Ha Hb, prefers_decreasing _ a b Hdec Ha Hb)) as Hrule.
  exists m, f, p. split_and!; [done|by apply Hrule| | |].
  - intros s v q Hs. apply Hrule in Hs.
    destruct (Hfin _ _ _ Hs) as [Hle Heq]. split; [done|].
    intros E. apply prefers_decreasing; auto.
    + by eapply tie_entry_state.
    + by eapply tie_entry_state.
  - intros t s Ht Hs. destruct (Hall t s Ht Hs) as (v & q & HE).
    exists v, q. by apply Hrule.
  - intros t s v q v' q' Hs Hs'. apply Hrule in Hs, Hs'.
    apply (tie_entry_functional _ _ _ _ _ Hcmp prefers_label
             (λ a b _ _, prefers_label_antisym a b) _ _ _ _ _ _ Hs Hs').
Qed.

End TieResults.

(** ** Numbers whose products keep the order: exact numbers and doubles *)

Section OrdMono.
Context {A : Type} `{PyNumOrd A}.

Lemma ord_leq (x y : A) : num_leq x y ↔ num_le x y.
Proof. by apply cmp_leq. Qed.

Lemma ord_mul_mono (x y a : A) :
  num_leq num_zero a →
  num_gtb x y = false → num_gtb (num_mul x a) (num_mul y a) = false.
Proof. intros Ha Hxy. apply num_mul_mono; [|done]. by apply ord_leq. Qed.

#[export] Instance ord_PyNumMono : PyNumMono A := {|
  mono_zero := num_zero;
  mul_comparable := λ _ _ _, conj eq_refl eq_refl;
  mul_mono := λ x y a _ _, ord_mul_mono x y a;
|}.

Lemma ord_unit_mul (a b : A) :
  within num_zero num_one a → within num_zero num_one b →
  within num_zero num_one (num_mul a b).
Proof.
  unfold within. rewrite !ord_leq. intros [Ha0 Ha1] [Hb0 Hb1]. split.
  - by apply num_mul_nonneg.
  - eapply num_le_trans; [|exact Hb1].
    rewrite <- (num_mul_one_l b) at 2. by apply num_mul_mono.
Qed.

#[export] Instance ord_PyNumUnit : PyNumUnit A := {|
  unit_zero := num_zero;
  unit_one := num_one;
  unit_mul_closed := ord_unit_mul;
|}.

End OrdMono.

(** On doubles [x <= y] is the primitive comparison. *)
Lemma float_leq_leb (x y : float) : num_leq x y ↔ PrimFloat.leb x y = true.
Proof.
  unfold num_leq. simpl.
  rewrite FloatAxioms.ltb_spec, FloatAxioms.eqb_spec, FloatAxioms.leb_spec.
  unfold SFltb, SFeqb, SFleb.
  destruct (SFcompare (Prim2SF x) (Prim2SF y)) as [[]|]; intuition congruence.
Qed.

Lemma float_mul_comparable (x a : float) :
  comparable (num_mul x a) = true → comparable x = true ∧ comparable a = true.
Proof. apply float_mul_num. Qed.

Lemma float_factor_mono (x y a : float) :
  comparable (num_mul x a) = true → comparable (num_mul y a) = true →
  num_leq 0%float a → num_gtb x y = false →
  num_gtb (num_mul x a) (num_mul y a) = false.
Proof.
  intros Cxa Cya Ha.
  destruct (float_mul_comparable _ _ Cxa) as [Cx Ca].
  destruct (float_mul_comparable _ _ Cya) as [Cy _].
  apply float_leq_leb in Ha.
  rewrite (float_leb_key 0 a eq_refl Ca), float_key_0 in Ha. apply Z.leb_le in Ha.
  rewrite (float_gtb_key x y), (float_gtb_key (num_mul x a) (num_mul y a)) by done.
  rewrite !Z.ltb_ge. by apply float_mul_mono.
Qed.

#[export] Instance float_PyNumMono : PyNumMono float := {|
  mono_zero := 0%float;
  mul_comparable := float_mul_comparable;
  mul_mono := float_factor_mono;
|}.

Lemma float_within_unit (x : float) :
  within 0%float 1%float x ↔ unit_float x = true.
Proof.
  unfold within, unit_float. rewrite !float_leq_leb, andb_true_iff. done.
Qed.

Lemma float_unit_mul (a b : float) :
  within 0%float 1%float a → within 0%float 1%float b →
  within 0%float 1%float (num_mul a b).
Proof. rewrite !float_within_unit. intros Ha Hb. by apply unit_float_mul. Qed.

#[export] Instance float_PyNumUnit : PyNumUnit float := {|
  unit_zero := 0%float;
  unit_one := 1%float;
  unit_mul_closed := float_unit_mul;
|}.

(** ** Products along a state sequence *)

Lemma table_all_at {A : Type} (P : A → Prop) (table : gmap string (gmap string A))
    (r c : string) (a : A) :
  table_all P table → table_at table r c = Some a → P a.
Proof.
  intros Hall Ha. apply table_at_Some in Ha as (row & Hrow & Ha).
  exact (Hall r row Hrow c a Ha).
Qed.

Section Products.
Context {A : Type} `{PyNum A}.
Variables (start_prob : gmap string A) (trans_prob emit_prob : gmap string (gmap string A)).
Variable P : A → Prop.
Hypothesis Hmul : ∀ x a, P x → P a → P (num_mul x a).
Hypothesis Hstart : dict_all P start_prob.
Hypothesis Htrans : table_all P trans_prob.
Hypothesis Hemit : table_all P emit_prob.

Lemma chain_prob_closed (path : list string) : ∀ obs acc prev w,
  P acc →
  chain_prob trans_prob emit_prob acc prev path obs = Some w → P w.
Proof.
  induction path as [|s path IH]; intros [|o obs] acc prev w Hacc Hw;
    simplify_eq/=; [done|].
  destruct (table_at trans_prob prev s) as [a|] eqn:Ha; simplify_eq/=.
  destruct (table_at emit_prob s o) as [b|] eqn:Hb; simplify_eq/=.
  eapply IH; [|exact Hw].
  apply Hmul; [apply Hmul|]; [done|..].
  - exact (table_all_at _ _ _ _ _ Htrans Ha).
  - exact (table_all_at _ _ _ _ _ Hemit Hb).
Qed.

(** A set of numbers closed under multiplication that holds every entry
    holds every product along a state sequence. *)
Lemma seq_prob_closed (path obs : list string) (w : A) :
  seq_prob start_prob trans_prob emit_prob path obs = Some w → P w.
Proof.
  destruct path as [|s0 path], obs as [|o0 obs]; intros Hw; simplify_eq/=.
  destruct (start_prob !! s0) as [a|] eqn:Ha; simplify_eq/=.
  destruct (table_at emit_prob s0 o0) as [b|] eqn:Hb; simplify_eq/=.
  eapply chain_prob_closed; [|exact Hw].
  apply Hmul; [exact (Hstart _ _ Ha)|].
  exact (table_all_at _ _ _ _ _ Hemit Hb).
Qed.

End Products.

(** With every entry a double of [[0, 1]] no product is nan. *)
Lemma unit_products_comparable (start_prob : gmap string float)
    (trans_prob emit_prob : gmap string (gmap string float))
    (obs sts : list string) :
  dict_all in_unit start_prob → table_all in_unit trans_prob →
  table_all in_unit emit_prob →
  products_comparable start_prob trans_prob emit_prob obs sts.
Proof.
  intros Hstart Htrans Hemit n q w _ Hw.
  assert (in_unit w) as Hu.
  { eapply (seq_prob_closed start_prob trans_prob emit_prob in_unit); eauto.
    apply unit_mul_closed. }
  apply float_within_unit in Hu. by apply unit_float_spec in Hu as [Hu _].
Qed.

(** ** Optimality *)

Section Optimal.
Context {A : Type} `{PyNumMono A}.
Variables (start_prob : gmap string A) (trans_prob emit_prob : gmap string (gmap string A)).
Variables (obs sts : list string).
Hypothesis Htrans : table_all (num_leq mono_zero) trans_prob.
Hypothesis Hemit : table_all (num_leq mono_zero) emit_prob.
Hypothesis Hcmp : products_comparable start_prob trans_prob emit_prob obs sts.

Lemma optimal_init s o a b :
  s ∈ sts → obs !! 0 = Some o →
  start_prob !! s = Some a → table_at emit_prob s o = Some b →
  best_at start_prob trans_prob emit_prob obs sts 0 s (num_mul a b) [s].
Proof.
  intros Hs Ho Ha Hb.
  destruct (path_at_init start_prob trans_prob emit_prob obs sts s o a b Hs Ho Ha Hb)
    as (Hseq & Hlast & Hprob).
  split_and!; [done..|].
  intros q [Hlen _] Hqlast.
  pose proof (Hcmp _ _ _ Hseq Hprob) as Hc.
  assert (take 1 obs = [o]) as Htake.
  { destruct obs as [|o' obs']; simplify_eq/=. by rewrite take_0. }
  rewrite Htake in *.
  destruct q as [|x [|y q]]; simplify_eq/=.
  exists (num_mul a b). rewrite Ha, Hb. split; [done|]. by apply cmp_le_refl.
Qed.

Lemma optimal_step t o c row pm items max_prob prev_st p :
  obs !! S t = Some o → c ∈ sts →
  layer sts (best_at start_prob trans_prob emit_prob obs sts) t row pm →
  candidates sts trans_prob emit_prob row o c items →
  py_max items = Ok (max_prob, prev_st) →
  pm !! prev_st = Some p →
  best_at start_prob trans_prob emit_prob obs sts (S t) c max_prob (p ++ [c]).
Proof.
  intros Ho Hc Hlayer Hitems Hmax Hp.
  pose proof (lookup_lt_Some _ _ _ Ho) as Hlt.
  assert (length (take (S t) obs) = S t) as Hlen by (rewrite length_take; lia).
  (* a sequence of [t + 1] states followed by [c] *)
  assert (∀ q p1 w a1 b1,
            state_seqs sts (S t) q → last q = Some p1 →
            seq_prob start_prob trans_prob emit_prob q (take (S t) obs) = Some w →
            table_at trans_prob p1 c = Some a1 → table_at emit_prob c o = Some b1 →
            seq_prob start_prob trans_prob emit_prob (q ++ [c]) (take (S (S t)) obs)
            = Some (num_mul (num_mul w a1) b1) ∧
            comparable (num_mul (num_mul w a1) b1) = true ∧
            comparable (num_mul w a1) = true ∧ comparable w = true) as Hnext.
  { intros q p1 w a1 b1 [Hql Hqs] Hqlast Hw Ha1 Hb1.
    assert (seq_prob start_prob trans_prob emit_prob (q ++ [c]) (take (S (S t)) obs)
            = Some (num_mul (num_mul w a1) b1)) as Hprob.
    { rewrite (take_S_r _ _ _ Ho).
      rewrite (seq_prob_snoc _ _ _ _ _ p1) by (done || lia).
      rewrite Hw. simpl. by rewrite Ha1, Hb1. }
    assert (comparable (num_mul (num_mul w a1) b1) = true) as C1.
    { apply (Hcmp (S (S t)) (q ++ [c])); [|done].
      split; [rewrite length_app; simpl; lia|].
      apply Forall_app. split; [done|]. by constructor. }
    destruct (mul_comparable _ _ C1) as [C2 _].
    destruct (mul_comparable _ _ C2) as [C3 _]. done. }
  assert (Forall (λ x : A * string, comparable x.1 = true) items) as Hall.
  { rewrite Forall_forall. intros item Hitem.
    apply list_elem_of_lookup in Hitem as [j Hj].
    destruct (Forall2_lookup_r _ _ _ _ _ Hitems Hj)
      as (p1 & Hp1 & (v1 & a1 & b1 & Hv1 & Ha1 & Hb1 & ->)).
    apply list_elem_of_lookup_2 in Hp1.
    destruct (Hlayer p1 Hp1) as (v2 & q2 & Hv2 & _ & (Hseq2 & Hlast2 & Hprob2 & _)).
    simplify_eq.
    by destruct (Hnext q2 p1 v1 a1 b1 Hseq2 Hlast2 Hprob2 Ha1 Hb1) as (_ & C & _). }
  pose proof (py_max_elem _ _ Hmax) as Hin.
  apply list_elem_of_lookup in Hin as [i Hi].
  destruct (Forall2_lookup_r _ _ _ _ _ Hitems Hi)
    as (p0 & Hp0 & (v & a & b & Hv & Ha & Hb & [= -> ->])).
  apply list_elem_of_lookup_2 in Hp0.
  destruct (Hlayer p0 Hp0) as (v' & p' & Hv' & Hp' & (Hpseq & Hplast & Hpprob & Hpbest)).
  simplify_eq.
  destruct (Hnext p p0 v a b Hpseq Hplast Hpprob Ha Hb) as (Hprob & Cmax & _).
  split_and!.
  - destruct Hpseq as [Hpl Hps]. split; [rewrite length_app; simpl; lia|].
    apply Forall_app. split; [done|]. by constructor.
  - by rewrite last_snoc.
  - done.
  - intros q [Hql Hqs] Hqlast.
    apply last_Some in Hqlast as [q' ->].
    rewrite length_app in Hql. simpl in Hql.
    apply Forall_app in Hqs as [Hqs _].
    assert (is_Some (last q')) as [p1 Hp1].
    { apply last_is_Some. intros ->. simpl in Hql. lia. }
    assert (p1 ∈ sts) as Hp1in.
    { rewrite Forall_forall in Hqs. apply Hqs.
      apply last_Some in Hp1 as [? ->]. set_solver. }
    destruct (Hlayer p1 Hp1in)
      as (v1 & q1 & Hv1 & _ & (Hseq1 & Hlast1 & Hprob1 & Hbest1)).
    destruct (Hbest1 q') as (w & Hw & Hle); [split; [lia|done]|done|].
    apply list_elem_of_lookup in Hp1in as [j Hj].
    destruct (Forall2_lookup_l _ _ _ _ _ Hitems Hj)
      as (item & Hitem & (v1' & a1 & b1 & Hv1' & Ha1 & Hb1 & ->)).
    simplify_eq.
    apply list_elem_of_lookup_2 in Hitem.
    destruct (cmp_py_max_greatest _ _ Hall Hmax _ Hitem) as [Hgt _]. simpl in Hgt.
    destruct (Hnext q' p1 w a1 b ltac:(split; [lia|done]) Hp1 Hw Ha1 Hb)
      as (Hwprob & Cw2 & Cw1 & Cw).
    destruct (Hnext q1 p1 v1 a1 b Hseq1 Hlast1 Hprob1 Ha1 Hb)
      as (_ & Cv2 & Cv1 & Cv).
    exists (num_mul (num_mul w a1) b). split; [done|].
    eapply (cmp_le_trans _ (num_mul (num_mul v1 a1) b)); [done..| |exact Hgt].
    apply mul_mono; [done..|exact (table_all_at _ _ _ _ _ Hemit Hb)|].
    apply mul_mono; [done..|exact (table_all_at _ _ _ _ _ Htrans Ha1)|done].
Qed.

End Optimal.

Section OptimalResults.
Context {A : Type} `{PyNumMono A}.
Implicit Types (start_prob : gmap string A) (trans_prob emit_prob : gmap string (gmap string A)).

(** (C1, amended) For every input that passes validation, whose
    transition and emission entries are all non-negative, and for which
    every product formed along a state sequence can be compared (on
    doubles: none is nan), a result returned by [viterbi] consists of a
    state sequence of the length of the observations whose probability, the
    product
    [start_prob[s0] * emit_prob[s0][o0] * trans_prob[s0][s1] * emit_prob[s1][o1] * ...]
    taken from left to right, is the returned probability, and the
    probability of every state sequence of that length is less than or
    equal to it; with at least one state and one observation the call does
    return. *)
Theorem viterbi_optimal (observations states : pyobj)
    start_prob trans_prob emit_prob :
  validate_input observations states start_prob trans_prob emit_prob = Ok tt →
  table_all (num_leq mono_zero) trans_prob →
  table_all (num_leq mono_zero) emit_prob →
  products_comparable start_prob trans_prob emit_prob
    (items_of observations) (items_of states) →
  (∀ max_prob best_path,
     viterbi observations states start_prob trans_prob emit_prob
     = Ok (max_prob, best_path) →
     state_seqs (items_of states) (length (items_of observations)) best_path ∧
     seq_prob start_prob trans_prob emit_prob best_path (items_of observations)
     = Some max_prob ∧
     ∀ q, state_seqs (items_of states) (length (items_of observations)) q →
          ∃ w, seq_prob start_prob trans_prob emit_prob q (items_of observations)
               = Some w ∧ num_leq w max_prob) ∧
  (items_of observations ≠ [] → items_of states ≠ [] →
   ∃ max_prob best_path,
     viterbi observations states start_prob trans_prob emit_prob
     = Ok (max_prob, best_path)).
Proof.
  intros Hv Htrans Hemit Hcmp. apply validate_input_Ok in Hv.
  destruct (decide (items_of states = [])) as [Hnil|Hsts].
  { pose proof Hv as (Ho & Hs & _).
    rewrite (viterbi_accepted _ _ _ _ _ Hv), (decode_no_state _ _ _ _ _ Ho Hs Hnil).
    split; [done|]. by intros _ []. }
  destruct (decide (items_of observations = [])) as [Hnil|Hobs].
  { rewrite (viterbi_accepted _ _ _ _ _ Hv), (decode_no_observation _ _ _ _ _ Hv Hnil Hsts).
    split; [done|]. by intros []. }
  destruct (viterbi_layers
              (best_at start_prob trans_prob emit_prob
                       (items_of observations) (items_of states))
              _ _ _ _ _ Hv Hobs Hsts)
    as (row & pm & items & max_prob & final_state & p & Hrun & Hlayer & Hitems & Hmax & Hp).
  - intros s o a b. by apply optimal_init.
  - intros t o c row pm items max_prob prev_st p. by apply optimal_step.
  - rewrite Hrun. split; [|by eauto].
    intros ?? [= <- <-].
    assert (0 < length (items_of observations)) as Hlen.
    { destruct (items_of observations); [done|simpl; lia]. }
    destruct (final_layer _ _ _ _ _ _ _ _ _ Hlayer Hitems Hmax Hp)
      as (Hfin & _ & (Hseq & _ & Hprob & _)).
    assert (Forall (λ x : A * string, comparable x.1 = true) items) as Hall.
    { rewrite Forall_forall. intros item Hitem.
      apply list_elem_of_lookup in Hitem as [j Hj].
      destruct (Forall2_lookup_r _ _ _ _ _ Hitems Hj) as (s1 & Hs1 & (v1 & Hv1 & ->)).
      apply list_elem_of_lookup_2 in Hs1.
      destruct (Hlayer s1 Hs1) as (v2 & q2 & Hv2 & _ & (Hseq2 & _ & Hprob2 & _)).
      simplify_eq. exact (Hcmp _ _ _ Hseq2 Hprob2). }
    pose proof (Hcmp _ _ _ Hseq Hprob) as Cmax.
    replace (S (length (items_of observations) - 1))
      with (length (items_of observations)) in * by lia.
    rewrite take_ge in Hprob by lia.
    split_and!; [done..|].
    intros q Hq.
    assert (is_Some (last q)) as [s Hs].
    { apply last_is_Some. intros ->. destruct Hq as [Hq _]. simpl in Hq. lia. }
    assert (s ∈ items_of states) as Hsin.
    { destruct Hq as [_ Hq]. rewrite Forall_forall in Hq. apply Hq.
      apply last_Some in Hs as [? ->]. set_solver. }
    destruct (Hlayer s Hsin) as (v & p' & Hrow & _ & (Hvseq & _ & Hvprob & Hbest)).
    replace (S (length (items_of observations) - 1))
      with (length (items_of observations)) in * by lia.
    destruct (Hbest q Hq Hs) as (w & Hw & Hle).
    pose proof (Hcmp _ _ _ Hq Hw) as Cw.
    pose proof (Hcmp _ _ _ Hvseq Hvprob) as Cv.
    rewrite take_ge in Hw by lia.
    exists w. split; [done|].
    apply cmp_leq; [done..|].
    eapply (cmp_le_trans _ v); [done..|exact Hle|].
    apply list_elem_of_lookup in Hsin as [j Hj].
    destruct (Forall2_lookup_l _ _ _ _ _ Hitems Hj) as (item & Hitem & (v' & Hv' & ->)).
    simplify_eq. apply list_elem_of_lookup_2 in Hitem.
    by destruct (cmp_py_max_greatest _ _ Hall Hmax _ Hitem) as [Hgt _].
Qed.

End OptimalResults.

Section UnitResults.
Context {A : Type} `{PyNumUnit A}.
Implicit Types (start_prob : gmap string A) (trans_prob emit_prob : gmap string (gmap string A)).

(** (C8) For every input that passes validation and whose start,
    transition and emission entries all lie in [[0, 1]], a probability
    returned by [viterbi] lies in [[0, 1]]; with at least one state and one
    observation the call does return. *)
Theorem viterbi_probability_bound (observations states : pyobj)
    start_prob trans_prob emit_prob :
  validate_input observations states start_prob trans_prob emit_prob = Ok tt →
  dict_all in_unit start_prob → table_all in_unit trans_prob →
  table_all in_unit emit_prob →
  (∀ max_prob best_path,
     viterbi observations states start_prob trans_prob emit_prob
     = Ok (max_prob, best_path) →
     num_leq unit_zero max_prob ∧ num_leq max_prob unit_one) ∧
  (items_of observations ≠ [] → items_of states ≠ [] →
   ∃ max_prob best_path,
     viterbi observations states start_prob trans_prob emit_prob
     = Ok (max_prob, best_path)).
Proof.
  intros Hv Hstart Htrans Hemit. apply validate_input_Ok in Hv.
  destruct (decide (items_of states = [])) as [Hnil|Hsts].
  { pose proof Hv as (Ho & Hs & _).
    rewrite (viterbi_accepted _ _ _ _ _ Hv), (decode_no_state _ _ _ _ _ Ho Hs Hnil).
    split; [done|]. by intros _ []. }
  destruct (decide (items_of observations = [])) as [Hnil|Hobs].
  { rewrite (viterbi_accepted _ _ _ _ _ Hv), (decode_no_observation _ _ _ _ _ Hv Hnil Hsts).
    split; [done|]. by intros []. }
  destruct (viterbi_layers (λ _ _ v _, in_unit v) _ _ _ _ _ Hv Hobs Hsts)
    as (row & pm & items & max_prob & final_state & p & Hrun & Hlayer & Hitems & Hmax & Hp).
  - intros s o a b _ _ Ha Hb. apply unit_mul_closed.
    + exact (Hstart s a Ha).
    + exact (table_all_at _ _ _ _ _ Hemit Hb).
  - intros t o c row pm items max_prob prev_st p _ _ Hlayer Hitems Hmax Hp.
    pose proof (py_max_elem _ _ Hmax) as Hin.
    apply list_elem_of_lookup in Hin as [i Hi].
    destruct (Forall2_lookup_r _ _ _ _ _ Hitems Hi)
      as (p0 & Hp0 & (v & a & b & Hv0 & Ha & Hb & [= -> ->])).
    apply list_elem_of_lookup_2 in Hp0.
    destruct (Hlayer p0 Hp0) as (v' & p' & Hv' & _ & Hunit). simplify_eq.
    apply unit_mul_closed; [apply unit_mul_closed|].
    + done.
    + exact (table_all_at _ _ _ _ _ Htrans Ha).
    + exact (table_all_at _ _ _ _ _ Hemit Hb).
  - rewrite Hrun. split; [|by eauto].
    intros ?? [= <- <-].
    by destruct (final_layer _ _ _ _ _ _ _ _ _ Hlayer Hitems Hmax Hp) as (_ & _ & Hu).
Qed.

End UnitResults.

(** ** What the call prints *)

Section OutputFacts.
Context {A : Type} `{PyNum A}.
Implicit Types (start_prob : gmap string A) (trans_prob emit_prob : gmap string (gmap string A)).

Lemma quiet_bind {S T : Type} (r : result S) (k : S → io A T) :
  quiet r ≫= k = match r with Ok v => k v | Raise e => ([], Raise e) end.
Proof.
  destruct r as [v|e]; unfold mbind, io_bind, quiet; simpl; [|done].
  by destruct (k v).
Qed.

Lemma print_bind {T : Type} (l : line A) (k : unit → io A T) :
  print l ≫= k = (l :: (k tt).1, (k tt).2).
Proof. reflexivity. Qed.

Lemma io_bind_run {S T : Type} (m : io A S) (k : S → io A T) out x :
  m = (out, Ok x) → m ≫= k = (out ++ (k x).1, (k x).2).
Proof. by intros ->. Qed.

Lemma io_bind_raise {S T : Type} (m : io A S) (k : S → io A T) out e :
  m = (out, Raise e) → m ≫= k = (out, Raise e).
Proof. by intros ->. Qed.

Lemma io_bind_result {S T : Type} (m : io A S) (k : S → io A T) :
  (m ≫= k).2 = m.2 ≫= (λ v, (k v).2).
Proof. unfold mbind at 1, io_bind. by destruct m.2. Qed.

Lemma io_bind_Ok {S T : Type} (m : io A S) (k : S → io A T) out v :
  m ≫= k = (out, Ok v) →
  ∃ out1 x out2, m = (out1, Ok x) ∧ k x = (out2, Ok v) ∧ out = out1 ++ out2.
Proof.
  destruct m as [out1 [x|e]]; unfold mbind, io_bind; cbn [fst snd]; [|done].
  destruct (k x) as [out2 r] eqn:E. cbn [fst snd]. intros [= <- ->].
  by exists out1, x, out2.
Qed.

Lemma quiet_bind_Ok {S T : Type} (r : result S) (k : S → io A T) out v :
  quiet r ≫= k = (out, Ok v) → ∃ x, r = Ok x ∧ k x = (out, Ok v).
Proof. rewrite quiet_bind. destruct r as [x|e]; [by eauto|done]. Qed.

Lemma print_bind_Ok {T : Type} (l : line A) (k : unit → io A T) out v :
  print l ≫= k = (out, Ok v) → ∃ out', k tt = (out', Ok v) ∧ out = l :: out'.
Proof.
  rewrite print_bind. destruct (k tt) as [out' r] eqn:E. cbn [fst snd].
  intros [= <- ->]. by exists out'.
Qed.

(** Leaving the output out, a loop that prints is the loop. *)
Lemma for_each_io_result {S X : Type} (body_io : S → X → io A S)
    (body : S → X → result S) (xs : list X) :
  (∀ st x, x ∈ xs → (body_io st x).2 = body st x) →
  ∀ st, (for_each_io body_io st xs).2 = for_each body st xs.
Proof.
  induction xs as [|x xs IH]; intros Hbody st; simpl; [done|].
  rewrite io_bind_result, Hbody by set_solver.
  destruct (body st x) as [st'|e]; simpl; [|done].
  apply IH. intros. apply Hbody. set_solver.
Qed.

(** A loop whose body prints [n] lines whenever it succeeds prints [n]
    lines per item when it succeeds. *)
Lemma for_each_io_length {S X : Type} (body_io : S → X → io A S) (n : nat)
    (xs : list X) :
  (∀ st x out st', x ∈ xs → body_io st x = (out, Ok st') → length out = n) →
  ∀ st out st', for_each_io body_io st xs = (out, Ok st') →
                length out = length xs * n.
Proof.
  induction xs as [|x xs IH]; intros Hbody st out st'; simpl.
  - by intros [= <- _].
  - destruct (body_io st x) as [out1 [st1|e]] eqn:E.
    + unfold mbind, io_bind. simpl.
      destruct (for_each_io body_io st1 xs) as [out2 r2] eqn:E2. simpl.
      intros [= <- ->]. rewrite length_app.
      rewrite (Hbody st x out1 st1) by (done || set_solver).
      rewrite (IH (λ st x out st' Hx, Hbody st x out st' (list_elem_of_further _ _ _ Hx))
                  _ _ _ E2).
      lia.
    + done.
Qed.

(** The initialisation of one state prints the entry it has just stored. *)
Lemma init_body_io_spec obs start_prob emit_prob (st : trellis) (state : string) :
  match init_body obs start_prob emit_prob st state with
  | Ok st' =>
      ∃ v, init_body_io obs start_prob emit_prob st state
           = ([line_init state v [state]], Ok st')
  | Raise e => init_body_io obs start_prob emit_prob st state = ([], Raise e)
  end.
Proof.
  unfold init_body_io. rewrite quiet_bind.
  destruct (init_body obs start_prob emit_prob st state) as [st'|e] eqn:E; [|done].
  unfold init_body in E.
  apply bind_Ok in E as (a & _ & E). apply bind_Ok in E as (row & _ & E).
  apply bind_Ok in E as (o & _ & E). apply bind_Ok in E as (b & _ & E).
  apply bind_Ok in E as (V0 & HV0 & [= <-]).
  unfold seq_get in HV0. destruct (st.1 !! 0) as [V0'|] eqn:E0; simplify_eq.
  exists (num_mul a b). cbn [fst snd].
  rewrite (seq_get_Some _ _ (<[state := num_mul a b]> V0)), quiet_bind
    by (apply list_lookup_insert_eq; by eapply lookup_lt_Some).
  rewrite (dict_get_Some _ _ (num_mul a b)), quiet_bind by apply lookup_insert_eq.
  rewrite (dict_get_Some _ _ [state]), quiet_bind by apply lookup_insert_eq.
  reflexivity.
Qed.

(** One step of the recurrence prints the entry it has just stored. *)
Lemma step_body_io_spec t obs states trans_prob emit_prob
    (path : gmap string (list string)) (st : trellis) (c : string) :
  match step_body t obs states trans_prob emit_prob path st c with
  | Ok st' =>
      ∃ max_prob prev_st p,
        step_body_io t obs states trans_prob emit_prob path st c
        = ([line_current c max_prob prev_st p], Ok st')
  | Raise e =>
      step_body_io t obs states trans_prob emit_prob path st c = ([], Raise e)
  end.
Proof.
  unfold step_body_io. rewrite quiet_bind. unfold step_body.
  destruct (best_prev st.1 t obs states trans_prob emit_prob c)
    as [[max_prob prev_st]|]; [|done].
  rewrite quiet_bind. cbn [mbind result_bind].
  destruct (seq_get st.1 t) as [Vt|]; [|done].
  rewrite quiet_bind. cbn [mbind result_bind].
  destruct (dict_get path prev_st) as [p|]; [|done].
  exists max_prob, prev_st, (p ++ [c]). cbn [fst snd].
  rewrite (dict_get_Some _ _ (p ++ [c])), quiet_bind by apply lookup_insert_eq.
  reflexivity.
Qed.

Lemma time_body_io_result obs states trans_prob emit_prob (st : trellis) (t : nat) :
  t < length obs →
  (time_body_io obs states trans_prob emit_prob st t).2
  = time_body obs states trans_prob emit_prob st t.
Proof.
  intros Ht. destruct (lookup_lt_is_Some_2 obs t Ht) as [o Ho].
  unfold time_body_io, time_body.
  rewrite (seq_get_Some _ _ _ Ho), quiet_bind, print_bind. simpl.
  apply for_each_io_result. intros st1 c _.
  pose proof (step_body_io_spec t obs states trans_prob emit_prob st.2 st1 c) as Hs.
  destruct (step_body _ _ _ _ _ _ _ _) as [st'|e].
  - destruct Hs as (? & ? & ? & ->). done.
  - by rewrite Hs.
Qed.

(** A time step prints its header and one line per state. *)
Lemma time_body_io_lines obs states trans_prob emit_prob (st : trellis) (t : nat)
    out st' :
  time_body_io obs states trans_prob emit_prob st t = (out, Ok st') →
  ∃ o rest, obs !! t = Some o ∧ out = line_time_step t o :: rest ∧
            length rest = length states.
Proof.
  unfold time_body_io. unfold seq_get.
  destruct (obs !! t) as [o|]; rewrite quiet_bind; [|done].
  rewrite print_bind.
  destruct (for_each_io _ _ _) as [rest r] eqn:E. simpl. intros [= <- ->].
  exists o, rest. split_and!; [done..|].
  erewrite (for_each_io_length _ 1); [|clear E|exact E]; [lia|].
  intros st1 c out1 st1' _ E1.
  pose proof (step_body_io_spec t obs states trans_prob emit_prob st.2 st1 c) as Hs.
  destruct (step_body _ _ _ _ _ _ _ _) as [st2|e].
  - destruct Hs as (? & ? & ? & Hs). rewrite Hs in E1. by simplify_eq.
  - rewrite Hs in E1. done.
Qed.

(** The loop of lines 69-70 prints the items [max] has just compared. *)
Lemma final_loop_io (V : list (gmap string A)) (sts : list string) :
  ∀ items, gen_list (finalist V) sts = Ok items →
    for_each_io (final_body_io V) tt sts
    = (map (λ item, line_final item.2 item.1) items, Ok tt).
Proof.
  induction sts as [|s sts IH]; intros items Hgen.
  - simpl in Hgen. by simplify_eq.
  - simpl in Hgen. apply bind_Ok in Hgen as (y & Hy & Hgen).
    apply bind_Ok in Hgen as (ys & Hys & [= <-]).
    unfold finalist in Hy. apply bind_Ok in Hy as (Vl & HVl & Hy).
    apply bind_Ok in Hy as (v & Hv & [= <-]).
    assert (final_body_io V tt s = ([line_final s v], Ok tt)) as Hbody.
    { unfold final_body_io. by rewrite HVl, quiet_bind, Hv, quiet_bind. }
    cbn [for_each_io map fst snd].
    rewrite (io_bind_run _ _ _ _ Hbody). by rewrite (IH ys Hys).
Qed.

Lemma init_body_io_result obs start_prob emit_prob (st : trellis) (state : string) :
  (init_body_io obs start_prob emit_prob st state).2
  = init_body obs start_prob emit_prob st state.
Proof.
  pose proof (init_body_io_spec obs start_prob emit_prob st state) as Hs.
  destruct (init_body _ _ _ _ _) as [st'|e].
  - by destruct Hs as [v ->].
  - by rewrite Hs.
Qed.

Lemma decode_io_result (observations states : pyobj)
    start_prob trans_prob emit_prob :
  (decode_io observations states start_prob trans_prob emit_prob).2
  = decode observations states start_prob trans_prob emit_prob.
Proof.
  unfold decode_io, decode. rewrite print_bind. cbn [snd].
  rewrite quiet_bind. destruct (py_items states) as [sts|e]; [|done].
  cbn [mbind result_bind].
  rewrite quiet_bind. destruct (py_items observations) as [obs|e]; [|done].
  cbn [mbind result_bind].
  rewrite io_bind_result.
  rewrite (for_each_io_result _ (init_body obs start_prob emit_prob))
    by (intros; apply init_body_io_result).
  destruct (for_each (init_body obs start_prob emit_prob) _ sts) as [st0|e]; [|done].
  cbn [mbind result_bind].
  rewrite io_bind_result.
  rewrite (for_each_io_result _ (time_body obs sts trans_prob emit_prob)); cycle 1.
  { intros st t Ht. apply time_body_io_result. apply elem_of_seq in Ht. lia. }
  destruct (for_each (time_body obs sts trans_prob emit_prob) _ _) as [st|e]; [|done].
  cbn [mbind result_bind].
  rewrite quiet_bind.
  destruct (best_final st.1 sts) as [[max_prob fs]|e] eqn:Hbest; [|done].
  cbn [mbind result_bind].
  rewrite print_bind. cbn [snd].
  unfold best_final in Hbest. apply bind_Ok in Hbest as (items & Hgen & Hmax).
  rewrite (io_bind_run _ _ _ _ (final_loop_io _ _ _ Hgen)). cbn [snd].
  rewrite print_bind. cbn [snd]. rewrite quiet_bind.
  by destruct (dict_get st.2 fs).
Qed.

(** The [print] calls have no influence on the result: leaving the output
    out, the program that prints is [viterbi], on every input and whether
    the call returns or raises. *)
Theorem viterbi_io_result (observations states : pyobj)
    start_prob trans_prob emit_prob :
  (viterbi_io observations states start_prob trans_prob emit_prob).2
  = viterbi observations states start_prob trans_prob emit_prob.
Proof.
  unfold viterbi_io, viterbi, validate_input_io.
  rewrite io_bind_result, io_bind_result. unfold quiet. cbn [snd].
  destruct (validate_input observations states start_prob trans_prob emit_prob)
    as [[]|e]; [|done].
  cbn [mbind result_bind print snd]. apply decode_io_result.
Qed.

(** The parts of the output of a decoding that returns. *)
Lemma decode_io_shape (observations states : pyobj)
    start_prob trans_prob emit_prob out r :
  decode_io observations states start_prob trans_prob emit_prob = (out, Ok r) →
  ∃ sts obs st0 st final_state out_init out_time out_final,
    py_items states = Ok sts ∧ py_items observations = Ok obs ∧
    for_each (init_body obs start_prob emit_prob) ([∅], ∅) sts = Ok st0 ∧
    for_each (time_body obs sts trans_prob emit_prob) st0 (seq 1 (length obs - 1))
    = Ok st ∧
    best_final st.1 sts = Ok (r.1, final_state) ∧
    dict_get st.2 final_state = Ok r.2 ∧
    out = line_initialization :: out_init ++ out_time
          ++ line_final_header :: out_final ++ [line_result final_state r.1] ∧
    length out_init = length sts ∧
    length out_time = (length obs - 1) * (1 + length sts) ∧
    length out_final = length sts.
Proof.
  intros Hrun. unfold decode_io in Hrun.
  apply print_bind_Ok in Hrun as (out1 & Hrun & ->).
  apply quiet_bind_Ok in Hrun as (sts & Hsts & Hrun).
  apply quiet_bind_Ok in Hrun as (obs & Hobs & Hrun).
  apply io_bind_Ok in Hrun as (out_init & st0 & out2 & Einit & Hrun & ->).
  apply io_bind_Ok in Hrun as (out_time & st & out3 & Etime & Hrun & ->).
  apply quiet_bind_Ok in Hrun as ([max_prob fs] & Hbest & Hrun).
  apply print_bind_Ok in Hrun as (out4 & Hrun & ->).
  pose proof Hbest as Hbest'.
  unfold best_final in Hbest'. apply bind_Ok in Hbest' as (items & Hgen & Hmax).
  apply io_bind_Ok in Hrun as (out_final & [] & out5 & Efinal & Hrun & ->).
  rewrite (final_loop_io _ _ _ Hgen) in Efinal. injection Efinal as <-.
  apply print_bind_Ok in Hrun as (out6 & Hrun & ->).
  apply quiet_bind_Ok in Hrun as (p & Hp & Hrun).
  injection Hrun as <- <-.
  exists sts, obs, st0, st, fs, out_init, out_time,
    (map (λ item, line_final item.2 item.1) items).
  split_and!; try done.
  - rewrite <- (for_each_io_result (init_body_io obs start_prob emit_prob))
      by (intros; apply init_body_io_result).
    by rewrite Einit.
  - rewrite <- (for_each_io_result (time_body_io obs sts trans_prob emit_prob)).
    + by rewrite Etime.
    + intros st1 t Ht. apply time_body_io_result. apply elem_of_seq in Ht. lia.
  - erewrite (for_each_io_length _ 1); [|clear Einit|exact Einit]; [lia|].
    intros st1 x out1 st1' _ E1.
    pose proof (init_body_io_spec obs start_prob emit_prob st1 x) as Hs.
    destruct (init_body _ _ _ _ _) as [st2|e].
    + destruct Hs as [v Hs]. rewrite Hs in E1. by simplify_eq.
    + rewrite Hs in E1. done.
  - erewrite (for_each_io_length _ (1 + length sts)); [|clear Etime|exact Etime].
    + rewrite length_seq. lia.
    + intros st1 t out1 st1' _ E1.
      destruct (time_body_io_lines _ _ _ _ _ _ _ _ E1) as (o & rest & _ & -> & Hlen).
      simpl. lia.
  - rewrite length_map. apply gen_list_Ok_inv in Hgen.
    by rewrite <- (Forall2_length _ _ _ Hgen).
Qed.

Lemma viterbi_io_accepted (observations states : pyobj)
    start_prob trans_prob emit_prob :
  validate_input observations states start_prob trans_prob emit_prob = Ok tt →
  viterbi_io observations states start_prob trans_prob emit_prob
  = (line_validated
       :: (decode_io observations states start_prob trans_prob emit_prob).1,
     (decode_io observations states start_prob trans_prob emit_prob).2).
Proof.
  intros Hv. unfold viterbi_io, validate_input_io.
  rewrite Hv, quiet_bind. reflexivity.
Qed.

(** On an input that passes validation, with at least one state and one
    observation, the call prints [4 + 2n + (T-1)(n+1)] lines for [n] states
    and [T] observations, and returns what [viterbi] returns. *)
Theorem viterbi_io_line_count (observations states : pyobj)
    start_prob trans_prob emit_prob :
  validate_input observations states start_prob trans_prob emit_prob = Ok tt →
  items_of observations ≠ [] → items_of states ≠ [] →
  ∃ out r,
    viterbi_io observations states start_prob trans_prob emit_prob = (out, Ok r) ∧
    viterbi observations states start_prob trans_prob emit_prob = Ok r ∧
    length out
    = 4 + 2 * length (items_of states)
      + (length (items_of observations) - 1) * (length (items_of states) + 1).
Proof.
  intros Hv Hobs Hsts. pose proof Hv as Hacc. apply validate_input_Ok in Hacc.
  destruct (viterbi_layers (λ _ _ _ _, True) _ _ _ _ _ Hacc Hobs Hsts)
    as (_ & _ & _ & max_prob & _ & p & Hrun & _); [done..|].
  rewrite (viterbi_io_accepted _ _ _ _ _ Hv).
  rewrite Hrun. rewrite (viterbi_accepted _ _ _ _ _ Hacc) in Hrun.
  rewrite <- decode_io_result in Hrun.
  destruct (decode_io observations states start_prob trans_prob emit_prob)
    as [out r] eqn:E. simpl in Hrun. subst r.
  exists (line_validated :: out), (max_prob, p). split_and!; [done..|].
  destruct (decode_io_shape _ _ _ _ _ _ _ E)
    as (sts & obs & st0 & st & fs & out_init & out_time & out_final
        & Hs & Ho & _ & _ & _ & _ & -> & Hl1 & Hl2 & Hl3).
  pose proof Hacc as (Hco & Hcs & _).
  rewrite (py_items_sequence _ Hcs) in Hs. rewrite (py_items_sequence _ Hco) in Ho.
  simplify_eq. simpl. rewrite !length_app. simpl. rewrite !length_app. simpl. lia.
Qed.

(** On an input that passes validation, with at least one state and one
    observation, the output opens with the two lines
    [Input validation passed.] and [Initialization:], and its last line
    names the state that ends the returned path and the returned
    probability. *)
Theorem viterbi_io_reports_result (observations states : pyobj)
    start_prob trans_prob emit_prob :
  validate_input observations states start_prob trans_prob emit_prob = Ok tt →
  items_of observations ≠ [] → items_of states ≠ [] →
  ∃ out max_prob best_path final_state,
    viterbi_io observations states start_prob trans_prob emit_prob
    = (line_validated :: line_initialization
         :: out ++ [line_result final_state max_prob],
       Ok (max_prob, best_path)) ∧
    last best_path = Some final_state.
Proof.
  intros Hv Hobs Hsts. pose proof Hv as Hacc. apply validate_input_Ok in Hacc.
  set (I := λ (_ : nat) (s : string) (_ : A) (p : list string), last p = Some s).
  destruct (viterbi_layers I _ _ _ _ _ Hacc Hobs Hsts)
    as (_ & _ & _ & max_prob & _ & p & Hrun & _).
  { done. }
  { intros; unfold I; apply last_snoc. }
  rewrite (viterbi_io_accepted _ _ _ _ _ Hv).
  rewrite (viterbi_accepted _ _ _ _ _ Hacc) in Hrun.
  rewrite <- decode_io_result in Hrun.
  destruct (decode_io observations states start_prob trans_prob emit_prob)
    as [out r] eqn:E. simpl in Hrun. subst r.
  destruct (decode_io_shape _ _ _ _ _ _ _ E)
    as (sts & obs & st0 & st & fs & out_init & out_time & out_final
        & Hs & Ho & Hinit & Htime & Hbest & Hp & -> & _).
  pose proof Hacc as (Hco & Hcs & _).
  rewrite (py_items_sequence _ Hcs) in Hs. rewrite (py_items_sequence _ Hco) in Ho.
  simplify_eq. cbn [fst snd] in *.
  exists (out_init ++ out_time ++ line_final_header :: out_final), max_prob, p, fs.
  split.
  { cbn [fst snd]. do 3 f_equal. rewrite <- !app_assoc. simpl. done. }
  pose proof (accepted_tables_defined _ _ _ _ _ Hacc) as Hdef.
  assert (0 < length (items_of observations)) as Hlen.
  { destruct (items_of observations); [done|simpl; lia]. }
  destruct (lookup_lt_is_Some_2 _ 0 Hlen) as [o0 Ho0].
  destruct (init_loop _ _ _ _ _ I Hdef ltac:(done) o0 Ho0)
    as (row0 & pm0 & Hinit' & Hl0).
  rewrite Hinit in Hinit'. injection Hinit' as ->.
  destruct (time_loop _ _ _ _ _ I Hdef Hsts
              ltac:(intros; unfold I; apply last_snoc)
              (length (items_of observations) - 1) [] row0 pm0 0
              eq_refl ltac:(lia) Hlen Hl0)
    as (Vp & row & pm & Htime' & Hl).
  simpl in Htime'. rewrite Htime in Htime'. injection Htime' as ->.
  cbn [fst snd] in *.
  unfold best_final in Hbest. apply bind_Ok in Hbest as (items & Hgen & Hmax).
  apply gen_list_Ok_inv in Hgen.
  pose proof (py_max_elem _ _ Hmax) as Hin.
  apply list_elem_of_lookup in Hin as [i Hi].
  destruct (Forall2_lookup_r _ _ _ _ _ Hgen Hi) as (s & Hsin & Hfin).
  apply finalist_label in Hfin. simpl in Hfin. subst s.
  apply list_elem_of_lookup_2 in Hsin.
  destruct (Hl fs Hsin) as (v & q & _ & Hq & Hlast).
  unfold dict_get in Hp. rewrite Hq in Hp. by simplify_eq.
Qed.

Lemma time_loop_io_no_state (obs : list string) trans_prob emit_prob (n : nat) :
  ∀ (t : nat) (st : trellis), t + n = length obs →
    ∃ st', for_each_io (time_body_io obs [] trans_prob emit_prob) st (seq t n)
           = (time_headers t (drop t obs), Ok st').
Proof.
  induction n as [|n IH]; intros t st Hlen.
  - rewrite drop_ge by lia. simpl. by eauto.
  - destruct (lookup_lt_is_Some_2 obs t) as [o Ho]; [lia|].
    rewrite (drop_S _ _ _ Ho). cbn [seq for_each_io time_headers].
    assert (time_body_io obs [] trans_prob emit_prob st t
            = ([line_time_step t o], Ok (st.1 ++ [∅], ∅))) as Hbody.
    { unfold time_body_io. by rewrite (seq_get_Some _ _ _ Ho), quiet_bind. }
    rewrite (io_bind_run _ _ _ _ Hbody).
    destruct (IH (S t) (st.1 ++ [∅], ∅)) as [st' ->]; [lia|].
    by eauto.
Qed.

(** What has been printed when the call raises.  An input that validation
    rejects prints nothing.  An accepted input with states but without
    observations prints the two opening lines before [observations[0]]
    fails.  An accepted input without states prints the two opening lines
    and the header of every time step, and only then fails in [max]. *)
Theorem viterbi_io_failures (observations states : pyobj)
    start_prob trans_prob emit_prob :
  (∀ e, validate_input observations states start_prob trans_prob emit_prob
        = Raise e →
        viterbi_io observations states start_prob trans_prob emit_prob
        = ([], Raise e)) ∧
  (validate_input observations states start_prob trans_prob emit_prob = Ok tt →
   items_of states ≠ [] → items_of observations = [] →
   viterbi_io observations states start_prob trans_prob emit_prob
   = ([line_validated; line_initialization], Raise IndexError)) ∧
  (validate_input observations states start_prob trans_prob emit_prob = Ok tt →
   items_of states = [] →
   viterbi_io observations states start_prob trans_prob emit_prob
   = (line_validated :: line_initialization
        :: time_headers 1 (tail (items_of observations)),
      Raise ValueError)).
Proof.
  split_and!.
  - intros e Hv. unfold viterbi_io, validate_input_io. by rewrite Hv.
  - intros Hv Hsts Hobs. pose proof Hv as Hacc. apply validate_input_Ok in Hacc.
    rewrite (viterbi_io_accepted _ _ _ _ _ Hv).
    pose proof Hacc as (Hco & Hcs & H3 & _ & _ & H6 & _).
    unfold decode_io.
    rewrite print_bind, (py_items_sequence _ Hcs), quiet_bind,
      (py_items_sequence _ Hco), quiet_bind, Hobs.
    destruct (items_of states) as [|s sts] eqn:Es; [done|].
    unfold check_start, check_emit in *. rewrite Es in *.
    destruct (dom_rows_defined _ (s :: sts) H3 s) as [a Ha]; [set_solver|].
    destruct (dom_rows_defined _ (s :: sts) H6 s) as [row Hrow]; [set_solver|].
    cbn [for_each_io].
    assert (init_body_io [] start_prob emit_prob ([∅], ∅) s = ([], Raise IndexError))
      as Hbody.
    { pose proof (init_body_io_spec [] start_prob emit_prob ([∅], ∅) s) as Hs.
      unfold init_body in Hs.
      by rewrite (dict_get_Some _ _ _ Ha), (dict_get_Some _ _ _ Hrow) in Hs. }
    rewrite (io_bind_raise _ _ _ _ Hbody).
    by rewrite (io_bind_raise _ (λ st0, _ ≫= _) [] IndexError).
  - intros Hv Hsts. pose proof Hv as Hacc. apply validate_input_Ok in Hacc.
    rewrite (viterbi_io_accepted _ _ _ _ _ Hv).
    pose proof Hacc as (Hco & Hcs & _).
    unfold decode_io.
    rewrite print_bind, (py_items_sequence _ Hcs), quiet_bind,
      (py_items_sequence _ Hco), quiet_bind, Hsts.
    cbn [for_each_io].
    erewrite (io_bind_run (mret _)); [|reflexivity].
    assert (∃ st', for_each_io (time_body_io (items_of observations) []
                                  trans_prob emit_prob)
                     ([∅], ∅) (seq 1 (length (items_of observations) - 1))
                   = (time_headers 1 (tail (items_of observations)), Ok st'))
      as [st' Htime].
    { destruct (items_of observations) as [|o obs] eqn:Eo; [simpl; by eauto|].
      destruct (time_loop_io_no_state (o :: obs) trans_prob emit_prob
                  (length (o :: obs) - 1) 1 ([∅], ∅)) as [st' Hst'];
        [simpl; lia|].
      exists st'. rewrite Hst'. reflexivity. }
    rewrite (io_bind_run _ _ _ _ Htime).
    cbn [fst snd app]. rewrite app_nil_r. reflexivity.
Qed.

End OutputFacts.

(** ** The returned list is a new object *)

Section Fresh.
Context {A : Type} `{PyNum A}.
Implicit Types (h hh : gmap loc (obj A)).

Lemma refs_new_extends_off h lp w hh hh' :
  refs_new h lp hh → extends_off w hh hh' → w ≠ lp → refs_new h lp hh'.
Proof.
  intros (d & Hd & Hnew) Hext Hne. exists d. split; [|done]. by apply Hext.
Qed.

(** Storing a reference to a list just built keeps the dict at [lp] among
    the objects of the call. *)
Lemma path_set_new h lV lp hh (st : trellis) k q hh' :
  local_in h lV lp hh st → refs_new h lp hh →
  (alloc (OSeq (PyList q)) ≫= λ lq, refs_set lp k lq) hh = (Ok tt, hh') →
  refs_new h lp hh'.
Proof.
  intros (Hframe & _) (d & Hd & Hnew) Hrun.
  unfold mbind, prog_bind in Hrun. rewrite run_alloc in Hrun.
  pose proof (fresh_lookup hh) as Hfresh.
  assert (<[fresh (dom hh) := OSeq (PyList q)]> hh !! lp = Some (ORefs d)) as Hd1.
  { rewrite lookup_insert_ne; [done|]. intros <-. congruence. }
  rewrite (run_refs_set _ _ _ _ _ Hd1) in Hrun. injection Hrun as <-.
  exists (<[k := fresh (dom hh)]> d). split; [by rewrite lookup_insert_eq|].
  apply map_Forall_insert_2; [|done]. by apply frame_fresh.
Qed.

Lemma sim_refs_get_elem hh l d pm k :
  hh !! l = Some (ORefs d) → paths_of hh d pm →
  sim (refs_get l k) (dict_get pm k) hh (λ lp p hh', hh' = hh ∧ d !! k = Some lp).
Proof.
  intros Hl Hd. unfold refs_get. eapply sim_left; [by apply run_load|].
  specialize (Hd k). unfold sim, lift, dict_get. simpl.
  destruct (d !! k) as [lp|].
  - destruct Hd as (p & Hp & ->). done.
  - by rewrite Hd.
Qed.

Section FreshLoops.
Variable h : gmap loc (obj A).
Variables (lo ls lsp ltp lep : loc) (o s : pyobj).
Variables (sp : gmap string A) (tp ep : gmap string (gmap string A)).
Variables (obs sts : list string).
Hypothesis Hin : inputs_in h lo ls lsp ltp lep o s sp tp ep.
Hypothesis Hobs : py_items o = Ok obs.
Hypothesis Hsts : py_items s = Ok sts.

Lemma sim_init_body_new (lV lp : loc) hh (st : trellis) (u : unit) (state : string) :
  local_in h lV lp hh st → refs_new h lp hh →
  sim (init_body_st lo lsp lep lV lp u state) (init_body obs sp ep st state) hh
      (λ _ st' hh', local_in h lV lp hh' st' ∧ refs_new h lp hh').
Proof.
  intros Hloc Hnew. destruct st as [V pm].
  pose proof Hloc as (Hframe & _ & _ & rows & d & HV & _ & _ & Hrows & Hd & Hpaths).
  pose proof (inputs_at h lo ls lsp ltp lep o s sp tp ep Hin hh Hframe)
    as (Ho & Hs & Hsp & Htp & Hep).
  simpl in *. unfold init_body_st, init_body.
  eapply sim_bind; [by apply sim_nums_get|]. intros a a' hh' [-> ->].
  eapply sim_bind; [by apply sim_table_row|]. intros lr row hh' [-> Hrow].
  eapply sim_bind; [by eapply sim_seq_item|]. intros o0 o0' hh' [-> ->].
  eapply sim_bind; [by apply sim_nums_get|]. intros b b' hh' [-> ->].
  eapply sim_bind; [by eapply sim_rows_get|]. intros l0 V0 hh' (-> & Hl0 & Hi & HVi).
  destruct (local_nums_set h lV lp hh V pm rows 0 l0 V0 state (num_mul a' b')
              Hloc HV Hi Hl0) as (hh1 & Hrun1 & Hloc1 & Hext1).
  eapply sim_left; [exact Hrun1|].
  assert (refs_new h lp hh1) as Hnew1.
  { eapply refs_new_extends_off; [exact Hnew|exact Hext1|]. intros ->. congruence. }
  destruct (local_path_set h lV lp hh1 _ pm state [state] Hloc1)
    as (hh2 & Hrun2 & Hloc2 & _).
  eapply sim_run; [exact Hrun2|]. split; [exact Hloc2|].
  exact (path_set_new h lV lp hh1 _ state [state] hh2 Hloc1 Hnew1 Hrun2).
Qed.

Lemma sim_step_body_new (t : nat) (lV lpath lnp : loc)
    (pm_old : gmap string (list string)) hh (st : trellis) (u : unit) (c : string) :
  inner_in h lV lnp lpath pm_old hh st → refs_new h lnp hh →
  sim (step_body_st t lo ls ltp lep lV lpath lnp u c)
      (step_body t obs sts tp ep pm_old st c) hh
      (λ _ st' hh', inner_in h lV lnp lpath pm_old hh' st' ∧ refs_new h lnp hh').
Proof.
  intros (Hloc & Hne & d_old & Hold & Hpold) Hnew. destruct st as [V npm].
  pose proof Hloc as (Hframe & _ & _ & rows & d & HV & _ & _ & Hrows & Hd & Hpaths).
  pose proof (inputs_at h lo ls lsp ltp lep o s sp tp ep Hin hh Hframe)
    as (Ho & Hs & Hsp & Htp & Hep).
  simpl in *. unfold step_body_st, step_body, best_prev. simpl.
  rewrite result_bind_assoc.
  eapply sim_left; [by eapply run_seq_items|].
  eapply sim_bind.
  { apply sim_gen_list. intros prev.
    by apply (sim_candidate h lo ls lsp ltp lep o s sp tp ep obs Hin Hobs
                lV lnp hh (V, npm)). }
  intros items items' hh' [-> ->].
  eapply sim_bind; [apply sim_lift|]. intros r [max_prob prev_st] hh' [-> ->].
  simpl.
  eapply sim_bind; [by eapply sim_rows_get|]. intros lt Vt hh' (-> & Hlt & Hi & HVi).
  destruct (local_nums_set h lV lnp hh V npm rows t lt Vt c max_prob
              Hloc HV Hi Hlt) as (hh1 & Hrun1 & Hloc1 & Hext1).
  eapply sim_left; [exact Hrun1|].
  assert (refs_new h lnp hh1) as Hnew1.
  { eapply refs_new_extends_off; [exact Hnew|exact Hext1|]. intros ->. congruence. }
  assert (hh1 !! lpath = Some (ORefs d_old)) as Hold1.
  { apply Hext1; [|done]. intros ->. congruence. }
  assert (paths_of hh1 d_old pm_old) as Hpold1.
  { eapply paths_of_extends_off; [exact Hpold| |exact Hext1]. intros o'. congruence. }
  eapply sim_bind; [by eapply sim_paths_get|]. intros lpp pp hh' [-> Hlpp].
  eapply sim_left; [by eapply (run_seq_items _ _ (PyList pp))|].
  destruct (local_path_set h lV lnp hh1 _ npm c (pp ++ [c]) Hloc1)
    as (hh2 & Hrun2 & Hloc2 & Hext2).
  eapply sim_run; [exact Hrun2|].
  split; [|exact (path_set_new h lV lnp hh1 _ c (pp ++ [c]) hh2 Hloc1 Hnew1 Hrun2)].
  split_and!; [exact Hloc2|done|].
  exists d_old. split.
  - by apply Hext2.
  - eapply paths_of_extends_off; [exact Hpold1| |exact Hext2].
    intros o'. destruct Hloc1 as (_ & _ & _ & ? & ? & _ & _ & _ & _ & Hd1 & _).
    congruence.
Qed.

Lemma sim_time_body_new (lV lpath : loc) hh (st : trellis) (t : nat) :
  local_in h lV lpath hh st →
  sim (time_body_st lo ls ltp lep lV lpath t) (time_body obs sts tp ep st t) hh
      (λ lnp st' hh', local_in h lV lnp hh' st' ∧ refs_new h lnp hh').
Proof.
  intros Hloc. destruct st as [V pm].
  pose proof Hloc as (Hframe & HlV & Hlp & rows & d & HV & Hnew & Hnd & Hrows & Hd & Hpaths).
  simpl in *. unfold time_body_st, time_body. simpl.
  rewrite <- (result_bind_ret (for_each _ _ _)).
  set (lrow := fresh (dom hh)).
  set (hh1 := <[lrow := ONums ∅]> hh).
  eapply sim_left; [apply run_alloc|]. fold lrow hh1.
  assert (hh1 !! lV = Some (ORows rows)) as HV1 by (by apply lookup_fresh_ne).
  set (hh2 := <[lV := ORows (rows ++ [lrow])]> hh1).
  eapply sim_left; [by apply run_rows_append|]. fold hh2.
  set (lnp := fresh (dom hh2)).
  set (hh3 := <[lnp := ORefs ∅]> hh2).
  eapply sim_left; [apply run_alloc|]. fold lnp hh3.
  assert (frame h hh1) as Hframe1.
  { apply frame_insert; [done|]. by apply frame_fresh. }
  assert (frame h hh2) as Hframe2 by (by apply frame_insert).
  assert (frame h hh3) as Hframe3.
  { apply frame_insert; [done|]. by apply frame_fresh. }
  pose proof (inputs_at h lo ls lsp ltp lep o s sp tp ep Hin hh3 Hframe3)
    as (Ho & Hs & Hsp & Htp & Hep).
  eapply sim_left; [by eapply run_seq_items|].
  assert (lrow ≠ lV) as HrowV.
  { intros E. pose proof (fresh_lookup hh) as Hf. fold lrow in Hf. congruence. }
  assert (hh2 !! lrow = Some (ONums ∅)) as Hrow2.
  { unfold hh2. rewrite lookup_insert_ne by done. unfold hh1.
    by rewrite lookup_insert_eq. }
  assert (hh2 !! lpath = Some (ORefs d)) as Hd2.
  { unfold hh2. rewrite lookup_insert_ne by (intros <-; congruence).
    by apply lookup_fresh_ne. }
  assert (inner_in h lV lnp lpath pm hh3 ((V ++ [∅])%list, ∅)) as Hinner.
  { split_and!.
    - split_and!; [done|done|by apply frame_fresh|].
      exists (rows ++ [lrow])%list, ∅. simpl. split_and!.
      + apply lookup_fresh_ne. unfold hh2. by rewrite lookup_insert_eq.
      + apply Forall_app. split; [done|]. constructor; [|done]. by apply frame_fresh.
      + apply NoDup_app. split_and!; [done| |apply NoDup_singleton].
        intros l Hl Hl'. apply list_elem_of_singleton in Hl' as ->.
        apply list_elem_of_lookup in Hl as [i Hi].
        destruct (Forall2_lookup_l _ _ _ _ _ Hrows Hi) as (row & _ & Hrow).
        pose proof (fresh_lookup hh) as Hf. fold lrow in Hf. congruence.
      + apply rows_in_fresh. apply Forall2_app.
        * apply rows_in_insert; [by apply rows_in_fresh|]. intros row. congruence.
        * constructor; [|constructor]. done.
      + unfold hh3. by rewrite lookup_insert_eq.
      + intros k. by rewrite !lookup_empty.
    - intros E. pose proof (fresh_lookup hh2) as Hf. fold lnp in Hf. congruence.
    - exists d. split; [by apply lookup_fresh_ne|].
      apply paths_of_fresh.
      apply paths_of_insert; [by apply paths_of_fresh|]. intros o'. congruence. }
  assert (refs_new h lnp hh3) as Hnew3.
  { exists ∅. split; [unfold hh3; by rewrite lookup_insert_eq|].
    apply map_Forall_empty. }
  eapply sim_bind.
  { apply (sim_for_each _ _
             (λ (_ : unit) st' hh',
                inner_in h lV lnp lpath pm hh' st' ∧ refs_new h lnp hh'));
      [|by split].
    intros u st' hh' x [Hst' Hn']. by apply sim_step_body_new. }
  intros u0 st' hh' ((Hloc' & _) & Hn'). by eapply sim_run.
Qed.

(** The list object returned by the decoder is one that the call has
    allocated. *)
Lemma sim_decode_new :
  sim (decode_st lo ls lsp ltp lep) (decode o s sp tp ep) h
      (λ r r' hh', r.2 ∉ dom h).
Proof.
  unfold decode_st, decode. rewrite Hsts, Hobs. simpl.
  set (l0 := fresh (dom h)).
  set (h1 := <[l0 := ONums ∅]> h).
  eapply sim_left; [apply run_alloc|]. fold l0 h1.
  set (lV := fresh (dom h1)).
  set (h2 := <[lV := ORows [l0]]> h1).
  eapply sim_left; [apply run_alloc|]. fold lV h2.
  set (lp := fresh (dom h2)).
  set (h3 := <[lp := ORefs ∅]> h2).
  eapply sim_left; [apply run_alloc|]. fold lp h3.
  assert (frame h h) as Hframe0 by done.
  assert (frame h h1) as Hframe1.
  { apply frame_insert; [done|]. by apply frame_fresh. }
  assert (frame h h2) as Hframe2.
  { apply frame_insert; [done|]. by apply frame_fresh. }
  assert (frame h h3) as Hframe3.
  { apply frame_insert; [done|]. by apply frame_fresh. }
  assert (h1 !! l0 = Some (ONums ∅)) as Hl0 by (unfold h1; by rewrite lookup_insert_eq).
  assert (h2 !! lV = Some (ORows [l0])) as HlV by (unfold h2; by rewrite lookup_insert_eq).
  assert (local_in h lV lp h3 ([∅], ∅)) as Hloc.
  { split_and!; [done|by apply frame_fresh|by apply frame_fresh|].
    exists [l0], ∅. simpl. split_and!.
    - by apply lookup_fresh_ne.
    - constructor; [|done]. by apply frame_fresh.
    - apply NoDup_singleton.
    - constructor; [|constructor]. apply lookup_fresh_ne. by apply lookup_fresh_ne.
    - unfold h3. by rewrite lookup_insert_eq.
    - intros k. by rewrite !lookup_empty. }
  assert (refs_new h lp h3) as Hnew.
  { exists ∅. split; [unfold h3; by rewrite lookup_insert_eq|].
    apply map_Forall_empty. }
  pose proof (inputs_at h lo ls lsp ltp lep o s sp tp ep Hin h3 Hframe3)
    as (Ho & Hs & Hsp & Htp & Hep).
  eapply sim_left; [by eapply run_seq_items|].
  eapply sim_bind.
  { apply (sim_for_each _ _
             (λ (_ : unit) st' hh', local_in h lV lp hh' st' ∧ refs_new h lp hh'));
      [|by split].
    intros u st' hh' x [Hst' Hn']. by apply sim_init_body_new. }
  intros u0 st0 hh0 [Hloc0 Hnew0]. simpl in Hloc0, Hnew0.
  pose proof (inputs_at h lo ls lsp ltp lep o s sp tp ep Hin hh0 (proj1 Hloc0))
    as (Ho0 & Hs0 & _).
  eapply sim_left; [by eapply run_seq_items|].
  eapply sim_bind.
  { apply (sim_for_each _ _
             (λ lpath st' hh', local_in h lV lpath hh' st' ∧ refs_new h lpath hh'));
      [|by split].
    intros lpath st' hh' t [Hst' _]. by apply sim_time_body_new. }
  intros lpath [V pm] hh1 [Hloc1 Hnew1].
  pose proof (inputs_at h lo ls lsp ltp lep o s sp tp ep Hin hh1 (proj1 Hloc1))
    as (Ho1 & Hs1 & _).
  eapply sim_left; [by eapply run_seq_items|].
  unfold best_final. rewrite result_bind_assoc.
  eapply sim_bind.
  { apply sim_gen_list. intros state.
    by apply (sim_finalist h lV lpath hh1 (V, pm)). }
  intros items items' hh' [-> ->].
  eapply sim_bind; [apply sim_lift|]. intros r [max_prob final_state] hh' [-> ->].
  simpl.
  destruct Hnew1 as (d & Hd & Hdnew).
  pose proof Hloc1 as (_ & _ & _ & rows & d' & _ & _ & _ & _ & Hd' & Hpaths).
  simpl in Hd', Hpaths. assert (d' = d) as -> by congruence.
  eapply sim_bind; [by eapply sim_refs_get_elem|]. intros lq q hh' [-> Hlq].
  eapply sim_run; [reflexivity|]. simpl. exact (Hdnew _ _ Hlq).
Qed.

End FreshLoops.

(** The list that [viterbi] returns is an object created by the call: it
    is none of the objects the store held before, so it shares nothing
    with the arguments. *)
Theorem viterbi_st_result_new h lo ls lsp ltp lep o s sp tp ep max_prob l h' :
  inputs_in h lo ls lsp ltp lep o s sp tp ep →
  viterbi_st lo ls lsp ltp lep h = (Ok (max_prob, l), h') →
  (l ∉ dom h) ∧ ∃ best_path, h' !! l = Some (OSeq (PyList best_path)).
Proof.
  intros Hin Hrun.
  pose proof (sim_validate_input _ _ _ _ _ _ _ _ _ _ _ Hin) as Hval.
  pose proof (sim_viterbi h lo ls lsp ltp lep o s sp tp ep Hin) as Hsim.
  unfold viterbi_st in Hrun. unfold sim in Hval.
  unfold mbind, prog_bind in Hrun.
  destruct (validate_input_st lo ls lsp ltp lep h) as [[[]|e] hh] eqn:Ev; [|done].
  destruct (validate_input o s sp tp ep) as [[]|e] eqn:Hv; [|done].
  destruct Hval as [_ ->].
  apply validate_input_Ok in Hv as (Ho & Hs & _).
  pose proof (sim_decode_new h lo ls lsp ltp lep o s sp tp ep
                (items_of o) (items_of s) Hin
                (py_items_sequence _ Ho) (py_items_sequence _ Hs)) as Hnew.
  unfold sim in Hnew. rewrite Hrun in Hnew.
  split.
  - destruct (decode o s sp tp ep); [exact Hnew|done].
  - unfold sim in Hsim. unfold viterbi_st, mbind, prog_bind in Hsim.
    rewrite Ev, Hrun in Hsim.
    destruct (viterbi o s sp tp ep) as [[p q]|]; [|done].
    destruct Hsim as [_ Hq]. by exists q.
Qed.

End Fresh.

(** ** Concrete runs *)

(** Deciding a condition on concrete tables. *)
Ltac check_holds :=
  unfold check_observations, check_states, check_start, check_trans,
    check_trans_rows, check_emit, check_emit_rows;
  apply (bool_decide_unpack _); vm_compute; exact I.
Ltac check_fails :=
  unfold check_observations, check_states, check_start, check_trans,
    check_trans_rows, check_emit, check_emit_rows;
  apply (bool_decide_eq_false_1 _); vm_compute; reflexivity.

(** (C2) On the shipped example, [viterbi] returns the probability
    [0.01344] (the double nearest to it) and the path
    [Sunny, Rainy, Rainy]. *)
Theorem example_run :
  viterbi Example.observations Example.states
          Example.start_prob Example.trans_prob Example.emit_prob
  = Ok (0.01344%float, ["Sunny"; "Rainy"; "Rainy"]).
Proof. vm_compute. reflexivity. Qed.

Lemma viterbi_path_length_witness :
  (∀ max_prob best_path,
     viterbi Example.observations Example.states
             Example.start_prob Example.trans_prob Example.emit_prob
     = Ok (max_prob, best_path) →
     length best_path = 3) ∧
  (items_of Example.states ≠ [] →
   ∃ max_prob best_path,
     viterbi Example.observations Example.states
             Example.start_prob Example.trans_prob Example.emit_prob
     = Ok (max_prob, best_path)).
Proof.
  apply (viterbi_path_length Example.observations Example.states
           Example.start_prob Example.trans_prob Example.emit_prob).
  - vm_compute. reflexivity.
  - discriminate.
Defined.

(** (C4) An input that passes validation and on which [viterbi] fails:
    with no observation, [observations[0]] raises [IndexError]. *)
Theorem accepted_input_fails :
  validate_input NoObservation.observations NoObservation.states
    NoObservation.start_prob NoObservation.trans_prob NoObservation.emit_prob = Ok tt ∧
  viterbi NoObservation.observations NoObservation.states
    NoObservation.start_prob NoObservation.trans_prob NoObservation.emit_prob
  = Raise IndexError.
Proof. vm_compute. split; reflexivity. Qed.

Lemma validation_rejects_each_check_witness :
  viterbi Malformed.scalar Example.states
    Example.start_prob Example.trans_prob Example.emit_prob
  = Raise (AssertionError msg_observations) ∧
  viterbi Example.observations Malformed.scalar
    Example.start_prob Example.trans_prob Example.emit_prob
  = Raise (AssertionError msg_states) ∧
  viterbi Example.observations Example.states
    Malformed.start_prob Example.trans_prob Example.emit_prob
  = Raise (AssertionError msg_start) ∧
  viterbi Example.observations Example.states
    Example.start_prob Malformed.trans_prob Example.emit_prob
  = Raise (AssertionError msg_trans) ∧
  viterbi Example.observations Example.states
    Example.start_prob Malformed.trans_rows Example.emit_prob
  = Raise (AssertionError msg_trans_rows) ∧
  viterbi Example.observations Example.states
    Example.start_prob Example.trans_prob Malformed.emit_prob
  = Raise (AssertionError msg_emit) ∧
  viterbi Example.observations Example.states
    Example.start_prob Example.trans_prob Malformed.emit_rows
  = Raise (AssertionError msg_emit_rows) ∧
  validate_input Example.observations Example.states
    Example.start_prob Example.trans_prob Example.emit_prob = Ok tt.
Proof.
  split_and!.
  - apply (validation_rejects_each_check Malformed.scalar Example.states
             Example.start_prob Example.trans_prob Example.emit_prob).
    check_fails.
  - apply (validation_rejects_each_check Example.observations Malformed.scalar
             Example.start_prob Example.trans_prob Example.emit_prob);
      [check_holds|check_fails].
  - apply (validation_rejects_each_check Example.observations Example.states
             Malformed.start_prob Example.trans_prob Example.emit_prob);
      [check_holds..|check_fails].
  - apply (validation_rejects_each_check Example.observations Example.states
             Example.start_prob Malformed.trans_prob Example.emit_prob);
      [check_holds..|check_fails].
  - apply (validation_rejects_each_check Example.observations Example.states
             Example.start_prob Malformed.trans_rows Example.emit_prob);
      [check_holds..|check_fails].
  - apply (validation_rejects_each_check Example.observations Example.states
             Example.start_prob Example.trans_prob Malformed.emit_prob);
      [check_holds..|check_fails].
  - apply (validation_rejects_each_check Example.observations Example.states
             Example.start_prob Example.trans_prob Malformed.emit_rows);
      [check_holds..|check_fails].
  - apply (validation_rejects_each_check Example.observations Example.states
             Example.start_prob Example.trans_prob Example.emit_prob);
      check_holds.
Defined.

Lemma store_example_run :
  ∃ p h,
    viterbi_st StoreExample.observations StoreExample.states StoreExample.start_prob
               StoreExample.trans_prob StoreExample.emit_prob StoreExample.heap
    = (Ok (0.01344%float, p), h) ∧
    h !! p = Some (OSeq (PyList ["Sunny"; "Rainy"; "Rainy"])).
Proof. eexists _, _. split; vm_compute; reflexivity. Qed.

(** (C10) Whatever the store holds when [viterbi] is called and whatever
    the call returns or raises, every object that was in the store before
    the call, and so [observations], [states], [start_prob], [trans_prob],
    [emit_prob] and the rows of the two tables, holds after the call the
    value it held before: the call only updates objects it has allocated
    itself. *)
Theorem viterbi_leaves_inputs_unchanged {A : Type} `{PyNum A}
    (observations states start_prob trans_prob emit_prob : loc)
    (h : gmap loc (obj A)) (l : loc) (o : obj A) :
  h !! l = Some o →
  (viterbi_st observations states start_prob trans_prob emit_prob h).2 !! l = Some o.
Proof.
  intros Ho.
  assert (keeps h (viterbi_st observations states start_prob trans_prob emit_prob)
                (λ _, True)) as Hkeeps.
  { unfold viterbi_st. eapply keeps_bind; [apply keeps_validate_input|].
    intros _ _. apply keeps_decode. }
  destruct (Hkeeps h (inv_initial h)) as [[Hframe _] _].
  rewrite Hframe; [done|]. apply elem_of_dom. eauto.
Qed.

Lemma viterbi_leaves_inputs_unchanged_witness :
  (viterbi_st StoreExample.observations StoreExample.states StoreExample.start_prob
              StoreExample.trans_prob StoreExample.emit_prob StoreExample.heap).2
    !! StoreExample.trans_prob
  = Some (ORefs (<["Rainy" := 6%positive]> (<["Sunny" := 7%positive]> ∅))).
Proof.
  apply (viterbi_leaves_inputs_unchanged
           StoreExample.observations StoreExample.states StoreExample.start_prob
           StoreExample.trans_prob StoreExample.emit_prob StoreExample.heap).
  vm_compute. reflexivity.
Defined.

Lemma viterbi_returns_witness :
  ∃ max_prob best_path,
    viterbi Example.observations Example.states
            Example.start_prob Example.trans_prob Example.emit_prob
    = Ok (max_prob, best_path).
Proof.
  apply (viterbi_returns Example.observations Example.states
           Example.start_prob Example.trans_prob Example.emit_prob).
  - vm_compute. reflexivity.
  - discriminate.
  - discriminate.
Defined.

Lemma viterbi_order_independent_witness :
  viterbi Example.observations (PyTuple ["Rainy"; "Sunny"])
          ExactExample.start_prob ExactExample.trans_prob ExactExample.emit_prob
  = viterbi Example.observations (PyTuple ["Sunny"; "Rainy"])
            ExactExample.start_prob ExactExample.trans_prob ExactExample.emit_prob.
Proof.
  apply (viterbi_order_independent Example.observations
           ["Rainy"; "Sunny"] ["Sunny"; "Rainy"]).
  apply perm_swap.
Defined.

(** The store of [StoreExample] holds the tables of the shipped example. *)
Lemma store_example_table (l l1 l2 : loc) (t : gmap string (gmap string float))
    (r1 r2 : gmap string float) :
  StoreExample.heap !! l = Some (ORefs (<["Rainy" := l1]> (<["Sunny" := l2]> ∅))) →
  StoreExample.heap !! l1 = Some (ONums r1) →
  StoreExample.heap !! l2 = Some (ONums r2) →
  t = <["Rainy" := r1]> (<["Sunny" := r2]> ∅) →
  table_in StoreExample.heap l t.
Proof.
  intros Hl H1 H2 ->. eexists. split; [exact Hl|]. intros k.
  destruct (decide (k = "Rainy")) as [->|Hr].
  { rewrite !lookup_insert_eq. eauto. }
  rewrite !(lookup_insert_ne _ "Rainy") by done.
  destruct (decide (k = "Sunny")) as [->|Hs].
  { rewrite !lookup_insert_eq. eauto. }
  by rewrite !(lookup_insert_ne _ "Sunny"), !lookup_empty by done.
Qed.

Lemma store_example_inputs :
  inputs_in StoreExample.heap
    StoreExample.observations StoreExample.states StoreExample.start_prob
    StoreExample.trans_prob StoreExample.emit_prob
    Example.observations Example.states
    Example.start_prob Example.trans_prob Example.emit_prob.
Proof.
  split_and!; try (vm_compute; reflexivity).
  - eapply (store_example_table _ 6%positive 7%positive); vm_compute; reflexivity.
  - eapply (store_example_table _ 8%positive 9%positive); vm_compute; reflexivity.
Qed.

Lemma viterbi_st_refines_witness :
  match viterbi_st StoreExample.observations StoreExample.states
                   StoreExample.start_prob StoreExample.trans_prob
                   StoreExample.emit_prob StoreExample.heap,
        viterbi Example.observations Example.states
                Example.start_prob Example.trans_prob Example.emit_prob with
  | (Ok (max_prob, l), h'), Ok (max_prob', best_path) =>
      max_prob = max_prob' ∧ h' !! l = Some (OSeq (PyList best_path))
  | (Raise e, _), Raise e' => e = e'
  | _, _ => False
  end.
Proof.
  apply (viterbi_st_refines StoreExample.heap).
  exact store_example_inputs.
Defined.

Lemma viterbi_path_probability_witness :
  (∀ max_prob best_path,
     viterbi Example.observations Example.states
             Example.start_prob Example.trans_prob Example.emit_prob
     = Ok (max_prob, best_path) →
     state_seqs ["Rainy"; "Sunny"] 3 best_path ∧
     seq_prob Example.start_prob Example.trans_prob Example.emit_prob
              best_path ["walk"; "shop"; "clean"]
     = Some max_prob) ∧
  (items_of Example.observations ≠ [] → items_of Example.states ≠ [] →
   ∃ max_prob best_path,
     viterbi Example.observations Example.states
             Example.start_prob Example.trans_prob Example.emit_prob
     = Ok (max_prob, best_path)).
Proof.
  apply (viterbi_path_probability Example.observations Example.states
           Example.start_prob Example.trans_prob Example.emit_prob).
  vm_compute. reflexivity.
Defined.

(** The product along the returned path of the shipped example, in
    doubles. *)
Lemma example_path_probability :
  seq_prob Example.start_prob Example.trans_prob Example.emit_prob
           ["Sunny"; "Rainy"; "Rainy"] ["walk"; "shop"; "clean"]
  = Some 0.01344%float.
Proof. vm_compute. reflexivity. Qed.

Lemma viterbi_state_set_witness :
  viterbi Example.observations (PyTuple ["Rainy"; "Sunny"])
          ExactExample.start_prob ExactExample.trans_prob ExactExample.emit_prob
  = viterbi Example.observations (PyList ["Sunny"; "Rainy"; "Sunny"])
            ExactExample.start_prob ExactExample.trans_prob ExactExample.emit_prob.
Proof.
  apply (viterbi_state_set Example.observations
           (PyTuple ["Rainy"; "Sunny"]) (PyList ["Sunny"; "Rainy"; "Sunny"])).
  - reflexivity.
  - reflexivity.
  - intros x. simpl. rewrite !elem_of_cons, !elem_of_nil. tauto.
Defined.

Lemma unobserved_symbol_rejected_witness :
  viterbi (PyTuple ["walk"; "shop"]) Example.states
          Example.start_prob Example.trans_prob Example.emit_prob
  = Raise (AssertionError msg_emit_rows).
Proof.
  apply (unobserved_symbol_rejected (PyTuple ["walk"; "shop"]) Example.states
           Example.start_prob Example.trans_prob Example.emit_prob
           "Rainy" "clean"
           (<["walk" := 0.1%float]> (<["shop" := 0.4%float]>
              (<["clean" := 0.5%float]> ∅)))).
  1-6: check_holds.
  - apply (bool_decide_unpack _). vm_compute. exact I.
  - vm_compute. reflexivity.
  - apply (bool_decide_unpack _). vm_compute. exact I.
  - apply (bool_decide_unpack _). vm_compute. exact I.
Defined.

Lemma viterbi_io_line_count_witness :
  ∃ out r,
    viterbi_io Example.observations Example.states
               Example.start_prob Example.trans_prob Example.emit_prob
    = (out, Ok r) ∧
    viterbi Example.observations Example.states
            Example.start_prob Example.trans_prob Example.emit_prob
    = Ok r ∧
    length out = 14.
Proof.
  apply (viterbi_io_line_count Example.observations Example.states
           Example.start_prob Example.trans_prob Example.emit_prob).
  - vm_compute. reflexivity.
  - discriminate.
  - discriminate.
Defined.

Lemma viterbi_io_reports_result_witness :
  ∃ out max_prob best_path final_state,
    viterbi_io Example.observations Example.states
               Example.start_prob Example.trans_prob Example.emit_prob
    = (line_validated :: line_initialization
         :: out ++ [line_result final_state max_prob],
       Ok (max_prob, best_path)) ∧
    last best_path = Some final_state.
Proof.
  apply (viterbi_io_reports_result Example.observations Example.states
           Example.start_prob Example.trans_prob Example.emit_prob).
  - vm_compute. reflexivity.
  - discriminate.
  - discriminate.
Defined.

Lemma viterbi_io_failures_witness :
  viterbi_io Malformed.scalar Example.states
             Example.start_prob Example.trans_prob Example.emit_prob
  = ([], Raise (AssertionError msg_observations)) ∧
  viterbi_io NoObservation.observations NoObservation.states
             NoObservation.start_prob NoObservation.trans_prob NoObservation.emit_prob
  = ([line_validated; line_initialization], Raise IndexError) ∧
  viterbi_io Example.observations NoState.states
             NoState.start_prob NoState.trans_prob NoState.emit_prob
  = ([line_validated; line_initialization;
      line_time_step 1 "shop"; line_time_step 2 "clean"],
     Raise ValueError).
Proof.
  split_and!.
  - apply (viterbi_io_failures Malformed.scalar Example.states
             Example.start_prob Example.trans_prob Example.emit_prob).
    vm_compute. reflexivity.
  - apply (viterbi_io_failures NoObservation.observations NoObservation.states
             NoObservation.start_prob NoObservation.trans_prob
             NoObservation.emit_prob).
    + vm_compute. reflexivity.
    + discriminate.
    + reflexivity.
  - apply (viterbi_io_failures Example.observations NoState.states
             NoState.start_prob NoState.trans_prob NoState.emit_prob).
    + vm_compute. reflexivity.
    + reflexivity.
Defined.

(** The script prints eighteen lines, the last two with the result. *)
Lemma script_run :
  script.2 = Ok tt ∧ length script.1 = 18 ∧
  script.1 !! 16 = Some [FText "Maximum Probability: "; FNum 0.01344%float] ∧
  script.1 !! 17 = Some [FText "Best Path: "; FStrs ["Sunny"; "Rainy"; "Rainy"]].
Proof. vm_compute. repeat split; reflexivity. Qed.

Lemma viterbi_st_result_new_witness :
  ∃ max_prob l h',
    viterbi_st StoreExample.observations StoreExample.states StoreExample.start_prob
               StoreExample.trans_prob StoreExample.emit_prob StoreExample.heap
    = (Ok (max_prob, l), h') ∧
    (l ∉ dom StoreExample.heap) ∧
    ∃ best_path, h' !! l = Some (OSeq (PyList best_path)).
Proof.
  eexists _, _, _. split; [vm_compute; reflexivity|].
  eapply (viterbi_st_result_new StoreExample.heap
           StoreExample.observations StoreExample.states StoreExample.start_prob
           StoreExample.trans_prob StoreExample.emit_prob
           Example.observations Example.states
           Example.start_prob Example.trans_prob Example.emit_prob).
  - exact store_example_inputs.
  - vm_compute. reflexivity.
Defined.

Lemma viterbi_optimal_witness :
  (∀ max_prob best_path,
     viterbi Example.observations Example.states
             Example.start_prob Example.trans_prob Example.emit_prob
     = Ok (max_prob, best_path) →
     state_seqs ["Rainy"; "Sunny"] 3 best_path ∧
     seq_prob Example.start_prob Example.trans_prob Example.emit_prob
              best_path ["walk"; "shop"; "clean"] = Some max_prob ∧
     ∀ q, state_seqs ["Rainy"; "Sunny"] 3 q →
          ∃ w, seq_prob Example.start_prob Example.trans_prob
                        Example.emit_prob q ["walk"; "shop"; "clean"] = Some w ∧
               num_leq w max_prob) ∧
  (items_of Example.observations ≠ [] → items_of Example.states ≠ [] →
   ∃ max_prob best_path,
     viterbi Example.observations Example.states
             Example.start_prob Example.trans_prob Example.emit_prob
     = Ok (max_prob, best_path)).
Proof.
  apply (viterbi_optimal Example.observations Example.states
           Example.start_prob Example.trans_prob Example.emit_prob).
  - vm_compute. reflexivity.
  - apply (bool_decide_unpack _). vm_compute. exact I.
  - apply (bool_decide_unpack _). vm_compute. exact I.
  - apply unit_products_comparable;
      apply (bool_decide_unpack _); vm_compute; exact I.
Defined.

Lemma viterbi_probability_bound_witness :
  (∀ max_prob best_path,
     viterbi Example.observations Example.states
             Example.start_prob Example.trans_prob Example.emit_prob
     = Ok (max_prob, best_path) →
     num_leq 0%float max_prob ∧ num_leq max_prob 1%float) ∧
  (items_of Example.observations ≠ [] → items_of Example.states ≠ [] →
   ∃ max_prob best_path,
     viterbi Example.observations Example.states
             Example.start_prob Example.trans_prob Example.emit_prob
     = Ok (max_prob, best_path)).
Proof.
  apply (@viterbi_probability_bound float _ float_PyNumUnit
           Example.observations Example.states
           Example.start_prob Example.trans_prob Example.emit_prob).
  - vm_compute. reflexivity.
  - apply (bool_decide_unpack _). vm_compute. exact I.
  - apply (bool_decide_unpack _). vm_compute. exact I.
  - apply (bool_decide_unpack _). vm_compute. exact I.
Defined.

(** Two inputs that pass validation and on which the returned probability
    is not the maximum.  With a negative transition entry the decoder
    returns [0.0] although [A, A, A] has probability [1.0].  With
    non-negative doubles whose product overflows it returns nan, to which
    the probability [0.5] of [B, B] is not less than or equal. *)
Lemma viterbi_not_optimal :
  (validate_input Negative.observations Negative.states
                  Negative.start_prob Negative.trans_prob Negative.emit_prob = Ok tt ∧
   viterbi Negative.observations Negative.states
           Negative.start_prob Negative.trans_prob Negative.emit_prob
   = Ok (0%float, ["B"; "B"; "B"]) ∧
   seq_prob Negative.start_prob Negative.trans_prob Negative.emit_prob
            ["A"; "A"; "A"] ["x"; "x"; "x"] = Some 1%float ∧
   num_gtb 1%float 0%float = true) ∧
  (validate_input Overflow.observations Overflow.states
                  Overflow.start_prob Overflow.trans_prob Overflow.emit_prob = Ok tt ∧
   dict_all (num_leq 0%float) Overflow.start_prob ∧
   table_all (num_leq 0%float) Overflow.trans_prob ∧
   table_all (num_leq 0%float) Overflow.emit_prob ∧
   viterbi Overflow.observations Overflow.states
           Overflow.start_prob Overflow.trans_prob Overflow.emit_prob
   = Ok (nan, ["C"; "C"]) ∧
   seq_prob Overflow.start_prob Overflow.trans_prob Overflow.emit_prob
            ["B"; "B"] ["x"; "y"] = Some 0.5%float ∧
   ¬ num_leq 0.5%float nan).
Proof.
  split.
  - vm_compute. repeat split; reflexivity.
  - split_and!; try (vm_compute; reflexivity);
      apply (bool_decide_unpack _); vm_compute; exact I.
Qed.

Lemma ties_go_to_greatest_label_witness :
  ∃ max_prob final_state best_path,
    viterbi Tie.observations Tie.states Tie.start_prob Tie.trans_prob Tie.emit_prob
    = Ok (max_prob, best_path) ∧
    tie_entry Tie.start_prob Tie.trans_prob Tie.emit_prob prefers_label
      (items_of Tie.observations) (items_of Tie.states)
      (length (items_of Tie.observations) - 1) final_state max_prob best_path ∧
    tie_final Tie.start_prob Tie.trans_prob Tie.emit_prob prefers_label
      (items_of Tie.observations) (items_of Tie.states) final_state max_prob ∧
    (∀ t s, t < length (items_of Tie.observations) → s ∈ items_of Tie.states →
       ∃ v p, tie_entry Tie.start_prob Tie.trans_prob Tie.emit_prob prefers_label
                (items_of Tie.observations) (items_of Tie.states) t s v p) ∧
    (∀ t s v p v' p',
       tie_entry Tie.start_prob Tie.trans_prob Tie.emit_prob prefers_label
         (items_of Tie.observations) (items_of Tie.states) t s v p →
       tie_entry Tie.start_prob Tie.trans_prob Tie.emit_prob prefers_label
         (items_of Tie.observations) (items_of Tie.states) t s v' p' →
       v = v' ∧ p = p') ∧
    ∀ states',
      is_list_or_tuple states' = true →
      items_of Tie.states ≡ₚ items_of states' →
      viterbi Tie.observations states' Tie.start_prob Tie.trans_prob Tie.emit_prob
      = Ok (max_prob, best_path).
Proof.
  apply (ties_go_to_greatest_label Tie.observations Tie.states
           Tie.start_prob Tie.trans_prob Tie.emit_prob).
  - vm_compute. reflexivity.
  - discriminate.
  - discriminate.
  - apply unit_products_comparable;
      apply (bool_decide_unpack _); vm_compute; exact I.
Defined.

(** With the states [A, B, C] the previous states [A] and [B] give the same
    product [0.5] for [C] and [B], of the greater label, is selected; with
    the states [C, B, A] the first candidate is nan, nothing compares
    greater than it, and [C] is selected: the result depends on the order of
    the state sequence. *)
Lemma tie_depends_on_order :
  validate_input Overflow.observations (PyTuple ["A"; "B"; "C"])
                 Overflow.start_prob Overflow.trans_prob Overflow.emit_prob = Ok tt ∧
  validate_input Overflow.observations (PyTuple ["C"; "B"; "A"])
                 Overflow.start_prob Overflow.trans_prob Overflow.emit_prob = Ok tt ∧
  viterbi Overflow.observations (PyTuple ["A"; "B"; "C"])
          Overflow.start_prob Overflow.trans_prob Overflow.emit_prob
  = Ok (0.5%float, ["B"; "C"]) ∧
  viterbi Overflow.observations (PyTuple ["C"; "B"; "A"])
          Overflow.start_prob Overflow.trans_prob Overflow.emit_prob
  = Ok (nan, ["C"; "C"]) ∧
  seq_prob Overflow.start_prob Overflow.trans_prob Overflow.emit_prob
           ["A"; "C"] ["x"; "y"] = Some 0.5%float ∧
  seq_prob Overflow.start_prob Overflow.trans_prob Overflow.emit_prob
           ["B"; "C"] ["x"; "y"] = Some 0.5%float ∧
  seq_prob Overflow.start_prob Overflow.trans_prob Overflow.emit_prob
           ["C"; "C"] ["x"; "y"] = Some nan ∧
  num_gtb nan 0.5%float = false ∧
  ["A"; "B"; "C"] ≡ₚ ["C"; "B"; "A"].
Proof.
  split_and!; try (vm_compute; reflexivity).
  change ["A"; "B"; "C"] with (reverse ["C"; "B"; "A"]).
  apply reverse_Permutation.
Qed.

Lemma ties_first_in_decreasing_order_witness :
  ∃ max_prob final_state best_path,
    viterbi Tie.observations (PyTuple ["Sunny"; "Rainy"])
            Tie.start_prob Tie.trans_prob Tie.emit_prob
    = Ok (max_prob, best_path) ∧
    tie_entry Tie.start_prob Tie.trans_prob Tie.emit_prob
      (prefers_earlier ["Sunny"; "Rainy"])
      (items_of Tie.observations) ["Sunny"; "Rainy"]
      (length (items_of Tie.observations) - 1) final_state max_prob best_path ∧
    tie_final Tie.start_prob Tie.trans_prob Tie.emit_prob
      (prefers_earlier ["Sunny"; "Rainy"])
      (items_of Tie.observations) ["Sunny"; "Rainy"] final_state max_prob ∧
    (∀ t s, t < length (items_of Tie.observations) → s ∈ ["Sunny"; "Rainy"] →
       ∃ v p, tie_entry Tie.start_prob Tie.trans_prob Tie.emit_prob
                (prefers_earlier ["Sunny"; "Rainy"])
                (items_of Tie.observations) ["Sunny"; "Rainy"] t s v p) ∧
    (∀ t s v p v' p',
       tie_entry Tie.start_prob Tie.trans_prob Tie.emit_prob
         (prefers_earlier ["Sunny"; "Rainy"])
         (items_of Tie.observations) ["Sunny"; "Rainy"] t s v p →
       tie_entry Tie.start_prob Tie.trans_prob Tie.emit_prob
         (prefers_earlier ["Sunny"; "Rainy"])
         (items_of Tie.observations) ["Sunny"; "Rainy"] t s v' p' →
       v = v' ∧ p = p').
Proof.
  apply (ties_first_in_decreasing_order Tie.observations (PyTuple ["Sunny"; "Rainy"])
           Tie.start_prob Tie.trans_prob Tie.emit_prob).
  - vm_compute. reflexivity.
  - discriminate.
  - discriminate.
  - apply (bool_decide_unpack _). vm_compute. exact I.
  - apply unit_products_comparable;
      apply (bool_decide_unpack _); vm_compute; exact I.
Defined.

(** Two inputs on which the state selected is not the earliest of those
    that tie.  With the states [Rainy, Sunny] and every sequence of the
    same probability the decoder returns [Sunny, Sunny].  With the states
    [C, B, A], listed from the greatest label down, the previous states [B]
    and [A] tie at [0.5], nothing compares greater, and the decoder
    selects [C], whose product is nan. *)
Lemma tie_not_earliest :
  (viterbi Tie.observations Tie.states Tie.start_prob Tie.trans_prob Tie.emit_prob
   = Ok (0.0625%float, ["Sunny"; "Sunny"]) ∧
   seq_prob Tie.start_prob Tie.trans_prob Tie.emit_prob
            ["Rainy"; "Rainy"] ["walk"; "walk"] = Some 0.0625%float ∧
   items_of Tie.states !! 0 = Some "Rainy") ∧
  (validate_input Overflow.observations Overflow.states
                  Overflow.start_prob Overflow.trans_prob Overflow.emit_prob = Ok tt ∧
   decreasing_labels (items_of Overflow.states) ∧
   viterbi Overflow.observations Overflow.states
           Overflow.start_prob Overflow.trans_prob Overflow.emit_prob
   = Ok (nan, ["C"; "C"]) ∧
   seq_prob Overflow.start_prob Overflow.trans_prob Overflow.emit_prob
            ["B"; "C"] ["x"; "y"] = Some 0.5%float ∧
   seq_prob Overflow.start_prob Overflow.trans_prob Overflow.emit_prob
            ["A"; "C"] ["x"; "y"] = Some 0.5%float ∧
   seq_prob Overflow.start_prob Overflow.trans_prob Overflow.emit_prob
            ["C"; "C"] ["x"; "y"] = Some nan ∧
   num_gtb nan 0.5%float = false ∧ num_eqb nan 0.5%float = false).
Proof.
  split.
  - vm_compute. repeat split; reflexivity.
  - split_and!; try (vm_compute; reflexivity).
    apply (bool_decide_unpack _). vm_compute. exact I.
Qed.

(** (C5) Inputs with no state, with no observation, or with neither, that
    pass validation: no assertion fails.  With no state [viterbi] goes on
    to line 66, where [max] raises [ValueError] on an empty generator; with
    a state and no observation it fails at [observations[0]] on line 35. *)
Theorem empty_input_not_rejected :
  (validate_input (PyTuple []) NoState.states
     NoState.start_prob NoState.trans_prob NoState.emit_prob = Ok tt ∧
   viterbi (PyTuple []) NoState.states
     NoState.start_prob NoState.trans_prob NoState.emit_prob = Raise ValueError) ∧
  (validate_input Example.observations NoState.states
     NoState.start_prob NoState.trans_prob NoState.emit_prob = Ok tt ∧
   viterbi Example.observations NoState.states
     NoState.start_prob NoState.trans_prob NoState.emit_prob = Raise ValueError) ∧
  (validate_input NoObservation.observations NoObservation.states
     NoObservation.start_prob NoObservation.trans_prob NoObservation.emit_prob = Ok tt ∧
   viterbi NoObservation.observations NoObservation.states
     NoObservation.start_prob NoObservation.trans_prob NoObservation.emit_prob
   = Raise IndexError).
Proof. vm_compute. repeat split; reflexivity. Qed.
